(** * The serializers of the "Persistence" lesson, embedded and verified

    The lesson builds [inflammation/serializers.py]: a base class
    [Serializer] whose four classmethods raise [NotImplementedError], two
    concrete serializers ([ObservationSerializer], [PatientSerializer]) that
    convert model instances to and from dictionaries, and
    [PatientJSONSerializer], which adds [save] and [load] on top of Python's
    [json] module.

    Python objects are embedded as a small universe of values over a heap of
    dictionaries: [PatientSerializer.deserialize] pops and re-assigns a key of
    every dictionary it is handed, so dictionaries are heap cells addressed
    by location and a caller can look at them again after the call.
    Exceptions are results, and every operation is a state transformer over
    the heap and the file system.

    The lesson reaches the final module in steps and tests it: its first
    working [PatientSerializer], which leaves the observations as they are
    and fails on [json.dump], is embedded in the module [draft], and its
    test [tests/test_serializers.py] in the module [test_serializers]. *)

From Stdlib Require Import ZArith String Ascii List Lia Bool.
From Stdlib Require Import DecimalString DecimalFacts DecimalPos DecimalZ.
From stdpp Require Import base option list strings gmap.

Set Warnings "-register-all".

Local Open Scope string_scope.
Local Open Scope Z_scope.
Local Open Scope nat_scope.

(** ** Python values *)

(** The exceptions the code and the library calls it makes can raise.
    [Unsupported] is no exception of Python: it is the outcome of the JSON
    decoder on a text that this development does not cover (see below), so
    that nothing is stated about such a text. *)
Inductive exc : Type :=
| NotImplementedError
| KeyError
| TypeError
| AttributeError
| ValueError
| RecursionError
| JSONDecodeError
| FileNotFoundError
| Unsupported.

Inductive result (A : Type) : Type :=
| Ok (a : A)
| Raise (e : exc).
Arguments Ok {A} a.
Arguments Raise {A} e.

Abbreviation loc := nat.

Module models.
(** The two classes of [inflammation.models] the serializers name. *)
Inductive class : Type := Observation | Patient.

(** Modelled from the spec: the module [inflammation/models.py] is not
    among the sources.  The spec gives [Observation] the fields [day] and
    [value] and [Patient] the fields [name] and [observations]; the test of
    the lesson builds them as [Observation(i, i + 1)] and
    [Patient('Alice', [...])], which fixes the parameter order. *)
Definition params (c : class) : list string :=
  match c with
  | Observation => ["day"; "value"]
  | Patient => ["name"; "observations"]
  end.
End models.

(** The three floats that are no numbers: [float('nan')], [float('inf')]
    and [float('-inf')].  Python's [json] writes and reads them by name.
    The finite floats are not represented: their text is the one of
    [float.__repr__], which is not embedded. *)
Inductive nonfinite : Type := NaN | Infinity | NegInfinity.

(** A Python value.  Lists and instances are never mutated by the code under
    study and are kept as trees; a dictionary is a reference into the heap.
    [VObject c attrs] is an instance of model class [c] with the attribute
    dictionary [attrs]. *)
Inductive pyval : Type :=
| VNone
| VBool (b : bool)
| VInt (z : Z)
| VStr (s : string)
| VList (xs : list pyval)
| VDict (l : loc)
| VObject (c : models.class) (attrs : list (string * pyval))
| VFloat (x : nonfinite).

(** The contents of a dictionary whose keys are strings, in insertion order:
    [json.dump] writes the keys in that order. *)
Abbreviation dict := (list (string * pyval)).

Fixpoint dict_get (k : string) (d : dict) : option pyval :=
  match d with
  | [] => None
  | (k', v) :: d' => if String.eqb k k' then Some v else dict_get k d'
  end.

(** [d.pop(k)]: the value and the dictionary without the key. *)
Fixpoint dict_pop (k : string) (d : dict) : option (pyval * dict) :=
  match d with
  | [] => None
  | (k', v) :: d' =>
      if String.eqb k k' then Some (v, d')
      else match dict_pop k d' with
           | Some (x, r) => Some (x, (k', v) :: r)
           | None => None
           end
  end.

(** [d[k] = v]: an existing key keeps its place, a new key goes last. *)
Fixpoint dict_set (k : string) (v : pyval) (d : dict) : dict :=
  match d with
  | [] => [(k, v)]
  | (k', v') :: d' =>
      if String.eqb k k' then (k', v) :: d' else (k', v') :: dict_set k v d'
  end.

Definition dict_keys (d : dict) : list string := map fst d.

(** ** The world: a heap of dictionaries and a file system

    The file system is the operating system's.  [locate m path] is what
    [open] finds when it is given [path] in mode [m]: the file the path
    leads to, under a name of its own, so that two paths that lead to one
    file ([a.json] and [./a.json], a link) are not taken for two files; or
    the exception [open] raises when the path cannot be opened in that mode
    (the empty path, a directory that is missing, a path that is a
    directory, a right that is missing).  [files] holds the text of the
    files that exist.  The code under study makes and removes no directory
    and no link, so [locate] is the same before and after every call. *)

Inductive mode : Type := for_reading | for_writing.

Record world : Type := World {
  heap : list dict;
  files : gmap string string;
  locate : mode -> string -> result string
}.

Definition set_heap (h : list dict) (w : world) : world :=
  World h (files w) (locate w).

Definition set_files (f : gmap string string) (w : world) : world :=
  World (heap w) f (locate w).

(** A file system for the examples: one directory, in which every name
    is a file that may be read and written; [./name] is [name], and the
    empty path cannot be opened. *)
Definition strip_dot_slash (path : string) : string :=
  match path with
  | String "."%char (String "/"%char name) => name
  | _ => path
  end.

Definition one_directory (m : mode) (path : string) : result string :=
  match strip_dot_slash path with
  | EmptyString => Raise FileNotFoundError
  | name => Ok name
  end.

(** A computation runs on a world and ends in a value or an exception; the
    effects made before an exception stay. *)
Definition M (A : Type) : Type := world -> result A * world.

Definition ret {A} (a : A) : M A := fun w => (Ok a, w).

Definition raise {A} (e : exc) : M A := fun w => (Raise e, w).

Definition bind {A B} (m : M A) (k : A -> M B) : M B :=
  fun w =>
    match m w with
    | (Ok a, w') => k a w'
    | (Raise e, w') => (Raise e, w')
    end.

Notation "x <~ m ;; k" := (bind m (fun x => k))
  (at level 100, m at next level, right associativity).
Notation "m ;;; k" := (bind m (fun _ => k))
  (at level 100, right associativity).

Definition lift {A} (r : result A) : M A :=
  match r with
  | Ok a => ret a
  | Raise e => raise e
  end.

(** A comprehension [[f(x) for x in xs]], or a [for] loop that appends one
    result per element: left to right, stopping at the first exception. *)
Fixpoint for_each {A B} (f : A -> M B) (xs : list A) : M (list B) :=
  match xs with
  | [] => ret []
  | x :: xs' => a <~ f x ;; r <~ for_each f xs' ;; ret (a :: r)
  end.

(** A dictionary display [{...}] makes a new dictionary. *)
Definition new_dict (d : dict) : M pyval :=
  fun w => (Ok (VDict (length (heap w))), set_heap (heap w ++ [d]) w).

(** The dictionary at a location.  No Python program holds a reference to
    a dictionary that does not exist; a location outside the heap reads as
    an empty dictionary. *)
Definition cell (h : list dict) (l : loc) : dict :=
  match h !! l with
  | Some d => d
  | None => []
  end.

Definition read_dict (l : loc) : M dict :=
  fun w => (Ok (cell (heap w) l), w).

Definition write_dict (l : loc) (d : dict) : M unit :=
  fun w => (Ok tt, set_heap (<[l := d]> (heap w)) w).

(** ** The Python operations the serializers use *)

Definition chars (s : string) : list pyval :=
  map (fun c => VStr (String c EmptyString)) (list_ascii_of_string s).

(** [for x in v]: the elements of a list, the keys of a dictionary, the
    characters of a string; anything else is not iterable. *)
Definition iterate (v : pyval) : M (list pyval) :=
  match v with
  | VList xs => ret xs
  | VStr s => ret (chars s)
  | VDict l => d <~ read_dict l ;; ret (map VStr (dict_keys d))
  | _ => raise TypeError
  end.

(** [v.a] for the four attribute names the code reads. *)
Definition getattr (v : pyval) (a : string) : M pyval :=
  match v with
  | VObject _ attrs =>
      match dict_get a attrs with
      | Some x => ret x
      | None => raise AttributeError
      end
  | _ => raise AttributeError
  end.

(** [v.pop(k)] with a string argument: [dict.pop] raises [KeyError] on a
    missing key, [list.pop] wants an integer, nothing else has [pop]. *)
Definition pop (v : pyval) (k : string) : M pyval :=
  match v with
  | VDict l =>
      d <~ read_dict l ;;
      match dict_pop k d with
      | Some (x, d') => write_dict l d' ;;; ret x
      | None => raise KeyError
      end
  | VList _ => raise TypeError
  | _ => raise AttributeError
  end.

(** [v[k] = x] with a string key. *)
Definition setitem (v : pyval) (k : string) (x : pyval) : M unit :=
  match v with
  | VDict l => d <~ read_dict l ;; write_dict l (dict_set k x d)
  | _ => raise TypeError
  end.

(** [**v] in a call: [v] must be a mapping. *)
Definition unpack (v : pyval) : M dict :=
  match v with
  | VDict l => read_dict l
  | _ => raise TypeError
  end.

Module Import construct.
(** Modelled from the spec: calling a model class with keyword arguments.
    The constructors of [inflammation/models.py] are not among the
    sources; the spec describes the call of [cls.model] on the unpacked
    mapping as building a record from a named-field mapping whose field
    set must match exactly.  A keyword that is no parameter and a
    parameter without a keyword are both a [TypeError] of the call. *)
Fixpoint take_args (kwargs : dict) (ps : list string) : result dict :=
  match ps with
  | [] => Ok []
  | p :: ps' =>
      match dict_get p kwargs, take_args kwargs ps' with
      | Some x, Ok r => Ok ((p, x) :: r)
      | _, _ => Raise TypeError
      end
  end.

Definition bind_args (c : models.class) (kwargs : dict) : result dict :=
  if forallb (fun k => existsb (String.eqb k) (models.params c))
       (dict_keys kwargs)
  then take_args kwargs (models.params c)
  else Raise TypeError.

Definition call (c : models.class) (kwargs : dict) : M pyval :=
  attrs <~ lift (bind_args c kwargs) ;; ret (VObject c attrs).
End construct.

(** ** The class hierarchy of [inflammation/serializers.py] *)

Inductive class : Type :=
| Serializer
| ObservationSerializer
| PatientSerializer
| PatientJSONSerializer.

Inductive attr : Type := a_serialize | a_save | a_deserialize | a_load | a_model.

(** The names each class body binds itself. *)
Definition defines (c : class) (a : attr) : bool :=
  match c, a with
  | Serializer, (a_serialize | a_save | a_deserialize | a_load) => true
  | ObservationSerializer, (a_model | a_serialize | a_deserialize) => true
  | PatientSerializer, (a_model | a_serialize | a_deserialize) => true
  | PatientJSONSerializer, (a_save | a_load) => true
  | _, _ => false
  end.

(** [class C(B)]: the method resolution order of single inheritance. *)
Definition mro (c : class) : list class :=
  match c with
  | Serializer => [Serializer]
  | ObservationSerializer => [ObservationSerializer; Serializer]
  | PatientSerializer => [PatientSerializer; Serializer]
  | PatientJSONSerializer =>
      [PatientJSONSerializer; PatientSerializer; Serializer]
  end.

(** The class whose body supplies [cls.a]. *)
Definition resolve (cls : class) (a : attr) : option class :=
  List.find (fun c => defines c a) (mro cls).

(** [cls.model] *)
Definition model (cls : class) : M models.class :=
  match resolve cls a_model with
  | Some ObservationSerializer => ret models.Observation
  | Some PatientSerializer => ret models.Patient
  | _ => raise AttributeError
  end.

(** *** [class Serializer] *)

Definition Serializer_serialize (cls : class) (instances : pyval) : M pyval :=
  raise NotImplementedError.

Definition Serializer_save (cls : class) (instances : pyval) (path : string)
  : M pyval :=
  raise NotImplementedError.

Definition Serializer_deserialize (cls : class) (data : pyval) : M pyval :=
  raise NotImplementedError.

Definition Serializer_load (cls : class) (path : string) : M pyval :=
  raise NotImplementedError.

(** *** [class ObservationSerializer(Serializer)] *)

(** The element expression of the comprehension in [serialize]. *)
Definition observation_record (instance : pyval) : M pyval :=
  d <~ getattr instance "day" ;;
  v <~ getattr instance "value" ;;
  new_dict [("day", d); ("value", v)].

Definition ObservationSerializer_serialize (cls : class) (instances : pyval)
  : M pyval :=
  xs <~ iterate instances ;;
  ds <~ for_each observation_record xs ;;
  ret (VList ds).

(** The element expression of the comprehension in [deserialize]: the
    class attribute [model] called on the unpacked mapping. *)
Definition build (cls : class) (d : pyval) : M pyval :=
  m <~ model cls ;;
  kwargs <~ unpack d ;;
  call m kwargs.

Definition ObservationSerializer_deserialize (cls : class) (data : pyval)
  : M pyval :=
  xs <~ iterate data ;;
  os <~ for_each (build cls) xs ;;
  ret (VList os).

(** *** [class PatientSerializer(Serializer)] *)

Definition patient_record (instance : pyval) : M pyval :=
  n <~ getattr instance "name" ;;
  obs <~ getattr instance "observations" ;;
  o <~ ObservationSerializer_serialize ObservationSerializer obs ;;
  new_dict [("name", n); ("observations", o)].

Definition PatientSerializer_serialize (cls : class) (instances : pyval)
  : M pyval :=
  xs <~ iterate instances ;;
  ds <~ for_each patient_record xs ;;
  ret (VList ds).

(** The body of the [for] loop in [deserialize]; its value is the instance
    the loop appends. *)
Definition deserialize_item (cls : class) (item : pyval) : M pyval :=
  popped <~ pop item "observations" ;;
  obs <~ ObservationSerializer_deserialize ObservationSerializer popped ;;
  setitem item "observations" obs ;;;
  build cls item.

Definition PatientSerializer_deserialize (cls : class) (data : pyval)
  : M pyval :=
  xs <~ iterate data ;;
  instances <~ for_each (deserialize_item cls) xs ;;
  ret (VList instances).

(** [cls.serialize(instances)] and [cls.deserialize(data)], dispatched on
    the class the call is made on. *)
Definition serialize (cls : class) (instances : pyval) : M pyval :=
  match resolve cls a_serialize with
  | Some Serializer => Serializer_serialize cls instances
  | Some ObservationSerializer => ObservationSerializer_serialize cls instances
  | Some PatientSerializer => PatientSerializer_serialize cls instances
  | _ => raise AttributeError
  end.

Definition deserialize (cls : class) (data : pyval) : M pyval :=
  match resolve cls a_deserialize with
  | Some Serializer => Serializer_deserialize cls data
  | Some ObservationSerializer => ObservationSerializer_deserialize cls data
  | Some PatientSerializer => PatientSerializer_deserialize cls data
  | _ => raise AttributeError
  end.

(** ** Python's [json] module, as far as the serializers use it

    Text is a list of characters.  Two limits of the embedding: the only
    floats are the three that are no numbers, and a character is one of
    the 256 code points of a Rocq [ascii].  A JSON number with a fraction
    or an exponent denotes a finite float, and an escape [\uXXXX] above
    code point 255 denotes a character outside that range: on these the
    decoder below answers [Unsupported]. *)

Local Open Scope char_scope.
Local Open Scope list_scope.

Definition dq : ascii := "034".
Definition backslash : ascii := "\".

Definition hex_digit (n : nat) : ascii :=
  match n with
  | 0 => "0" | 1 => "1" | 2 => "2" | 3 => "3" | 4 => "4" | 5 => "5"
  | 6 => "6" | 7 => "7" | 8 => "8" | 9 => "9" | 10 => "a" | 11 => "b"
  | 12 => "c" | 13 => "d" | 14 => "e" | _ => "f"
  end.

(** One character of a string under [ensure_ascii=True]: the quote and the
    backslash are escaped, the five short escapes are used, printable ASCII
    is copied and everything else is written [\u00xx]. *)
Definition escape_char (c : ascii) : list ascii :=
  let n := nat_of_ascii c in
  if Ascii.eqb c dq then [backslash; dq]
  else if Ascii.eqb c backslash then [backslash; backslash]
  else if Ascii.eqb c "010" then [backslash; "n"]
  else if Ascii.eqb c "013" then [backslash; "r"]
  else if Ascii.eqb c "009" then [backslash; "t"]
  else if Ascii.eqb c "008" then [backslash; "b"]
  else if Ascii.eqb c "012" then [backslash; "f"]
  else if ((32 <=? n) && (n <=? 126))%nat then [c]
  else [backslash; "u"; "0"; "0"; hex_digit (n / 16); hex_digit (n mod 16)].

Definition encode_string (s : string) : list ascii :=
  dq :: flat_map escape_char (list_ascii_of_string s) ++ [dq].

Fixpoint uint_chars (d : Decimal.uint) : list ascii :=
  match d with
  | Decimal.Nil => []
  | Decimal.D0 d' => "0" :: uint_chars d'
  | Decimal.D1 d' => "1" :: uint_chars d'
  | Decimal.D2 d' => "2" :: uint_chars d'
  | Decimal.D3 d' => "3" :: uint_chars d'
  | Decimal.D4 d' => "4" :: uint_chars d'
  | Decimal.D5 d' => "5" :: uint_chars d'
  | Decimal.D6 d' => "6" :: uint_chars d'
  | Decimal.D7 d' => "7" :: uint_chars d'
  | Decimal.D8 d' => "8" :: uint_chars d'
  | Decimal.D9 d' => "9" :: uint_chars d'
  end.

(** [int.__repr__] *)
Definition encode_int (z : Z) : list ascii :=
  match Z.to_int z with
  | Decimal.Pos d => uint_chars d
  | Decimal.Neg d => "-" :: uint_chars d
  end.

Definition lit (s : string) : list ascii := list_ascii_of_string s.

(** *** [json.dump]: the streaming encoder

    [json.dump(obj, fp)] writes the chunks of [iterencode(obj)] to the file
    one after the other, so what was written before an exception stays
    written.  [encode] returns the text produced and the exception that
    stopped it, if any.  [markers] are the dictionaries being encoded, for
    the circular reference check; [fuel] bounds the nesting depth, as the
    interpreter's recursion limit does. *)

Definition emitted : Type := (list ascii * option exc)%type.

Fixpoint encode_items (enc : pyval -> emitted) (first : bool)
  (xs : list pyval) : emitted :=
  match xs with
  | [] => ([], None)
  | x :: xs' =>
      let sep := if first then [] else lit ", " in
      match enc x with
      | (s, Some e) => (sep ++ s, Some e)
      | (s, None) =>
          let '(s', r) := encode_items enc false xs' in (sep ++ s ++ s', r)
      end
  end.

Fixpoint encode_pairs (enc : pyval -> emitted) (first : bool)
  (kvs : dict) : emitted :=
  match kvs with
  | [] => ([], None)
  | (k, x) :: kvs' =>
      let sep := if first then [] else lit ", " in
      let key := sep ++ encode_string k ++ lit ": " in
      match enc x with
      | (s, Some e) => (key ++ s, Some e)
      | (s, None) =>
          let '(s', r) := encode_pairs enc false kvs' in (key ++ s ++ s', r)
      end
  end.

Fixpoint encode (fuel : nat) (h : list dict) (markers : list loc) (v : pyval)
  : emitted :=
  match fuel with
  | 0 => ([], Some RecursionError)
  | S f =>
      match v with
      | VNone => (lit "null", None)
      | VBool true => (lit "true", None)
      | VBool false => (lit "false", None)
      | VInt z => (encode_int z, None)
      | VStr s => (encode_string s, None)
      | VList [] => (lit "[]", None)
      | VList xs =>
          match encode_items (encode f h markers) true xs with
          | (s, None) => ("[" :: s ++ ["]"], None)
          | (s, Some e) => ("[" :: s, Some e)
          end
      | VDict l =>
          match cell h l with
          | [] => (lit "{}", None)
          | d =>
              if existsb (Nat.eqb l) markers then ([], Some ValueError)
              else
                match encode_pairs (encode f h (l :: markers)) true d with
                | (s, None) => ("{" :: s ++ ["}"], None)
                | (s, Some e) => ("{" :: s, Some e)
                end
          end
      | VObject _ _ => ([], Some TypeError)
      | VFloat NaN => (lit "NaN", None)
      | VFloat Infinity => (lit "Infinity", None)
      | VFloat NegInfinity => (lit "-Infinity", None)
      end
  end.

(** [sys.getrecursionlimit()] by default. *)
Definition recursion_limit : nat := 1000.

(** *** The file system *)

(** [open(path, 'w')]: when the path can be opened, the file it leads to
    is created or truncated, and is what the [with] block binds; when it
    cannot, [open] raises and nothing is created.  (A file that is open can
    be written: a full disk and the like are left out.) *)
Definition open_w (path : string) : M string :=
  fun w =>
    match locate w for_writing path with
    | Ok file => (Ok file, set_files (<[file := EmptyString]> (files w)) w)
    | Raise e => (Raise e, w)
    end.

Definition write (file : string) (chunk : list ascii) : M unit :=
  fun w =>
    let old := default EmptyString (files w !! file) in
    (Ok tt,
     set_files (<[file := String.append old (string_of_list_ascii chunk)]>
                  (files w)) w).

(** [open(path)] followed by [read()]: a file that does not exist cannot
    be opened for reading. *)
Definition read (path : string) : M (list ascii) :=
  fun w =>
    match locate w for_reading path with
    | Ok file =>
        match files w !! file with
        | Some s => (Ok (list_ascii_of_string s), w)
        | None => (Raise FileNotFoundError, w)
        end
    | Raise e => (Raise e, w)
    end.

Definition json_dump (obj : pyval) (file : string) : M unit :=
  fun w =>
    let '(s, r) := encode recursion_limit (heap w) [] obj in
    match r with
    | None => write file s w
    | Some e => (write file s ;;; raise e) w
    end.

(** *** [json.load]: the decoder

    [json.load(fp)] reads the whole text and decodes it.  The decoder is
    written in two steps: the text is parsed into a tree, and the tree is
    built on the heap, a new dictionary for every JSON object. *)

Inductive json : Type :=
| JNull
| JBool (b : bool)
| JInt (z : Z)
| JStr (s : string)
| JArr (xs : list json)
| JObj (kvs : list (string * json))
| JFloat (x : nonfinite).

Definition is_ws (c : ascii) : bool :=
  Ascii.eqb c " " || Ascii.eqb c "009" || Ascii.eqb c "010"
  || Ascii.eqb c "013".

Fixpoint skip_ws (s : list ascii) : list ascii :=
  match s with
  | c :: s' => if is_ws c then skip_ws s' else s
  | [] => []
  end.

Definition hex_value (c : ascii) : option nat :=
  let n := nat_of_ascii c in
  if ((48 <=? n) && (n <=? 57))%nat then Some (n - 48)
  else if ((97 <=? n) && (n <=? 102))%nat then Some (n - 87)
  else if ((65 <=? n) && (n <=? 70))%nat then Some (n - 55)
  else None.

Definition hex4 (a b c d : ascii) : option nat :=
  match hex_value a, hex_value b, hex_value c, hex_value d with
  | Some x, Some y, Some z, Some t => Some (((x * 16 + y) * 16 + z) * 16 + t)
  | _, _, _, _ => None
  end.

(** The character a short escape [\e] stands for. *)
Definition unescape (e : ascii) : option ascii :=
  if Ascii.eqb e dq then Some dq
  else if Ascii.eqb e backslash then Some backslash
  else if Ascii.eqb e "/" then Some "/"
  else if Ascii.eqb e "b" then Some "008"
  else if Ascii.eqb e "f" then Some "012"
  else if Ascii.eqb e "n" then Some "010"
  else if Ascii.eqb e "r" then Some "013"
  else if Ascii.eqb e "t" then Some "009"
  else None.

(** [scanstring], after the opening quote, in strict mode: a control
    character inside a string is an error. *)
Fixpoint scan_string (s : list ascii) : result (list ascii * list ascii) :=
  match s with
  | [] => Raise JSONDecodeError
  | c :: s1 =>
      if Ascii.eqb c dq then Ok ([], s1)
      else if Ascii.eqb c backslash then
        match s1 with
        | [] => Raise JSONDecodeError
        | e :: s2 =>
            if Ascii.eqb e "u" then
              match s2 with
              | h1 :: h2 :: h3 :: h4 :: s3 =>
                  match hex4 h1 h2 h3 h4 with
                  | Some n =>
                      if (n <? 256)%nat then
                        match scan_string s3 with
                        | Ok (r, s4) => Ok (ascii_of_nat n :: r, s4)
                        | Raise x => Raise x
                        end
                      else Raise Unsupported
                  | None => Raise JSONDecodeError
                  end
              | _ => Raise JSONDecodeError
              end
            else
              match unescape e with
              | Some c' =>
                  match scan_string s2 with
                  | Ok (r, s3) => Ok (c' :: r, s3)
                  | Raise x => Raise x
                  end
              | None => Raise JSONDecodeError
              end
        end
      else if (nat_of_ascii c <? 32)%nat then Raise JSONDecodeError
      else
        match scan_string s1 with
        | Ok (r, s2) => Ok (c :: r, s2)
        | Raise x => Raise x
        end
  end.

Definition digit (c : ascii) : option (Decimal.uint -> Decimal.uint) :=
  if Ascii.eqb c "0" then Some Decimal.D0
  else if Ascii.eqb c "1" then Some Decimal.D1
  else if Ascii.eqb c "2" then Some Decimal.D2
  else if Ascii.eqb c "3" then Some Decimal.D3
  else if Ascii.eqb c "4" then Some Decimal.D4
  else if Ascii.eqb c "5" then Some Decimal.D5
  else if Ascii.eqb c "6" then Some Decimal.D6
  else if Ascii.eqb c "7" then Some Decimal.D7
  else if Ascii.eqb c "8" then Some Decimal.D8
  else if Ascii.eqb c "9" then Some Decimal.D9
  else None.

Definition is_digit (c : ascii) : bool :=
  match digit c with Some _ => true | None => false end.

Fixpoint scan_digits (s : list ascii) : Decimal.uint * list ascii :=
  match s with
  | [] => (Decimal.Nil, [])
  | c :: s' =>
      match digit c with
      | Some D => let '(d, r) := scan_digits s' in (D d, r)
      | None => (Decimal.Nil, s)
      end
  end.

(** The integer part of a number: [0] or a digit from 1 to 9 followed by
    digits. *)
Definition scan_int (s : list ascii) : option (Decimal.uint * list ascii) :=
  match s with
  | [] => None
  | c :: s' =>
      if Ascii.eqb c "0" then Some (Decimal.D0 Decimal.Nil, s')
      else
        match digit c with
        | Some D => let '(d, r) := scan_digits s' in Some (D d, r)
        | None => None
        end
  end.

(** Whether a fraction or an exponent follows the integer part. *)
Definition starts_float (s : list ascii) : bool :=
  match s with
  | c :: d :: r =>
      (Ascii.eqb c "." && is_digit d)
      || ((Ascii.eqb c "e" || Ascii.eqb c "E")
          && (is_digit d
              || ((Ascii.eqb d "+" || Ascii.eqb d "-")
                  && match r with d' :: _ => is_digit d' | [] => false end)))
  | _ => false
  end.

Fixpoint strip_prefix (p s : list ascii) : option (list ascii) :=
  match p with
  | [] => Some s
  | c :: p' =>
      match s with
      | c' :: s' => if Ascii.eqb c c' then strip_prefix p' s' else None
      | [] => None
      end
  end.

Definition keyword (k : string) (s : list ascii) : option (list ascii) :=
  strip_prefix (lit k) s.

(** A number, or one of the three names of floats that are no numbers. *)
Definition parse_number (s : list ascii) : result (json * list ascii) :=
  let '(neg, s1) :=
    match s with
    | c :: s' => if Ascii.eqb c "-" then (true, s') else (false, s)
    | [] => (false, s)
    end in
  match scan_int s1 with
  | Some (d, r) =>
      if starts_float r then Raise Unsupported
      else Ok (JInt (Z.of_int (if neg then Decimal.Neg d else Decimal.Pos d)),
               r)
  | None =>
      match keyword "NaN" s, keyword "Infinity" s1 with
      | Some r, _ => Ok (JFloat NaN, r)
      | None, Some r => Ok (JFloat (if neg then NegInfinity else Infinity), r)
      | None, None => Raise JSONDecodeError
      end
  end.

(** The scanner.  [depth] is the number of arrays and objects that may
    still be entered: the scanner enters each one by a recursive call, and
    the interpreter raises [RecursionError] when calls nest too deep.
    [fuel] bounds the number of calls and is never used up on a text that
    is not longer than it. *)
Fixpoint parse_value (fuel depth : nat) (s : list ascii)
  : result (json * list ascii) :=
  match fuel with
  | 0 => Raise JSONDecodeError
  | S f =>
      match s with
      | [] => Raise JSONDecodeError
      | c :: s1 =>
          if Ascii.eqb c dq then
            match scan_string s1 with
            | Ok (r, s2) => Ok (JStr (string_of_list_ascii r), s2)
            | Raise x => Raise x
            end
          else if Ascii.eqb c "{" then
            match depth with
            | 0 => Raise RecursionError
            | S d =>
                match skip_ws s1 with
                | [] => Raise JSONDecodeError
                | c' :: s2 =>
                    if Ascii.eqb c' "}" then Ok (JObj [], s2)
                    else
                      match parse_members f d (c' :: s2) with
                      | Ok (kvs, s3) => Ok (JObj kvs, s3)
                      | Raise x => Raise x
                      end
                end
            end
          else if Ascii.eqb c "[" then
            match depth with
            | 0 => Raise RecursionError
            | S d =>
                match skip_ws s1 with
                | [] => Raise JSONDecodeError
                | c' :: s2 =>
                    if Ascii.eqb c' "]" then Ok (JArr [], s2)
                    else
                      match parse_elements f d (c' :: s2) with
                      | Ok (xs, s3) => Ok (JArr xs, s3)
                      | Raise x => Raise x
                      end
                end
            end
          else
            match keyword "null" s, keyword "true" s, keyword "false" s with
            | Some r, _, _ => Ok (JNull, r)
            | _, Some r, _ => Ok (JBool true, r)
            | _, _, Some r => Ok (JBool false, r)
            | _, _, _ => parse_number s
            end
      end
  end
with parse_elements (fuel depth : nat) (s : list ascii)
  : result (list json * list ascii) :=
  match fuel with
  | 0 => Raise JSONDecodeError
  | S f =>
      match parse_value f depth s with
      | Ok (x, s1) =>
          match skip_ws s1 with
          | [] => Raise JSONDecodeError
          | c :: s2 =>
              if Ascii.eqb c "]" then Ok ([x], s2)
              else if Ascii.eqb c "," then
                match parse_elements f depth (skip_ws s2) with
                | Ok (xs, s3) => Ok (x :: xs, s3)
                | Raise e => Raise e
                end
              else Raise JSONDecodeError
          end
      | Raise e => Raise e
      end
  end
with parse_members (fuel depth : nat) (s : list ascii)
  : result (list (string * json) * list ascii) :=
  match fuel with
  | 0 => Raise JSONDecodeError
  | S f =>
      match s with
      | [] => Raise JSONDecodeError
      | q :: s1 =>
          if Ascii.eqb q dq then
            match scan_string s1 with
            | Ok (k, s2) =>
                match skip_ws s2 with
                | [] => Raise JSONDecodeError
                | c :: s3 =>
                    if Ascii.eqb c ":" then
                      match parse_value f depth (skip_ws s3) with
                      | Ok (x, s4) =>
                          match skip_ws s4 with
                          | [] => Raise JSONDecodeError
                          | c' :: s5 =>
                              if Ascii.eqb c' "}" then
                                Ok ([(string_of_list_ascii k, x)], s5)
                              else if Ascii.eqb c' "," then
                                match parse_members f depth (skip_ws s5) with
                                | Ok (kvs, s6) =>
                                    Ok ((string_of_list_ascii k, x) :: kvs, s6)
                                | Raise e => Raise e
                                end
                              else Raise JSONDecodeError
                          end
                      | Raise e => Raise e
                      end
                    else Raise JSONDecodeError
                end
            | Raise e => Raise e
            end
          else Raise JSONDecodeError
      end
  end.

(** [json.loads]: one value, white space around it, nothing after it.
    As for the encoder, the calls already on the stack when [json.load] is
    called are not counted.  The scanner makes at most two calls for each
    character it reads. *)
Definition json_loads (s : list ascii) : result json :=
  match parse_value (S (2 * length s)) recursion_limit (skip_ws s) with
  | Ok (j, r) =>
      match skip_ws r with
      | [] => Ok j
      | _ :: _ => Raise JSONDecodeError
      end
  | Raise e => Raise e
  end.

(** The Python object of a parsed tree.  The members of an object are
    built first and then put into a new dictionary one by one, so a key
    that occurs twice keeps its last value. *)
Definition dict_of_pairs (kvs : dict) : dict :=
  fold_left (fun acc kv => dict_set (fst kv) (snd kv) acc) kvs [].

Fixpoint reify (j : json) : M pyval :=
  match j with
  | JNull => ret VNone
  | JBool b => ret (VBool b)
  | JInt z => ret (VInt z)
  | JStr s => ret (VStr s)
  | JArr xs => vs <~ for_each reify xs ;; ret (VList vs)
  | JObj kvs =>
      d <~ for_each (fun kv => v <~ reify (snd kv) ;; ret (fst kv, v)) kvs ;;
      new_dict (dict_of_pairs d)
  | JFloat x => ret (VFloat x)
  end.

Definition json_load (path : string) : M pyval :=
  s <~ read path ;;
  j <~ lift (json_loads s) ;;
  reify j.

(** *** [class PatientJSONSerializer(PatientSerializer)] *)

(** The file is opened, and so truncated, before [cls.serialize] runs; the
    [with] block closes it on every way out and lets the exception pass. *)
Definition PatientJSONSerializer_save (cls : class) (instances : pyval)
  (path : string) : M pyval :=
  jsonfile <~ open_w path ;;
  data <~ serialize cls instances ;;
  json_dump data jsonfile ;;;
  ret VNone.

Definition PatientJSONSerializer_load (cls : class) (path : string)
  : M pyval :=
  data <~ json_load path ;;
  deserialize cls data.

Definition save (cls : class) (instances : pyval) (path : string) : M pyval :=
  match resolve cls a_save with
  | Some Serializer => Serializer_save cls instances path
  | Some PatientJSONSerializer => PatientJSONSerializer_save cls instances path
  | _ => raise AttributeError
  end.

Definition load (cls : class) (path : string) : M pyval :=
  match resolve cls a_load with
  | Some Serializer => Serializer_load cls path
  | Some PatientJSONSerializer => PatientJSONSerializer_load cls path
  | _ => raise AttributeError
  end.

(** ** Well-typed records and their documents *)

Local Open Scope string_scope.
Local Open Scope list_scope.

(** The records of the spec's data model: an observation has an integer day
    and a numeric value (an integer here), a patient a name and a sequence
    of observations. *)
Record observation : Type := Observation { day : Z; value : Z }.

Record patient : Type :=
  Patient { name : string; observations : list observation }.

(** The instances [Observation(day, value)] and [Patient(name, observations)]. *)
Definition observation_obj (o : observation) : pyval :=
  VObject models.Observation [("day", VInt (day o)); ("value", VInt (value o))].

Definition patient_obj (p : patient) : pyval :=
  VObject models.Patient
    [("name", VStr (name p));
     ("observations", VList (map observation_obj (observations p)))].

(** The JSON document of the on-disk format. *)
Definition observation_json (o : observation) : json :=
  JObj [("day", JInt (day o)); ("value", JInt (value o))].

Definition patient_json (p : patient) : json :=
  JObj [("name", JStr (name p));
        ("observations", JArr (map observation_json (observations p)))].

Definition document (ps : list patient) : json := JArr (map patient_json ps).

(** The text [json.dumps] gives a tree with its default separators. *)
Fixpoint sep_by {A} (f : A -> list ascii) (xs : list A) : list ascii :=
  match xs with
  | [] => []
  | x :: xs' =>
      f x ++ match xs' with
             | [] => []
             | _ :: _ => lit ", " ++ sep_by f xs'
             end
  end.

Fixpoint print (j : json) : list ascii :=
  match j with
  | JNull => lit "null"
  | JBool true => lit "true"
  | JBool false => lit "false"
  | JInt z => encode_int z
  | JStr s => encode_string s
  | JArr xs => "["%char :: sep_by print xs ++ ["]"%char]
  | JObj kvs =>
      "{"%char :: sep_by (fun kv => encode_string (fst kv) ++ lit ": "
                                      ++ print (snd kv)) kvs ++ ["}"%char]
  | JFloat NaN => lit "NaN"
  | JFloat Infinity => lit "Infinity"
  | JFloat NegInfinity => lit "-Infinity"
  end.

(** ** What a computation may change *)

(** The entry of the dictionary at [l] under the key [k]. *)
Definition entry (w : world) (l : loc) (k : string) : option pyval :=
  dict_get k (cell (heap w) l).

(** [m] relates the world it starts in to the world it ends in by [R],
    whether it returns or raises. *)
Definition preserves {A} (R : world -> world -> Prop) (m : M A) : Prop :=
  forall w, R w (snd (m w)).

(** No file is touched and no existing dictionary changes: new dictionaries
    are the only effect. *)
Definition grows (w w' : world) : Prop :=
  files w' = files w /\ exists new, heap w' = heap w ++ new.

(** No file is touched, no dictionary is made, and the only entries that
    may differ are those under ["observations"] in the dictionaries that are
    elements of [xs]. *)
Definition rewrites_observations (xs : list pyval) (w w' : world) : Prop :=
  files w' = files w
  /\ length (heap w') = length (heap w)
  /\ forall l k, k <> "observations" \/ ~ In (VDict l) xs ->
       entry w' l k = entry w l k.

(** ** Dictionaries on the heap that hold a well-typed record *)

Definition observation_cell (h : list dict) (v : pyval) (o : observation)
  : Prop :=
  exists l, v = VDict l
    /\ h !! l = Some [("day", VInt (day o)); ("value", VInt (value o))].

Definition patient_cell (h : list dict) (v : pyval) (p : patient) : Prop :=
  exists l ovs, v = VDict l
    /\ h !! l = Some [("name", VStr (name p)); ("observations", VList ovs)]
    /\ Forall2 (observation_cell h) ovs (observations p).

(** The elements a [for] loop over [data] can hand to [pop] as
    dictionaries: those of a list.  (Iterating a dictionary or a string
    yields strings.) *)
Definition elements (data : pyval) : list pyval :=
  match data with
  | VList xs => xs
  | _ => []
  end.

Definition is_dict (v : pyval) : bool :=
  match v with
  | VDict _ => true
  | _ => false
  end.

(** The classes whose [serialize] and [deserialize] are those of
    [PatientSerializer]. *)
Definition patient_class (cls : class) : Prop :=
  cls = PatientSerializer \/ cls = PatientJSONSerializer.

(** The dictionary [serialize] makes of an observation. *)
Definition observation_dict (o : observation) : dict :=
  [("day", VInt (day o)); ("value", VInt (value o))].

(** ** What the decoder needs to read back what the encoder wrote *)

(** A number ends where no digit, fraction or exponent can follow. *)
Definition number_end (s : list ascii) : bool :=
  match s with
  | [] => true
  | c :: _ =>
      negb (is_digit c) && negb (Ascii.eqb c ".")
      && negb (Ascii.eqb c "e") && negb (Ascii.eqb c "E")
  end.

(** The first character of a value: no white space and no closing
    bracket. *)
Definition value_start (s : list ascii) : bool :=
  match s with
  | [] => false
  | c :: _ => negb (is_ws c) && negb (Ascii.eqb c "]") && negb (Ascii.eqb c "}")
  end.

(** The number of nodes of a tree, which bounds the calls the decoder makes
    on its text. *)
Fixpoint size (j : json) : nat :=
  match j with
  | JArr xs => S (list_sum (map (fun x => S (size x)) xs))
  | JObj kvs => S (list_sum (map (fun kv => S (size (snd kv))) kvs))
  | _ => 1
  end.

(** How deep the arrays and objects of a tree nest. *)
Fixpoint nesting (j : json) : nat :=
  match j with
  | JArr xs => S (list_max (map nesting xs))
  | JObj kvs => S (list_max (map (fun kv => nesting (snd kv)) kvs))
  | _ => 0
  end.

(** The text of one member of an object. *)
Definition print_member (kv : string * json) : list ascii :=
  encode_string (fst kv) ++ lit ": " ++ print (snd kv).

(** ** The records of the spec's example *)

Definition alice : patient := Patient "Alice" [Observation 0 3; Observation 1 4].

Definition bob : patient := Patient "Bob" [Observation 0 10].

(** A word between double quotes. *)
Definition quoted (s : string) : list ascii := dq :: lit s ++ [dq].


Definition empty_world : world := World [] ∅ one_directory.

(** A patient one of whose observations holds an [Observation] instance
    where its value should be: [json.dump] cannot encode an instance. *)
Definition carol : pyval :=
  VObject models.Patient
    [("name", VStr "Carol");
     ("observations",
      VList [VObject models.Observation
               [("day", VInt 0);
                ("value", observation_obj (Observation 0 3))]])].

(** What [json.dump] has written of [[alice, carol]] when it reaches the
    instance. *)
Definition truncated_text : list ascii :=
  lit "[{" ++ quoted "name" ++ lit ": " ++ quoted "Alice" ++ lit ", "
  ++ quoted "observations" ++ lit ": [{"
  ++ quoted "day" ++ lit ": 0, " ++ quoted "value" ++ lit ": 3}, {"
  ++ quoted "day" ++ lit ": 1, " ++ quoted "value" ++ lit ": 4}]}, {"
  ++ quoted "name" ++ lit ": " ++ quoted "Carol" ++ lit ", "
  ++ quoted "observations" ++ lit ": [{"
  ++ quoted "day" ++ lit ": 0, " ++ quoted "value" ++ lit ": ".

(** A file system in which [p.json] already holds some text. *)
Definition old_world : world :=
  World [] {["p.json" := "old"]} one_directory.

(** The heap [serialize] leaves when it is given [[alice]] in the empty
    world: her two observation dictionaries, then her own. *)
Definition alice_world : world :=
  World [observation_dict (Observation 0 3);
         observation_dict (Observation 1 4);
         [("name", VStr "Alice"); ("observations", VList [VDict 0; VDict 1])]]
        ∅ one_directory.

(** ** Which exceptions a computation may raise *)

Definition raises_only {A} (P : exc -> Prop) (m : M A) : Prop :=
  forall w e w', m w = (Raise e, w') -> P e.

(** The exceptions [PatientSerializer.deserialize] lets out: it raises
    none of its own, and the operations it uses raise these three. *)
Definition deserialize_error (e : exc) : Prop :=
  e = KeyError \/ e = TypeError \/ e = AttributeError.



(** ** Records that [deserialize] does not accept *)

(** The keys of [d] are not exactly the parameters of the constructor of
    [c]: a parameter has no entry, or an entry is no parameter. *)
Definition missing_or_extra (c : models.class) (d : dict) : Prop :=
  (exists p, In p (models.params c) /\ dict_get p d = None)
  \/ (exists k, In k (dict_keys d) /\ ~ In k (models.params c)).

(** A dictionary with exactly the keys [day] and [value]. *)
Definition valid_observation_record (h : list dict) (x : pyval) : Prop :=
  exists l, x = VDict l /\ ~ missing_or_extra models.Observation (cell h l).

(** The values under [observations] that [deserialize] takes: a list of
    valid observation records, and also the two empty iterables that are
    not lists, the empty string and the empty dictionary. *)
Definition accepted_observations (h : list dict) (ov : pyval) : Prop :=
  (exists ovs, ov = VList ovs /\ Forall (valid_observation_record h) ovs)
  \/ ov = VStr ""
  \/ (exists l, ov = VDict l /\ cell h l = []).

(** A patient record without [name], without [observations], or whose
    [observations] are not accepted. *)
Definition record_error (h : list dict) (item : pyval) : Prop :=
  exists l, item = VDict l
    /\ (dict_get "name" (cell h l) = None
        \/ dict_get "observations" (cell h l) = None
        \/ exists ov, dict_get "observations" (cell h l) = Some ov
             /\ ~ accepted_observations h ov).

(** A patient record whose [observations] is an empty dictionary, as
    [json.load] builds it from [{"name": "Alice", "observations": {}}]. *)
Definition empty_mapping_world : world :=
  World [[]; [("name", VStr "Alice"); ("observations", VDict 0)]] ∅
    one_directory.

Definition empty_mapping_text : list ascii :=
  lit "[{" ++ quoted "name" ++ lit ": " ++ quoted "Alice" ++ lit ", "
  ++ quoted "observations" ++ lit ": {}}]".

(** A patient record without [observations]. *)
Definition no_observations_world : world :=
  World [[("name", VStr "Alice")]] ∅ one_directory.

(** ** Frames at the level of whole dictionaries *)

(** No file is touched, and the only dictionaries that may differ are those
    that are elements of [xs]. *)
Definition touches_only (xs : list pyval) (w w' : world) : Prop :=
  files w' = files w
  /\ forall l, ~ In (VDict l) xs -> heap w' !! l = heap w !! l.

(** Every dictionary among [xs] was made at or after location [n]. *)
Definition made_since (n : nat) (xs : list pyval) : Prop :=
  forall l, In (VDict l) xs -> n <= l.

(** The heap may only get longer: no existing dictionary changes. *)
Definition extends (w w' : world) : Prop :=
  exists new, heap w' = heap w ++ new.

(** The dictionary of a patient after [PatientSerializer.deserialize] has
    gone over it: under ["observations"] it holds the instances, no longer
    the dictionaries. *)
Definition spent_cell (h : list dict) (v : pyval) (p : patient) : Prop :=
  exists l, v = VDict l
    /\ h !! l = Some [("name", VStr (name p));
                      ("observations",
                       VList (map observation_obj (observations p)))].

Definition no_observations (p : patient) : bool :=
  match observations p with
  | [] => true
  | _ :: _ => false
  end.

(** A patient record with a key that is no parameter of [Patient]. *)
Definition unknown_field (h : list dict) (item : pyval) : Prop :=
  exists l k, item = VDict l
    /\ In k (dict_keys (cell h l))
    /\ ~ In k (models.params models.Patient).

(** The exceptions [serialize] lets out. *)
Definition serialize_error (e : exc) : Prop :=
  e = AttributeError \/ e = TypeError.

Definition is_instance (v : pyval) : bool :=
  match v with
  | VObject _ _ => true
  | _ => false
  end.

(** A patient record with a field the constructor does not take. *)
Definition aged_world : world :=
  World [[("name", VStr "Alice"); ("observations", VList []);
          ("age", VInt 30)]] ∅ one_directory.

(** The values a [for] loop can go over. *)
Definition is_iterable (v : pyval) : bool :=
  match v with
  | VList _ | VStr _ | VDict _ => true
  | _ => false
  end.

(** ** The first working version of the lesson

    Before [ObservationSerializer] exists, the lesson writes
    [PatientSerializer] without a base class: [serialize] puts
    [instance.observations] into the dictionary as it is, [deserialize] is
    one comprehension over [cls.model], and [PatientJSONSerializer] is the
    class of the final version. *)

Module draft.
Inductive class : Type := PatientSerializer | PatientJSONSerializer.

Definition defines (c : class) (a : attr) : bool :=
  match c, a with
  | PatientSerializer, (a_model | a_serialize | a_deserialize) => true
  | PatientJSONSerializer, (a_save | a_load) => true
  | _, _ => false
  end.

Definition mro (c : class) : list class :=
  match c with
  | PatientSerializer => [PatientSerializer]
  | PatientJSONSerializer => [PatientJSONSerializer; PatientSerializer]
  end.

Definition resolve (cls : class) (a : attr) : option class :=
  List.find (fun c => defines c a) (mro cls).

Definition model (cls : class) : M models.class :=
  match resolve cls a_model with
  | Some PatientSerializer => ret models.Patient
  | _ => raise AttributeError
  end.

Definition patient_record (instance : pyval) : M pyval :=
  n <~ getattr instance "name" ;;
  obs <~ getattr instance "observations" ;;
  new_dict [("name", n); ("observations", obs)].

Definition PatientSerializer_serialize (cls : class) (instances : pyval)
  : M pyval :=
  xs <~ iterate instances ;;
  ds <~ for_each patient_record xs ;;
  ret (VList ds).

Definition build (cls : class) (d : pyval) : M pyval :=
  m <~ model cls ;;
  kwargs <~ unpack d ;;
  call m kwargs.

Definition PatientSerializer_deserialize (cls : class) (data : pyval)
  : M pyval :=
  xs <~ iterate data ;;
  ps <~ for_each (build cls) xs ;;
  ret (VList ps).

Definition serialize (cls : class) (instances : pyval) : M pyval :=
  match resolve cls a_serialize with
  | Some PatientSerializer => PatientSerializer_serialize cls instances
  | _ => raise AttributeError
  end.

Definition deserialize (cls : class) (data : pyval) : M pyval :=
  match resolve cls a_deserialize with
  | Some PatientSerializer => PatientSerializer_deserialize cls data
  | _ => raise AttributeError
  end.

Definition PatientJSONSerializer_save (cls : class) (instances : pyval)
  (path : string) : M pyval :=
  jsonfile <~ open_w path ;;
  data <~ serialize cls instances ;;
  json_dump data jsonfile ;;;
  ret VNone.

Definition PatientJSONSerializer_load (cls : class) (path : string)
  : M pyval :=
  data <~ json_load path ;;
  deserialize cls data.

(** Neither class has a base that could supply a missing method. *)
Definition save (cls : class) (instances : pyval) (path : string) : M pyval :=
  match resolve cls a_save with
  | Some PatientJSONSerializer => PatientJSONSerializer_save cls instances path
  | _ => raise AttributeError
  end.

Definition load (cls : class) (path : string) : M pyval :=
  match resolve cls a_load with
  | Some PatientJSONSerializer => PatientJSONSerializer_load cls path
  | _ => raise AttributeError
  end.
End draft.

(** An instance of [Patient] with any two values as its name and its
    observations, and the dictionary the first version makes of it. *)
Definition patient_instance (f : pyval * pyval) : pyval :=
  VObject models.Patient [("name", fst f); ("observations", snd f)].

Definition patient_fields (f : pyval * pyval) : dict :=
  [("name", fst f); ("observations", snd f)].

(** What the first version loads for a patient: an instance whose
    observations are still the dictionaries of the document. *)
Definition half_built (h : list dict) (v : pyval) (p : patient) : Prop :=
  exists ovs,
    v = VObject models.Patient
          [("name", VStr (name p)); ("observations", VList ovs)]
    /\ Forall2 (observation_cell h) ovs (observations p).

(** ** The test of the lesson, [tests/test_serializers.py] *)

Module test_serializers.
(** [a == b] on the values the test compares: names, days and values.
    Numbers and booleans compare by value, values of different types are
    unequal, [nan] is equal to nothing, itself included, and an infinity
    to itself only.  The comparison of lists, dictionaries and instances
    is not covered. *)
Definition py_eq (a b : pyval) : result bool :=
  match a, b with
  | (VList _ | VDict _ | VObject _ _), _ => Raise Unsupported
  | _, (VList _ | VDict _ | VObject _ _) => Raise Unsupported
  | VFloat Infinity, VFloat Infinity => Ok true
  | VFloat NegInfinity, VFloat NegInfinity => Ok true
  | VNone, VNone => Ok true
  | VStr s, VStr t => Ok (String.eqb s t)
  | VInt x, VInt y => Ok (Z.eqb x y)
  | VBool x, VBool y => Ok (Bool.eqb x y)
  | VInt x, VBool y => Ok (Z.eqb x (Z.b2z y))
  | VBool x, VInt y => Ok (Z.eqb (Z.b2z x) y)
  | _, _ => Ok false
  end.

(** [zip(a, b)]: pairs up to the end of the shorter of the two. *)
Definition zip (a b : pyval) : M (list (pyval * pyval)) :=
  xs <~ iterate a ;;
  ys <~ iterate b ;;
  ret (combine xs ys).

(** A block of assertions has the value [true] when all of them held and
    [false] when one failed: a failed [assert] ends the test, so nothing
    after it runs. *)
Fixpoint for_all {A} (body : A -> M bool) (xs : list A) : M bool :=
  match xs with
  | [] => ret true
  | x :: xs' => ok <~ body x ;; if ok then for_all body xs' else ret false
  end.

(** The body of the inner loop. *)
Definition check_observation (pair : pyval * pyval) : M bool :=
  let (obs_new, obs) := pair in
  d' <~ getattr obs_new "day" ;;
  d <~ getattr obs "day" ;;
  ok <~ lift (py_eq d' d) ;;
  if ok then
    v' <~ getattr obs_new "value" ;;
    v <~ getattr obs "value" ;;
    lift (py_eq v' v)
  else ret false.

(** The body of the outer loop. *)
Definition check_patient (pair : pyval * pyval) : M bool :=
  let (patient_new, patient) := pair in
  n' <~ getattr patient_new "name" ;;
  n <~ getattr patient "name" ;;
  ok <~ lift (py_eq n' n) ;;
  if ok then
    o' <~ getattr patient_new "observations" ;;
    o <~ getattr patient "observations" ;;
    pairs <~ zip o' o ;;
    for_all check_observation pairs
  else ret false.

(** "Check that we've got the same data back". *)
Definition check (patients_new patients : pyval) : M bool :=
  pairs <~ zip patients_new patients ;;
  for_all check_patient pairs.

(** "Save and reload the data", then the check, for the [save] and [load]
    of the serializer under test. *)
Definition save_load_check (save : pyval -> string -> M pyval)
  (load : string -> M pyval) (patients : pyval) : M bool :=
  let output_file := "patients.json" in
  save patients output_file ;;;
  patients_new <~ load output_file ;;
  check patients_new patients.

(** How [pytest] reports a test. *)
Inductive outcome : Type :=
| passed
| failed_assertion
| failed_with (e : exc).

Definition report (t : M bool) (w : world) : outcome :=
  match fst (t w) with
  | Ok true => passed
  | Ok false => failed_assertion
  | Raise e => failed_with e
  end.

(** "Create some test data". *)
Definition patients : list patient :=
  [Patient "Alice" (map (fun i => Observation i (i + 1)) [0; 1; 2]%Z);
   Patient "Bob" (map (fun i => Observation i (2 * i)) [0; 1; 2]%Z)].

(** The test against the final [serializers] module, and against its
    first version. *)
Definition test_patients_json_serializer (w : world) : outcome :=
  report (save_load_check (save PatientJSONSerializer)
            (load PatientJSONSerializer)
            (VList (map patient_obj patients))) w.

Definition test_patients_json_serializer_draft (w : world) : outcome :=
  report (save_load_check (draft.save draft.PatientJSONSerializer)
            (draft.load draft.PatientJSONSerializer)
            (VList (map patient_obj patients))) w.
End test_serializers.

(** The first [m] observations of a patient. *)
Definition truncate (m : nat) (p : patient) : patient :=
  Patient (name p) (take m (observations p)).

(** The name and the observations of a patient, as the values the instance
    holds. *)
Definition fields_of (p : patient) : pyval * pyval :=
  (VStr (name p), VList (map observation_obj (observations p))).

(** A file system in which [p.json] holds the document of the spec's
    example. *)
Definition example_world : world :=
  World [] {["p.json" := string_of_list_ascii (print (document [alice; bob]))]}
    one_directory.

(** [p'] has the name of [p] and the first observations of [p], maybe not
    all of them. *)
Definition agrees (p' p : patient) : Prop :=
  name p' = name p /\ exists rest, observations p = observations p' ++ rest.

(** What the test compares, on records: the day and the value of two
    observations, the name of two patients and their observations pair by
    pair. *)
Definition same_observation (pair : observation * observation) : bool :=
  Z.eqb (day (fst pair)) (day (snd pair))
  && Z.eqb (value (fst pair)) (value (snd pair)).

Definition same_patient (pair : patient * patient) : bool :=
  String.eqb (name (fst pair)) (name (snd pair))
  && forallb same_observation
       (combine (observations (fst pair)) (observations (snd pair))).

(** ** Dictionaries that hold a record with their keys in any order *)

Definition only_keys (ks : list string) (d : dict) : Prop :=
  forall k, In k (dict_keys d) -> In k ks.

Definition observation_mapping (h : list dict) (v : pyval) (o : observation)
  : Prop :=
  exists l, v = VDict l
    /\ dict_get "day" (cell h l) = Some (VInt (day o))
    /\ dict_get "value" (cell h l) = Some (VInt (value o))
    /\ only_keys (models.params models.Observation) (cell h l).

Definition patient_mapping (h : list dict) (v : pyval) (p : patient) : Prop :=
  exists l ovs, v = VDict l
    /\ dict_get "name" (cell h l) = Some (VStr (name p))
    /\ dict_get "observations" (cell h l) = Some (VList ovs)
    /\ only_keys (models.params models.Patient) (cell h l)
    /\ Forall2 (observation_mapping h) ovs (observations p).

(** Alice with one observation, each dictionary with its keys the other
    way round. *)
Definition reversed_world : world :=
  World [[("value", VInt 3); ("day", VInt 0)];
         [("observations", VList [VDict 0]); ("name", VStr "Alice")]] ∅
    one_directory.

(** The text of that record with the members of both objects the other way
    round. *)
Definition reversed_text : list ascii :=
  lit "[{" ++ quoted "observations" ++ lit ": [{"
  ++ quoted "value" ++ lit ": 3, " ++ quoted "day" ++ lit ": 0}], "
  ++ quoted "name" ++ lit ": " ++ quoted "Alice" ++ lit "}]".

(** The example document of the lesson as the lesson prints it, one member
    per line and indented by four spaces. *)
Definition indented (n : nat) (s : list ascii) : list ascii :=
  repeat " "%char (4 * n) ++ s ++ ["010"%char].

Definition lesson_text : list ascii :=
  indented 0 (lit "[")
  ++ indented 1 (lit "{")
  ++ indented 2 (quoted "name" ++ lit ": " ++ quoted "Alice" ++ lit ",")
  ++ indented 2 (quoted "observations" ++ lit ": [")
  ++ indented 3 (lit "{")
  ++ indented 4 (quoted "day" ++ lit ": 0,")
  ++ indented 4 (quoted "value" ++ lit ": 3")
  ++ indented 3 (lit "},")
  ++ indented 3 (lit "{")
  ++ indented 4 (quoted "day" ++ lit ": 1,")
  ++ indented 4 (quoted "value" ++ lit ": 4")
  ++ indented 3 (lit "}")
  ++ indented 2 (lit "]")
  ++ indented 1 (lit "},")
  ++ indented 1 (lit "{")
  ++ indented 2 (quoted "name" ++ lit ": " ++ quoted "Bob" ++ lit ",")
  ++ indented 2 (quoted "observations" ++ lit ": [")
  ++ indented 3 (lit "{")
  ++ indented 4 (quoted "day" ++ lit ": 0,")
  ++ indented 4 (quoted "value" ++ lit ": 10")
  ++ indented 3 (lit "}")
  ++ indented 2 (lit "]")
  ++ indented 1 (lit "}")
  ++ indented 0 (lit "]").

(** No directory and no link is made or removed: every path leads where it
    led before. *)
Definition same_paths (w w' : world) : Prop := locate w' = locate w.

(** ** A value that is not a number *)

(** Alice with one observation whose value is [float('nan')]. *)
Definition nan_observation : pyval :=
  VObject models.Observation [("day", VInt 0); ("value", VFloat NaN)].

Definition nan_patient : pyval :=
  VObject models.Patient
    [("name", VStr "Alice"); ("observations", VList [nan_observation])].



(** An instance of [Observation]. *)
Definition is_observation (v : pyval) : Prop :=
  exists attrs, v = VObject models.Observation attrs.

(** The dictionary at [l] holds a list of [Observation] instances under
    [observations]. *)
Definition holds_instances (w : world) (l : loc) : Prop :=
  exists objs,
    entry w l "observations" = Some (VList objs) /\ Forall is_observation objs.

(** A patient record whose [observations] is the empty string. *)
Definition empty_string_world : world :=
  World [[("name", VStr "Alice"); ("observations", VStr "")]] ∅
    one_directory.

(** A text of 1001 opening brackets. *)
Definition deep_text : list ascii := repeat "["%char 1001.


(** A file system in which [p.json] holds 1001 opening brackets. *)
Definition deep_world : world :=
  World [] {["p.json" := string_of_list_ascii deep_text]} one_directory.

(** * Properties *)

(** ** The monad *)

Lemma bind_ok {A B} (m : M A) (k : A -> M B) w a w' :
  m w = (Ok a, w') -> bind m k w = k a w'.
Proof. intros E. unfold bind. now rewrite E. Qed.

Lemma bind_raise {A B} (m : M A) (k : A -> M B) w e w' :
  m w = (Raise e, w') -> bind m k w = (Raise e, w').
Proof. intros E. unfold bind. now rewrite E. Qed.

Lemma bind_inv {A B} (m : M A) (k : A -> M B) w r w2 :
  bind m k w = (r, w2) ->
  (exists e, m w = (Raise e, w2) /\ r = Raise e)
  \/ (exists a w1, m w = (Ok a, w1) /\ k a w1 = (r, w2)).
Proof.
  unfold bind. destruct (m w) as [[a|e] w1]; intros E.
  - right. eauto.
  - left. exists e. now inversion E.
Qed.

Section Preserves.
Variable R : world -> world -> Prop.
Hypothesis R_refl : forall w, R w w.
Hypothesis R_trans : forall w1 w2 w3, R w1 w2 -> R w2 w3 -> R w1 w3.

Lemma preserves_ret {A} (a : A) : preserves R (ret a).
Proof. intros w. apply R_refl. Qed.

Lemma preserves_raise {A} e : preserves R (@raise A e).
Proof. intros w. apply R_refl. Qed.

Lemma preserves_lift {A} (r : result A) : preserves R (lift r).
Proof. destruct r; [apply preserves_ret | apply preserves_raise]. Qed.

Lemma preserves_bind {A B} (m : M A) (k : A -> M B) :
  preserves R m -> (forall a, preserves R (k a)) -> preserves R (bind m k).
Proof.
  intros Hm Hk w. unfold bind. specialize (Hm w).
  destruct (m w) as [[a|e] w1]; simpl in *; [|assumption].
  eapply R_trans; [eassumption | apply Hk].
Qed.

Lemma preserves_bind_ok {A B} (m : M A) (k : A -> M B) :
  preserves R m ->
  (forall a w w', m w = (Ok a, w') -> preserves R (k a)) ->
  preserves R (bind m k).
Proof.
  intros Hm Hk w. unfold bind. specialize (Hm w).
  destruct (m w) as [[a|e] w1] eqn:E; simpl in *; [|assumption].
  eapply R_trans; [eassumption | eapply Hk; eassumption].
Qed.

Lemma preserves_for_each {A B} (f : A -> M B) xs :
  (forall x, In x xs -> preserves R (f x)) -> preserves R (for_each f xs).
Proof.
  induction xs as [|x xs IH]; intros Hf; simpl.
  - apply preserves_ret.
  - apply preserves_bind; [apply Hf; now left|]. intros a.
    apply preserves_bind; [apply IH; intros; apply Hf; now right|].
    intros r. apply preserves_ret.
Qed.

Lemma preserves_read_dict l : preserves R (read_dict l).
Proof. intros w. apply R_refl. Qed.

Lemma preserves_getattr v a : preserves R (getattr v a).
Proof.
  destruct v; simpl; try apply preserves_raise.
  destruct (dict_get a attrs); [apply preserves_ret | apply preserves_raise].
Qed.

Lemma preserves_iterate v : preserves R (iterate v).
Proof.
  destruct v; simpl; try apply preserves_raise; try apply preserves_ret.
  apply preserves_bind; [apply preserves_read_dict|].
  intros d. apply preserves_ret.
Qed.

Lemma preserves_unpack v : preserves R (unpack v).
Proof.
  destruct v; simpl; try apply preserves_raise. apply preserves_read_dict.
Qed.

Lemma preserves_model cls : preserves R (model cls).
Proof.
  unfold model. destruct (resolve cls a_model) as [[]|];
    try apply preserves_raise; apply preserves_ret.
Qed.

Lemma preserves_call c kwargs : preserves R (call c kwargs).
Proof.
  apply preserves_bind; [apply preserves_lift|]. intros a.
  apply preserves_ret.
Qed.

Lemma preserves_build cls d : preserves R (build cls d).
Proof.
  apply preserves_bind; [apply preserves_model|]. intros m.
  apply preserves_bind; [apply preserves_unpack|]. intros kw.
  apply preserves_call.
Qed.

Lemma preserves_ObservationSerializer_deserialize cls data :
  preserves R (ObservationSerializer_deserialize cls data).
Proof.
  apply preserves_bind; [apply preserves_iterate|]. intros xs.
  apply preserves_bind; [|intros; apply preserves_ret].
  apply preserves_for_each. intros d _. apply preserves_build.
Qed.
End Preserves.

(** ** Dictionaries *)

Lemma dict_get_pop_ne k k0 d x d' :
  dict_pop k0 d = Some (x, d') -> k <> k0 -> dict_get k d' = dict_get k d.
Proof.
  revert x d'. induction d as [|[k1 v1] d IH]; intros x d' E Hne; simpl in *.
  - discriminate.
  - destruct (String.eqb_spec k0 k1) as [->|Hk].
    + inversion E; subst. destruct (String.eqb_spec k k1); congruence.
    + destruct (dict_pop k0 d) as [[x1 r]|]; [|discriminate].
      inversion E; subst. simpl.
      destruct (String.eqb k k1); [reflexivity | eauto].
Qed.

Lemma dict_get_set_ne k k0 x d :
  k <> k0 -> dict_get k (dict_set k0 x d) = dict_get k d.
Proof.
  intros Hne. induction d as [|[k1 v1] d IH]; simpl.
  - destruct (String.eqb_spec k k0); congruence.
  - destruct (String.eqb_spec k0 k1) as [->|Hk]; simpl.
    + destruct (String.eqb_spec k k1); congruence.
    + destruct (String.eqb k k1); [reflexivity | assumption].
Qed.

Lemma dict_get_set_eq k x d : dict_get k (dict_set k x d) = Some x.
Proof.
  induction d as [|[k1 v1] d IH]; simpl.
  - now rewrite String.eqb_refl.
  - destruct (String.eqb_spec k k1) as [->|Hk]; simpl.
    + now rewrite String.eqb_refl.
    + destruct (String.eqb_spec k k1); congruence.
Qed.

Lemma dict_pop_get k d x d' : dict_pop k d = Some (x, d') -> dict_get k d = Some x.
Proof.
  revert x d'. induction d as [|[k1 v1] d IH]; intros x d' E; simpl in *.
  - discriminate.
  - destruct (String.eqb k k1); [now inversion E|].
    destruct (dict_pop k d) as [[x1 r]|]; [|discriminate].
    inversion E; subst. eauto.
Qed.

(** ** Frames *)

Lemma grows_refl w : grows w w.
Proof. split; [reflexivity | exists []; now rewrite app_nil_r]. Qed.

Lemma grows_trans w1 w2 w3 : grows w1 w2 -> grows w2 w3 -> grows w1 w3.
Proof.
  intros [F1 [n1 H1]] [F2 [n2 H2]]. split; [congruence|].
  exists (n1 ++ n2). rewrite H2, H1. now rewrite app_assoc.
Qed.

Lemma preserves_new_dict d : preserves grows (new_dict d).
Proof. intros w. split; [reflexivity | now exists [d]]. Qed.

Lemma grows_ObservationSerializer_serialize cls instances :
  preserves grows (ObservationSerializer_serialize cls instances).
Proof.
  pose proof grows_refl as Hr. pose proof grows_trans as Ht.
  apply preserves_bind; auto using preserves_iterate. intros xs.
  apply preserves_bind; auto using preserves_ret.
  apply preserves_for_each; auto. intros x _.
  apply preserves_bind; auto using preserves_getattr. intros d.
  apply preserves_bind; auto using preserves_getattr. intros v.
  apply preserves_new_dict.
Qed.

Lemma grows_PatientSerializer_serialize cls instances :
  preserves grows (PatientSerializer_serialize cls instances).
Proof.
  pose proof grows_refl as Hr. pose proof grows_trans as Ht.
  apply preserves_bind; auto using preserves_iterate. intros xs.
  apply preserves_bind; auto using preserves_ret.
  apply preserves_for_each; auto. intros x _.
  apply preserves_bind; auto using preserves_getattr. intros n.
  apply preserves_bind; auto using preserves_getattr. intros obs.
  apply preserves_bind; auto using grows_ObservationSerializer_serialize.
  intros o. apply preserves_new_dict.
Qed.

Lemma grows_serialize cls instances : preserves grows (serialize cls instances).
Proof.
  destruct cls; unfold serialize; simpl.
  - apply preserves_raise, grows_refl.
  - apply grows_ObservationSerializer_serialize.
  - apply grows_PatientSerializer_serialize.
  - apply grows_PatientSerializer_serialize.
Qed.

Lemma rewrites_observations_refl xs w : rewrites_observations xs w w.
Proof. repeat split; auto. Qed.

Lemma rewrites_observations_trans xs w1 w2 w3 :
  rewrites_observations xs w1 w2 -> rewrites_observations xs w2 w3 ->
  rewrites_observations xs w1 w3.
Proof.
  intros (F1 & L1 & E1) (F2 & L2 & E2). repeat split; try congruence.
  intros l k H. rewrite E2, E1; auto.
Qed.

Lemma cell_insert_ne h l l' d : l <> l' -> cell (<[l := d]> h) l' = cell h l'.
Proof. intros Hne. unfold cell. now rewrite list_lookup_insert_ne. Qed.

Lemma cell_insert_eq h l d : l < length h -> cell (<[l := d]> h) l = d.
Proof. intros Hlt. unfold cell. now rewrite list_lookup_insert_eq. Qed.

Lemma cell_nonempty h l : cell h l <> [] -> l < length h.
Proof.
  unfold cell. intros H. destruct (h !! l) eqn:E; [|now contradiction H].
  eapply lookup_lt_Some; eassumption.
Qed.

Lemma entry_insert_ne w l l' d k :
  l <> l' -> entry (set_heap (<[l := d]> (heap w)) w) l' k = entry w l' k.
Proof. intros Hne. unfold entry. simpl. now rewrite cell_insert_ne. Qed.

Lemma entry_insert_eq w l d' k :
  dict_get k d' = dict_get k (cell (heap w) l) ->
  entry (set_heap (<[l := d']> (heap w)) w) l k = entry w l k.
Proof.
  intros Hk. unfold entry. simpl.
  destruct (Nat.lt_ge_cases l (length (heap w))) as [Hlt|Hge].
  - now rewrite cell_insert_eq.
  - now rewrite list_insert_ge.
Qed.

Lemma rewrites_pop xs item :
  In item xs -> preserves (rewrites_observations xs) (pop item "observations").
Proof.
  intros Hin w. destruct item; simpl; try apply rewrites_observations_refl.
  unfold bind, read_dict.
  destruct (dict_pop "observations" (cell (heap w) l)) as [[x d']|] eqn:Hp;
    simpl; [|apply rewrites_observations_refl].
  repeat split; simpl; [apply length_insert|].
  intros l' k H. destruct (Nat.eq_dec l l') as [<-|Hne].
  - destruct H as [H|H]; [|tauto].
    eapply entry_insert_eq; eauto using dict_get_pop_ne.
  - now apply entry_insert_ne.
Qed.

Lemma rewrites_setitem xs item x :
  In item xs ->
  preserves (rewrites_observations xs) (setitem item "observations" x).
Proof.
  intros Hin w. destruct item; simpl; try apply rewrites_observations_refl.
  unfold bind, read_dict. simpl.
  repeat split; simpl; [apply length_insert|].
  intros l' k H. destruct (Nat.eq_dec l l') as [<-|Hne].
  - destruct H as [H|H]; [|tauto].
    eapply entry_insert_eq; eauto using dict_get_set_ne.
  - now apply entry_insert_ne.
Qed.

Lemma rewrites_deserialize_item xs cls item :
  In item xs -> preserves (rewrites_observations xs) (deserialize_item cls item).
Proof.
  intros Hin.
  pose proof (rewrites_observations_refl xs) as Hr.
  pose proof (rewrites_observations_trans xs) as Ht.
  apply preserves_bind; auto using rewrites_pop. intros popped.
  apply preserves_bind;
    auto using preserves_ObservationSerializer_deserialize. intros obs.
  apply preserves_bind; auto using rewrites_setitem. intros _.
  now apply preserves_build.
Qed.

Lemma deserialize_item_not_dict cls item w :
  is_dict item = false -> snd (deserialize_item cls item w) = w.
Proof. destruct item; simpl; intros H; try reflexivity; discriminate. Qed.

Lemma rewrites_for_each_strings xs cls ss :
  preserves (rewrites_observations xs)
    (for_each (deserialize_item cls) (map VStr ss)).
Proof.
  apply (preserves_for_each _ (rewrites_observations_refl xs)
           (rewrites_observations_trans xs)).
  intros x Hx w. apply in_map_iff in Hx as (s & <- & _).
  rewrite deserialize_item_not_dict by reflexivity.
  apply rewrites_observations_refl.
Qed.

Lemma iterate_inv data w xs w' :
  iterate data w = (Ok xs, w') ->
  xs = elements data \/ exists ss, xs = map VStr ss.
Proof.
  destruct data; simpl; intros E; try discriminate.
  - right. inversion E. unfold chars.
    exists (map (fun c => String c EmptyString) (list_ascii_of_string s)).
    now rewrite map_map.
  - left. now inversion E.
  - right. apply bind_inv in E as [(e & _ & ?)|(d & w1 & _ & E)];
      [discriminate|].
    inversion E. eauto.
Qed.

Lemma rewrites_PatientSerializer_deserialize cls data :
  preserves (rewrites_observations (elements data))
    (PatientSerializer_deserialize cls data).
Proof.
  pose proof (rewrites_observations_refl (elements data)) as Hr.
  pose proof (rewrites_observations_trans (elements data)) as Ht.
  apply preserves_bind_ok; auto using preserves_iterate.
  intros xs w w' E.
  apply preserves_bind; auto using preserves_ret.
  apply iterate_inv in E as [->|[ss ->]].
  - apply preserves_for_each; auto using rewrites_deserialize_item.
  - apply rewrites_for_each_strings.
Qed.

Lemma rewrites_deserialize cls data :
  preserves (rewrites_observations (elements data)) (deserialize cls data).
Proof.
  destruct cls; unfold deserialize; simpl.
  - apply preserves_raise, rewrites_observations_refl.
  - apply preserves_ObservationSerializer_deserialize;
      auto using rewrites_observations_refl.
    apply rewrites_observations_trans.
  - apply rewrites_PatientSerializer_deserialize.
  - apply rewrites_PatientSerializer_deserialize.
Qed.

Lemma ObservationSerializer_deserialize_world cls data w :
  snd (ObservationSerializer_deserialize cls data w) = w.
Proof.
  symmetry.
  apply (preserves_ObservationSerializer_deserialize eq); congruence.
Qed.

(** ** Deserializing dictionaries that hold well-typed records *)

Lemma read_dict_ok w l d : heap w !! l = Some d -> read_dict l w = (Ok d, w).
Proof. intros H. unfold read_dict, cell. now rewrite H. Qed.

Lemma build_observation_cell w v o :
  observation_cell (heap w) v o ->
  build ObservationSerializer v w = (Ok (observation_obj o), w).
Proof.
  intros (l & -> & Hl). unfold build.
  erewrite bind_ok by reflexivity.
  erewrite bind_ok by (apply read_dict_ok; eassumption).
  reflexivity.
Qed.

Lemma for_each_build_cells w ovs os :
  Forall2 (observation_cell (heap w)) ovs os ->
  for_each (build ObservationSerializer) ovs w
  = (Ok (map observation_obj os), w).
Proof.
  induction 1 as [|v o ovs os Hv _ IH]; simpl; [reflexivity|].
  erewrite bind_ok by (apply build_observation_cell; eassumption).
  erewrite bind_ok by eassumption. reflexivity.
Qed.

Lemma ObservationSerializer_deserialize_cells w ovs os :
  Forall2 (observation_cell (heap w)) ovs os ->
  ObservationSerializer_deserialize ObservationSerializer (VList ovs) w
  = (Ok (VList (map observation_obj os)), w).
Proof.
  intros H. unfold ObservationSerializer_deserialize. simpl iterate.
  erewrite bind_ok by reflexivity.
  erewrite bind_ok by (apply for_each_build_cells; eassumption).
  reflexivity.
Qed.

Lemma observation_cell_insert h l d v o :
  observation_cell h v o -> v <> VDict l ->
  observation_cell (<[l := d]> h) v o.
Proof.
  intros (lo & -> & Hl) Hne. exists lo. split; [reflexivity|].
  rewrite list_lookup_insert_ne; [assumption | congruence].
Qed.

Lemma patient_cell_not_observation h v p o :
  patient_cell h v p -> observation_cell h v o -> False.
Proof.
  intros (l & ovs & -> & Hl & _) (l' & E & Hl'). inversion E; subst l'.
  rewrite Hl in Hl'. discriminate.
Qed.

Lemma observation_cells_insert h l d p ovs os :
  patient_cell h (VDict l) p ->
  Forall2 (observation_cell h) ovs os ->
  Forall2 (observation_cell (<[l := d]> h)) ovs os.
Proof.
  intros Hp. induction 1 as [|v o ovs os Hv _ IH]; constructor; [|assumption].
  apply observation_cell_insert; [assumption|].
  intros ->. eapply patient_cell_not_observation; eassumption.
Qed.

Lemma patient_cell_insert h l d p v p' :
  patient_cell h (VDict l) p -> patient_cell h v p' -> v <> VDict l ->
  patient_cell (<[l := d]> h) v p'.
Proof.
  intros Hp (l' & ovs & -> & Hl' & Hos) Hne. exists l', ovs.
  split; [reflexivity|]. split.
  - rewrite list_lookup_insert_ne; [assumption | congruence].
  - eapply observation_cells_insert; eassumption.
Qed.

Lemma deserialize_item_cell cls w l p :
  patient_class cls ->
  patient_cell (heap w) (VDict l) p ->
  deserialize_item cls (VDict l) w
  = (Ok (patient_obj p),
     set_heap (<[l := [("name", VStr (name p));
                       ("observations",
                        VList (map observation_obj (observations p)))]]>
                 (heap w)) w).
Proof.
  intros Hcls Hp. pose proof Hp as (l' & ovs & E & Hl & Hos).
  inversion E; subst l'; clear E.
  assert (Hlt : l < length (heap w)) by (eapply lookup_lt_Some; eassumption).
  unfold deserialize_item.
  erewrite bind_ok; cycle 1.
  { unfold pop. erewrite bind_ok by (apply read_dict_ok; eassumption).
    simpl. reflexivity. }
  erewrite bind_ok; cycle 1.
  { apply ObservationSerializer_deserialize_cells. simpl.
    eapply observation_cells_insert; eassumption. }
  erewrite bind_ok; cycle 1.
  { unfold setitem. erewrite bind_ok; cycle 1.
    { apply read_dict_ok. simpl. now apply list_lookup_insert_eq. }
    simpl. unfold write_dict, set_heap. simpl.
    rewrite list_insert_insert_eq. reflexivity. }
  unfold build. replace (model cls) with (@ret models.class models.Patient)
    by (destruct Hcls; subst; reflexivity).
  erewrite bind_ok by reflexivity.
  erewrite bind_ok; cycle 1.
  { unfold unpack. apply read_dict_ok. simpl.
    now apply list_lookup_insert_eq. }
  reflexivity.
Qed.

Lemma for_each_deserialize_cells cls refs ps :
  patient_class cls ->
  forall w,
  Forall2 (patient_cell (heap w)) refs ps -> NoDup refs ->
  exists w',
    for_each (deserialize_item cls) refs w = (Ok (map patient_obj ps), w')
    /\ files w' = files w.
Proof.
  intros Hcls w H. revert w H.
  induction refs as [|v refs IH] in ps |- *; intros w H Hnd;
    inversion H as [|? p ? ps' Hv Hrest]; subst; simpl.
  - eauto.
  - pose proof Hv as (l & ovs & -> & _).
    apply NoDup_cons in Hnd as [Hni Hnd].
    destruct (IH ps'
      (set_heap (<[l := [("name", VStr (name p));
                         ("observations",
                          VList (map observation_obj (observations p)))]]>
                   (heap w)) w)) as (w' & E & F); [|assumption|].
    + simpl. clear IH H. induction Hrest as [|v' p' ? ? Hv' _ IH'];
        constructor.
      * eapply patient_cell_insert; [eassumption..|].
        intros ->. apply Hni. now left.
      * apply IH'. intros Hin. apply Hni. now right.
        now apply NoDup_cons in Hnd as [_ ?].
    + exists w'. split; [|exact F].
      erewrite bind_ok by (apply deserialize_item_cell; eassumption).
      erewrite bind_ok by eassumption. reflexivity.
Qed.

(** ** Serializing well-typed records *)

Lemma for_each_observation_record os w :
  for_each observation_record (map observation_obj os) w
  = (Ok (map VDict (seq (length (heap w)) (length os))),
     set_heap (heap w ++ map observation_dict os) w).
Proof.
  revert w. induction os as [|o os IH]; intros w; simpl.
  - unfold ret, set_heap. rewrite app_nil_r. now destruct w.
  - erewrite bind_ok by reflexivity.
    erewrite bind_ok by apply IH.
    unfold ret, set_heap. simpl. rewrite length_app. simpl.
    rewrite Nat.add_1_r, <- app_assoc. reflexivity.
Qed.

Lemma observation_cells_alloc h os rest :
  Forall2 (observation_cell (h ++ map observation_dict os ++ rest))
    (map VDict (seq (length h) (length os))) os.
Proof.
  revert h. induction os as [|o os IH]; intros h; simpl; constructor.
  - exists (length h). split; [reflexivity|]. apply list_lookup_middle.
    reflexivity.
  - specialize (IH (h ++ [observation_dict o])).
    rewrite <- app_assoc, length_app, Nat.add_1_r in IH. exact IH.
Qed.

Lemma patient_record_obj p w :
  patient_record (patient_obj p) w
  = (Ok (VDict (length (heap w) + length (observations p))),
     set_heap
       (heap w ++ map observation_dict (observations p)
        ++ [[("name", VStr (name p));
             ("observations",
              VList (map VDict (seq (length (heap w))
                                  (length (observations p)))))]]) w).
Proof.
  unfold patient_record.
  erewrite bind_ok by reflexivity. erewrite bind_ok by reflexivity.
  erewrite bind_ok; cycle 1.
  { unfold ObservationSerializer_serialize. simpl iterate.
    erewrite bind_ok by reflexivity.
    erewrite bind_ok by apply for_each_observation_record. reflexivity. }
  unfold new_dict, set_heap. simpl.
  rewrite length_app, length_map, <- app_assoc. reflexivity.
Qed.

Lemma patient_cell_alloc h p :
  patient_cell
    (h ++ map observation_dict (observations p)
     ++ [[("name", VStr (name p));
          ("observations",
           VList (map VDict (seq (length h) (length (observations p)))))]])
    (VDict (length h + length (observations p))) p.
Proof.
  eexists _, _. split; [reflexivity|]. split.
  - rewrite app_assoc. apply list_lookup_middle.
    now rewrite length_app, length_map.
  - apply observation_cells_alloc.
Qed.

Lemma observation_cell_app h new v o :
  observation_cell h v o -> observation_cell (h ++ new) v o.
Proof.
  intros (l & -> & Hl). exists l. split; [reflexivity|].
  now apply lookup_app_l_Some.
Qed.

Lemma patient_cell_app h new v p :
  patient_cell h v p -> patient_cell (h ++ new) v p.
Proof.
  intros (l & ovs & -> & Hl & Hos). exists l, ovs.
  split; [reflexivity|]. split; [now apply lookup_app_l_Some|].
  eapply Forall2_impl; [exact Hos|]. intros. now apply observation_cell_app.
Qed.

Lemma for_each_patient_record ps :
  forall w, exists refs w',
    for_each patient_record (map patient_obj ps) w = (Ok refs, w')
    /\ grows w w'
    /\ Forall2 (patient_cell (heap w')) refs ps
    /\ Forall (fun v => exists l, v = VDict l /\ length (heap w) <= l) refs
    /\ NoDup refs.
Proof.
  induction ps as [|p ps IH]; intros w; simpl.
  - exists [], w. split; [reflexivity|]. split; [apply grows_refl|].
    split; [constructor|]. split; constructor.
  - pose proof (patient_record_obj p w) as E1.
    remember (set_heap _ w) as w1 eqn:Hw1 in E1.
    assert (Hh : heap w1
                 = heap w ++ map observation_dict (observations p)
                   ++ [[("name", VStr (name p));
                        ("observations",
                         VList (map VDict (seq (length (heap w))
                                             (length (observations p)))))]])
      by now subst w1.
    assert (Hf : files w1 = files w) by now subst w1.
    assert (Hlen : length (heap w1)
                   = S (length (heap w) + length (observations p))).
    { rewrite Hh, !length_app, length_map. simpl. lia. }
    clear Hw1.
    destruct (IH w1) as (refs & w' & E2 & [F [new Hnew]] & Hc & Hge & Hnd).
    exists (VDict (length (heap w) + length (observations p)) :: refs), w'.
    split; [|split; [|split; [|split]]].
    + erewrite bind_ok by exact E1. erewrite bind_ok by exact E2. reflexivity.
    + split; [congruence|]. rewrite Hnew, Hh, <- app_assoc. eauto.
    + constructor; [|assumption]. rewrite Hnew, Hh. apply patient_cell_app.
      apply patient_cell_alloc.
    + constructor; [eexists; split; [reflexivity | lia]|].
      eapply Forall_impl; [exact Hge|].
      intros v (l & -> & Hl). exists l. split; [reflexivity | lia].
    + constructor; [|assumption]. intros Hin.
      rewrite Forall_forall in Hge. apply Hge in Hin as (l & E & Hl).
      inversion E. lia.
Qed.

Lemma PatientSerializer_serialize_cells cls ps w :
  exists refs w',
    PatientSerializer_serialize cls (VList (map patient_obj ps)) w
    = (Ok (VList refs), w')
    /\ grows w w'
    /\ Forall2 (patient_cell (heap w')) refs ps
    /\ NoDup refs.
Proof.
  destruct (for_each_patient_record ps w) as (refs & w' & E & G & C & _ & N).
  exists refs, w'. repeat split; try assumption; try apply G.
  unfold PatientSerializer_serialize. simpl iterate.
  erewrite bind_ok by reflexivity. erewrite bind_ok by exact E. reflexivity.
Qed.

Lemma PatientSerializer_deserialize_cells cls refs ps w :
  patient_class cls ->
  Forall2 (patient_cell (heap w)) refs ps -> NoDup refs ->
  exists w',
    PatientSerializer_deserialize cls (VList refs) w
    = (Ok (VList (map patient_obj ps)), w')
    /\ files w' = files w.
Proof.
  intros Hcls Hc Hnd.
  destruct (for_each_deserialize_cells cls refs ps Hcls w Hc Hnd)
    as (w' & E & F).
  exists w'. split; [|exact F].
  unfold PatientSerializer_deserialize. simpl iterate.
  erewrite bind_ok by reflexivity. erewrite bind_ok by exact E. reflexivity.
Qed.

Lemma serialize_patient_class cls :
  patient_class cls -> serialize cls = PatientSerializer_serialize cls.
Proof. now intros [->| ->]. Qed.

Lemma deserialize_patient_class cls :
  patient_class cls -> deserialize cls = PatientSerializer_deserialize cls.
Proof. now intros [->| ->]. Qed.

(** ** The decoder reads back what the encoder writes *)

Lemma scan_string_escape c tail :
  scan_string (escape_char c ++ tail)
  = match scan_string tail with
    | Ok (r, s) => Ok (c :: r, s)
    | Raise x => Raise x
    end.
Proof.
  destruct c as [[] [] [] [] [] [] [] []]; reflexivity.
Qed.

Lemma scan_string_encode cs rest :
  scan_string (flat_map escape_char cs ++ dq :: rest) = Ok (cs, rest).
Proof.
  induction cs as [|c cs IH]; [reflexivity|].
  simpl flat_map. rewrite <- app_assoc, scan_string_escape, IH. reflexivity.
Qed.

Lemma encode_string_app s rest :
  encode_string s ++ rest
  = dq :: flat_map escape_char (list_ascii_of_string s) ++ dq :: rest.
Proof. unfold encode_string. simpl. now rewrite <- app_assoc. Qed.

Lemma parse_value_string f d s rest :
  parse_value (S f) d (encode_string s ++ rest) = Ok (JStr s, rest).
Proof.
  rewrite encode_string_app. simpl.
  now rewrite scan_string_encode, string_of_list_ascii_of_string.
Qed.

Lemma number_end_digit c s : number_end (c :: s) = true -> digit c = None.
Proof.
  unfold number_end, is_digit. destruct (digit c); [discriminate | reflexivity].
Qed.

Lemma number_end_float s : number_end s = true -> starts_float s = false.
Proof.
  destruct s as [|c [|d r]]; try reflexivity. unfold number_end, starts_float.
  destruct (Ascii.eqb c "."), (Ascii.eqb c "e"), (Ascii.eqb c "E");
    rewrite ?andb_false_r; simpl; try discriminate; reflexivity.
Qed.

Lemma scan_digits_chars d rest :
  number_end rest = true -> scan_digits (uint_chars d ++ rest) = (d, rest).
Proof.
  intros H. induction d; simpl; try (rewrite IHd; reflexivity).
  destruct rest as [|c s]; [reflexivity|]. simpl.
  now rewrite (number_end_digit c s H).
Qed.

(** A decimal numeral without leading zeros. *)
Lemma to_uint_head p :
  match Pos.to_uint p with
  | Decimal.Nil | Decimal.D0 _ => False
  | _ => True
  end.
Proof.
  pose proof (DecimalPos.Unsigned.to_of (Pos.to_uint p)) as H.
  rewrite DecimalPos.Unsigned.of_to in H. simpl in H.
  pose proof (DecimalPos.Unsigned.to_uint_nonnil p) as Hn.
  pose proof (DecimalPos.Unsigned.to_uint_nonzero p) as Hz.
  destruct (Pos.to_uint p) as [|d| | | | | | | | |] eqn:E; try exact I.
  - congruence.
  - rewrite DecimalFacts.unorm_D0 in H. unfold Decimal.unorm in H.
    destruct (Decimal.nzhead d) eqn:En; try discriminate H.
    + inversion H. subst d. now apply Hz.
    + exfalso. eapply DecimalFacts.nzhead_nonzero. rewrite En.
      symmetry. exact H.
Qed.

Lemma scan_int_chars p rest :
  number_end rest = true ->
  scan_int (uint_chars (Pos.to_uint p) ++ rest) = Some (Pos.to_uint p, rest).
Proof.
  intros H. pose proof (to_uint_head p) as Hh.
  destruct (Pos.to_uint p); try contradiction; simpl;
    now rewrite scan_digits_chars.
Qed.

Lemma parse_number_encode_int z rest :
  number_end rest = true ->
  parse_number (encode_int z ++ rest) = Ok (JInt z, rest).
Proof.
  intros H. pose proof (DecimalZ.of_to z) as Hz.
  unfold encode_int. destruct z as [|p|p]; simpl Z.to_int in *.
  - cbn -[starts_float]. now rewrite number_end_float.
  - unfold parse_number.
    assert (Hs : match uint_chars (Pos.to_uint p) ++ rest with
                 | c :: s' => if Ascii.eqb c "-" then (true, s')
                              else (false, uint_chars (Pos.to_uint p) ++ rest)
                 | [] => (false, uint_chars (Pos.to_uint p) ++ rest)
                 end = (false, uint_chars (Pos.to_uint p) ++ rest)).
    { pose proof (to_uint_head p) as Hh.
      destruct (Pos.to_uint p); try contradiction; reflexivity. }
    rewrite Hs, scan_int_chars, number_end_float by assumption.
    now rewrite Hz.
  - unfold parse_number. cbn -[starts_float scan_int Z.of_int].
    rewrite scan_int_chars, number_end_float by assumption.
    now rewrite Hz.
Qed.

Lemma encode_int_start z rest :
  exists c t, encode_int z ++ rest = c :: t
    /\ (is_digit c = true \/ c = "-"%char).
Proof.
  unfold encode_int. destruct z as [|p|p]; simpl Z.to_int.
  - simpl. eauto.
  - pose proof (to_uint_head p) as Hh.
    destruct (Pos.to_uint p); try contradiction; simpl; eauto.
  - simpl. eauto.
Qed.

Lemma parse_value_number f d c t :
  is_digit c = true \/ c = "-"%char ->
  parse_value (S f) d (c :: t) = parse_number (c :: t).
Proof.
  intros [H| ->]; [|reflexivity].
  unfold is_digit, digit in H.
  repeat match type of H with
         | context [Ascii.eqb c ?k] =>
             destruct (Ascii.eqb_spec c k) as [->|_]; [reflexivity|]
         end.
  discriminate.
Qed.

Lemma parse_value_int f d z rest :
  number_end rest = true ->
  parse_value (S f) d (encode_int z ++ rest) = Ok (JInt z, rest).
Proof.
  intros H. destruct (encode_int_start z rest) as (c & t & E & Hc).
  rewrite <- (parse_number_encode_int z rest H), E.
  now apply parse_value_number.
Qed.

Lemma json_ind' (P : json -> Prop) :
  P JNull -> (forall b, P (JBool b)) -> (forall z, P (JInt z)) ->
  (forall s, P (JStr s)) ->
  (forall xs, Forall P xs -> P (JArr xs)) ->
  (forall kvs, Forall (fun kv => P (snd kv)) kvs -> P (JObj kvs)) ->
  (forall x, P (JFloat x)) ->
  forall j, P j.
Proof.
  intros HNull HBool HInt HStr HArr HObj HFloat.
  fix IH 1. intros [| b | z | s | xs | kvs | x];
    [apply HNull | apply HBool | apply HInt | apply HStr | | | apply HFloat].
  - apply HArr.
    exact ((fix go (l : list json) : Forall P l :=
              match l with
              | [] => List.Forall_nil P
              | x :: l' => @List.Forall_cons _ P x l' (IH x) (go l')
              end) xs).
  - apply HObj.
    exact ((fix go (l : list (string * json))
              : Forall (fun kv => P (snd kv)) l :=
              match l with
              | [] => List.Forall_nil _
              | kv :: l' =>
                  @List.Forall_cons _ (fun kv => P (snd kv)) kv l'
                    (IH (snd kv)) (go l')
              end) kvs).
Qed.

Lemma digit_value_start c t : is_digit c = true -> value_start (c :: t) = true.
Proof.
  intros H. unfold is_digit, digit in H.
  repeat match type of H with
         | context [Ascii.eqb c ?k] =>
             destruct (Ascii.eqb_spec c k) as [->|_]; [reflexivity|]
         end.
  discriminate.
Qed.

Lemma print_start j rest : value_start (print j ++ rest) = true.
Proof.
  destruct j as [| [] | z | s | xs | kvs | []]; try reflexivity.
  destruct (encode_int_start z rest) as (c & t & E & [Hc| ->]);
    simpl print; rewrite E; [now apply digit_value_start | reflexivity].
Qed.

Lemma skip_ws_start s : value_start s = true -> skip_ws s = s.
Proof.
  destruct s as [|c t]; [reflexivity|]. unfold value_start. simpl.
  destruct (is_ws c); [discriminate | reflexivity].
Qed.

Lemma parse_value_array f d s1 :
  value_start s1 = true ->
  parse_value (S f) (S d) ("["%char :: s1)
  = match parse_elements f d s1 with
    | Ok (xs, s3) => Ok (JArr xs, s3)
    | Raise x => Raise x
    end.
Proof.
  intros H. rewrite <- (skip_ws_start s1 H) at 2.
  destruct s1 as [|c s2]; [discriminate|]. unfold value_start in H.
  destruct (Ascii.eqb c "]") eqn:Hc;
    [now rewrite andb_false_r in H|].
  rewrite (skip_ws_start (c :: s2)) by (unfold value_start; now rewrite Hc).
  change (parse_value (S f) (S d) ("["%char :: c :: s2))
    with (match skip_ws (c :: s2) with
          | [] => Raise JSONDecodeError
          | c' :: s2' =>
              if Ascii.eqb c' "]" then Ok (JArr [], s2')
              else
                match parse_elements f d (c' :: s2') with
                | Ok (xs, s3) => Ok (JArr xs, s3)
                | Raise x => Raise x
                end
          end).
  rewrite (skip_ws_start (c :: s2)) by (unfold value_start; now rewrite Hc).
  now rewrite Hc.
Qed.

Lemma parse_value_object f d s1 :
  value_start s1 = true ->
  parse_value (S f) (S d) ("{"%char :: s1)
  = match parse_members f d s1 with
    | Ok (kvs, s3) => Ok (JObj kvs, s3)
    | Raise x => Raise x
    end.
Proof.
  intros H.
  destruct s1 as [|c s2]; [discriminate|]. pose proof H as H'.
  unfold value_start in H.
  destruct (Ascii.eqb c "}") eqn:Hc;
    [now rewrite andb_false_r in H|].
  change (parse_value (S f) (S d) ("{"%char :: c :: s2))
    with (match skip_ws (c :: s2) with
          | [] => Raise JSONDecodeError
          | c' :: s2' =>
              if Ascii.eqb c' "}" then Ok (JObj [], s2')
              else
                match parse_members f d (c' :: s2') with
                | Ok (kvs, s3) => Ok (JObj kvs, s3)
                | Raise x => Raise x
                end
          end).
  rewrite (skip_ws_start (c :: s2)) by assumption.
  now rewrite Hc.
Qed.

Lemma parse_elements_S f d s :
  parse_elements (S f) d s
  = match parse_value f d s with
    | Ok (x, s1) =>
        match skip_ws s1 with
        | [] => Raise JSONDecodeError
        | c :: s2 =>
            if Ascii.eqb c "]" then Ok ([x], s2)
            else if Ascii.eqb c "," then
              match parse_elements f d (skip_ws s2) with
              | Ok (xs, s3) => Ok (x :: xs, s3)
              | Raise e => Raise e
              end
            else Raise JSONDecodeError
        end
    | Raise e => Raise e
    end.
Proof. reflexivity. Qed.

Lemma sep_by_cons {A} (f : A -> list ascii) x xs rest :
  sep_by f (x :: xs) ++ rest
  = f x ++ match xs with
           | [] => rest
           | _ :: _ => ","%char :: " "%char :: sep_by f xs ++ rest
           end.
Proof.
  simpl sep_by. rewrite <- app_assoc. destruct xs; reflexivity.
Qed.

Lemma parse_elements_print d xs :
  Forall (fun x => forall fuel rest, number_end rest = true ->
            size x <= fuel ->
            parse_value fuel d (print x ++ rest) = Ok (x, rest)) xs ->
  xs <> [] ->
  forall fuel rest,
    list_sum (map (fun x => S (size x)) xs) <= fuel ->
    parse_elements fuel d (sep_by print xs ++ "]"%char :: rest)
    = Ok (xs, rest).
Proof.
  induction 1 as [|x xs Hx Hxs IH]; intros Hne fuel rest Hfuel;
    [congruence|].
  simpl in Hfuel. destruct fuel as [|f]; [lia|].
  rewrite parse_elements_S, sep_by_cons.
  destruct xs as [|y ys].
  - rewrite Hx by (reflexivity || lia). reflexivity.
  - rewrite Hx by (reflexivity || simpl in *; lia).
    change (skip_ws (","%char :: " "%char :: ?t))
      with (","%char :: " "%char :: t).
    cbv iota beta. change (Ascii.eqb "," "]") with false.
    change (Ascii.eqb "," ",") with true. cbv iota.
    change (skip_ws (" "%char :: ?t)) with (skip_ws t).
    rewrite skip_ws_start
      by (rewrite sep_by_cons; apply print_start).
    rewrite IH by (congruence || simpl in *; lia). reflexivity.
Qed.

Lemma parse_members_S f d k s :
  parse_members (S f) d (encode_string k ++ ":"%char :: " "%char :: s)
  = match parse_value f d (skip_ws s) with
    | Ok (x, s4) =>
        match skip_ws s4 with
        | [] => Raise JSONDecodeError
        | c' :: s5 =>
            if Ascii.eqb c' "}" then Ok ([(k, x)], s5)
            else if Ascii.eqb c' "," then
              match parse_members f d (skip_ws s5) with
              | Ok (kvs, s6) => Ok ((k, x) :: kvs, s6)
              | Raise e => Raise e
              end
            else Raise JSONDecodeError
        end
    | Raise e => Raise e
    end.
Proof.
  rewrite encode_string_app. simpl.
  rewrite scan_string_encode. simpl.
  now rewrite string_of_list_ascii_of_string.
Qed.

Lemma print_member_app kv rest :
  print_member kv ++ rest
  = encode_string (fst kv) ++ ":"%char :: " "%char :: print (snd kv) ++ rest.
Proof. unfold print_member. now rewrite <- !app_assoc. Qed.

Lemma print_member_start kv rest : value_start (print_member kv ++ rest) = true.
Proof. rewrite print_member_app, encode_string_app. reflexivity. Qed.

Lemma parse_members_print d kvs :
  Forall (fun kv => forall fuel rest, number_end rest = true ->
            size (snd kv) <= fuel ->
            parse_value fuel d (print (snd kv) ++ rest) = Ok (snd kv, rest))
    kvs ->
  kvs <> [] ->
  forall fuel rest,
    list_sum (map (fun kv => S (size (snd kv))) kvs) <= fuel ->
    parse_members fuel d (sep_by print_member kvs ++ "}"%char :: rest)
    = Ok (kvs, rest).
Proof.
  induction 1 as [|[k x] kvs Hx Hxs IH]; intros Hne fuel rest Hfuel;
    [congruence|].
  simpl in Hfuel, Hx. destruct fuel as [|f]; [lia|].
  rewrite sep_by_cons, print_member_app, parse_members_S. simpl fst. simpl snd.
  rewrite skip_ws_start by apply print_start.
  destruct kvs as [|y ys].
  - rewrite Hx by (reflexivity || lia). reflexivity.
  - rewrite Hx by (reflexivity || simpl in *; lia).
    change (skip_ws (","%char :: " "%char :: ?t))
      with (","%char :: " "%char :: t).
    cbv iota beta. change (Ascii.eqb "," "}") with false.
    change (Ascii.eqb "," ",") with true. cbv iota.
    change (skip_ws (" "%char :: ?t)) with (skip_ws t).
    rewrite skip_ws_start
      by (rewrite sep_by_cons; apply print_member_start).
    rewrite IH by (congruence || simpl in *; lia). reflexivity.
Qed.

Lemma print_array xs rest :
  print (JArr xs) ++ rest
  = "["%char :: sep_by print xs ++ "]"%char :: rest.
Proof. simpl. now rewrite <- app_assoc. Qed.

Lemma print_object kvs rest :
  print (JObj kvs) ++ rest
  = "{"%char :: sep_by print_member kvs ++ "}"%char :: rest.
Proof. simpl. now rewrite <- app_assoc. Qed.

(** The decoder reads a printed tree back, whatever follows it, as long as
    what follows cannot continue a number. *)
Lemma Forall_nesting (P : json -> nat -> Prop) {A} (g : A -> json) d xs :
  Forall (fun x => forall depth, nesting (g x) <= depth -> P (g x) depth) xs ->
  list_max (map (fun x => nesting (g x)) xs) <= d ->
  Forall (fun x => P (g x) d) xs.
Proof.
  induction 1 as [|x xs Hx _ IH]; intros Hd; constructor;
    simpl in Hd; apply Nat.max_lub_iff in Hd as [H1 H2].
  - now apply Hx.
  - now apply IH.
Qed.

Lemma parse_value_print j :
  forall fuel depth rest, number_end rest = true -> size j <= fuel ->
    nesting j <= depth ->
    parse_value fuel depth (print j ++ rest) = Ok (j, rest).
Proof.
  induction j as [| b | z | s | xs IH | kvs IH | x] using json_ind';
    intros fuel depth rest Hrest Hfuel Hdepth; simpl in Hfuel;
    (destruct fuel as [|f]; [lia|]).
  - reflexivity.
  - destruct b; reflexivity.
  - now apply parse_value_int.
  - apply parse_value_string.
  - cbn [nesting] in Hdepth. destruct depth as [|d]; [lia|].
    rewrite print_array. destruct xs as [|x xs]; [reflexivity|].
    rewrite parse_value_array by (rewrite sep_by_cons; apply print_start).
    rewrite parse_elements_print; [reflexivity | | congruence | lia].
    apply (Forall_nesting
             (fun x depth => forall fuel rest, number_end rest = true ->
                size x <= fuel ->
                parse_value fuel depth (print x ++ rest) = Ok (x, rest))
             (fun x => x)).
    + eapply Forall_impl; [exact IH|]. intros y Hy depth Hd fuel' rest' H1 H2.
      now apply Hy.
    + apply le_S_n in Hdepth. exact Hdepth.
  - cbn [nesting] in Hdepth. destruct depth as [|d]; [lia|].
    rewrite print_object. destruct kvs as [|kv kvs]; [reflexivity|].
    rewrite parse_value_object
      by (rewrite sep_by_cons; apply print_member_start).
    rewrite parse_members_print; [reflexivity | | congruence | lia].
    apply (Forall_nesting
             (fun x depth => forall fuel rest, number_end rest = true ->
                size x <= fuel ->
                parse_value fuel depth (print x ++ rest) = Ok (x, rest))
             (fun kv : string * json => snd kv)).
    + eapply Forall_impl; [exact IH|]. intros y Hy depth Hd fuel' rest' H1 H2.
      now apply Hy.
    + apply le_S_n in Hdepth. exact Hdepth.
  - destruct x; reflexivity.
Qed.

Lemma length_sep_by_print xs :
  Forall (fun x => size x <= S (length (print x))) xs ->
  list_sum (map (fun x => S (size x)) xs) <= length (sep_by print xs) + 2.
Proof.
  induction 1 as [|x xs Hx _ IH]; [simpl; lia|].
  cbn [map list_sum sep_by]. rewrite length_app.
  destruct xs; [simpl in *; lia|]. rewrite length_app. simpl length at 2.
  change (list_sum (?a :: ?l)) with (a + list_sum l). lia.
Qed.

Lemma length_sep_by_member kvs :
  Forall (fun kv => size (snd kv) <= S (length (print (snd kv)))) kvs ->
  list_sum (map (fun kv => S (size (snd kv))) kvs)
  <= length (sep_by print_member kvs) + 2.
Proof.
  induction 1 as [|x xs Hx _ IH]; [simpl; lia|].
  cbn [map list_sum sep_by]. rewrite length_app.
  unfold print_member at 1. rewrite !length_app.
  destruct xs; [simpl in *; lia|]. rewrite length_app. simpl length at 4.
  change (list_sum (?a :: ?l)) with (a + list_sum l). lia.
Qed.

Lemma size_print j : size j <= S (length (print j)).
Proof.
  induction j as [| b | z | s | xs IH | kvs IH | x] using json_ind';
    try (simpl; lia).
  - pose proof (length_sep_by_print xs IH).
    cbn [size print length]. rewrite length_app. simpl. lia.
  - pose proof (length_sep_by_member kvs IH).
    cbn [size print length]. fold print_member. rewrite length_app. simpl. lia.
Qed.

(** [json.loads(json.dumps(j)) == j] on trees that do not nest deeper
    than the scanner may go. *)
Lemma json_loads_print j :
  nesting j <= recursion_limit -> json_loads (print j) = Ok j.
Proof.
  intros Hn. unfold json_loads.
  pose proof (print_start j []) as Hs. rewrite app_nil_r in Hs.
  rewrite skip_ws_start by assumption.
  rewrite <- (app_nil_r (print j)) at 2.
  rewrite parse_value_print
    by (reflexivity || assumption || (pose proof (size_print j); lia)).
  reflexivity.
Qed.

Example json_loads_examples :
  json_loads (lit " [1, -20, {}, [ ], true, null] ")
  = Ok (JArr [JInt 1; JInt (-20); JObj []; JArr []; JBool true; JNull])
  /\ json_loads (lit "[1,]") = Raise JSONDecodeError
  /\ json_loads (lit "[01]") = Raise JSONDecodeError
  /\ json_loads (lit "[1.5]") = Raise Unsupported.
Proof. repeat split. Qed.

(** ** Encoding the dictionaries [serialize] makes *)

Lemma encode_items_print enc xs js :
  Forall2 (fun v j => enc v = (print j, None)) xs js ->
  forall first,
    encode_items enc first xs
    = (match js with
       | [] => []
       | _ :: _ => (if first then [] else lit ", ") ++ sep_by print js
       end, None).
Proof.
  induction 1 as [|v j xs js Hv Hrest IH]; intros first; [reflexivity|].
  cbn [encode_items]. rewrite Hv, (IH false).
  destruct js; simpl; now rewrite ?app_nil_r.
Qed.

Lemma encode_list_S f h markers x xs :
  encode (S f) h markers (VList (x :: xs))
  = match encode_items (encode f h markers) true (x :: xs) with
    | (s, None) => ("["%char :: s ++ ["]"%char], None)
    | (s, Some e) => ("["%char :: s, Some e)
    end.
Proof. reflexivity. Qed.

Lemma encode_dict_S f h markers l kv d :
  h !! l = Some (kv :: d) ->
  existsb (Nat.eqb l) markers = false ->
  encode (S f) h markers (VDict l)
  = match encode_pairs (encode f h (l :: markers)) true (kv :: d) with
    | (s, None) => ("{"%char :: s ++ ["}"%char], None)
    | (s, Some e) => ("{"%char :: s, Some e)
    end.
Proof. intros Hl Hm. cbn [encode]. unfold cell. now rewrite Hl, Hm. Qed.

Lemma encode_observation_cell f h markers l o :
  observation_cell h (VDict l) o ->
  existsb (Nat.eqb l) markers = false ->
  encode (S (S f)) h markers (VDict l) = (print (observation_json o), None).
Proof.
  intros (l' & E & Hl) Hm. inversion E; subst l'; clear E.
  erewrite encode_dict_S by eassumption. simpl.
  rewrite <- !app_assoc. reflexivity.
Qed.

Lemma encode_observation_cells f h l ovs os :
  (forall o, ~ observation_cell h (VDict l) o) ->
  Forall2 (observation_cell h) ovs os ->
  Forall2 (fun v j => encode (S (S f)) h [l] v = (print j, None))
    ovs (map observation_json os).
Proof.
  intros Hl. induction 1 as [|v o ovs os Hv _ IH]; cbn [map]; constructor;
    [|assumption].
  pose proof Hv as (lo & -> & _).
  apply encode_observation_cell; [assumption|].
  simpl. destruct (Nat.eqb_spec lo l) as [->|_]; [|reflexivity].
  now destruct (Hl o).
Qed.

Lemma encode_patient_cell f h v p :
  patient_cell h v p ->
  encode (S (S (S (S f)))) h [] v = (print (patient_json p), None).
Proof.
  intros Hp. pose proof Hp as (l & ovs & -> & Hl & Hos).
  assert (Hitems : encode (S (S (S f))) h [l] (VList ovs)
                   = (print (JArr (map observation_json (observations p))),
                      None)).
  { destruct Hos as [|v o ovs os Hv Hos]; [reflexivity|].
    assert (H2 : Forall2 (observation_cell h) (v :: ovs) (o :: os))
      by now constructor.
    apply (encode_observation_cells f h l) in H2;
      [|intros o' Ho'; eapply patient_cell_not_observation; eassumption].
    rewrite encode_list_S, (encode_items_print _ _ _ H2 true).
    reflexivity. }
  erewrite encode_dict_S by (eassumption || reflexivity).
  cbn [encode_pairs]. rewrite Hitems.
  change (encode (S (S (S f))) h [l] (VStr (name p)))
    with (encode_string (name p), @None exc).
  simpl. rewrite <- !app_assoc. reflexivity.
Qed.

Lemma encode_document f h refs ps :
  Forall2 (patient_cell h) refs ps ->
  encode (S (S (S (S (S f))))) h [] (VList refs)
  = (print (document ps), None).
Proof.
  intros H. destruct H as [|v p refs ps Hv Hrest]; [reflexivity|].
  assert (H2 : Forall2 (fun v j => encode (S (S (S (S f)))) h [] v
                                   = (print j, None))
                 (v :: refs) (map patient_json (p :: ps))).
  { assert (H : Forall2 (patient_cell h) (v :: refs) (p :: ps))
      by now constructor.
    clear Hv Hrest. induction H; cbn [map]; constructor;
      auto using encode_patient_cell. }
  rewrite encode_list_S, (encode_items_print _ _ _ H2 true). reflexivity.
Qed.

(** ** The decoder builds what [serialize] builds *)

Lemma for_each_map_ext {A B C D} (f : A -> M D) (g : B -> A)
  (f' : C -> M D) (g' : B -> C) xs :
  (forall x w, f (g x) w = f' (g' x) w) ->
  forall w, for_each f (map g xs) w = for_each f' (map g' xs) w.
Proof.
  intros H. induction xs as [|x xs IH]; intros w; simpl; [reflexivity|].
  unfold bind at 1 3. rewrite H.
  destruct (f' (g' x) w) as [[a|e] w1]; [|reflexivity].
  unfold bind. now rewrite IH.
Qed.

Lemma reify_observation_json o w :
  reify (observation_json o) w = observation_record (observation_obj o) w.
Proof. reflexivity. Qed.

Lemma reify_patient_json p w :
  reify (patient_json p) w = patient_record (patient_obj p) w.
Proof.
  unfold patient_record.
  erewrite (bind_ok (getattr _ _)) by reflexivity.
  erewrite (bind_ok (getattr _ _)) by reflexivity.
  unfold ObservationSerializer_serialize. simpl iterate.
  cbn [reify patient_json for_each fst snd].
  unfold bind, ret.
  rewrite (for_each_map_ext reify observation_json
    observation_record observation_obj _ reify_observation_json).
  destruct (for_each observation_record _ w) as [[a|e] w1]; reflexivity.
Qed.

Lemma reify_document cls ps w :
  reify (document ps) w
  = PatientSerializer_serialize cls (VList (map patient_obj ps)) w.
Proof.
  unfold PatientSerializer_serialize, document. simpl iterate.
  cbn [reify]. unfold bind, ret.
  now rewrite (for_each_map_ext reify patient_json patient_record
    patient_obj _ reify_patient_json).
Qed.

(** ** Saving and loading well-typed records *)

Lemma nesting_observation o : nesting (observation_json o) = 1.
Proof. reflexivity. Qed.

Lemma nesting_patient p : nesting (patient_json p) <= 3.
Proof.
  assert (H : forall os,
             list_max (map nesting (map observation_json os)) <= 1).
  { induction os as [|o os IH]; simpl in *; lia. }
  specialize (H (observations p)). unfold patient_json. simpl in *. lia.
Qed.

Lemma nesting_document ps : nesting (document ps) <= recursion_limit.
Proof.
  assert (H : list_max (map nesting (map patient_json ps)) <= 3).
  { induction ps as [|p ps IH]; [simpl; lia|].
    pose proof (nesting_patient p). cbn [map].
    change (list_max (?a :: ?l)) with (Nat.max a (list_max l)). lia. }
  unfold document. cbn [nesting]. unfold recursion_limit. lia.
Qed.

(** *** Paths *)

Lemma same_paths_refl w : same_paths w w.
Proof. reflexivity. Qed.

Lemma same_paths_trans w1 w2 w3 :
  same_paths w1 w2 -> same_paths w2 w3 -> same_paths w1 w3.
Proof. unfold same_paths. congruence. Qed.

Lemma same_paths_new_dict d : preserves same_paths (new_dict d).
Proof. intros w. reflexivity. Qed.

Lemma same_paths_write_dict l d : preserves same_paths (write_dict l d).
Proof. intros w. reflexivity. Qed.

Lemma same_paths_ObservationSerializer_serialize cls v :
  preserves same_paths (ObservationSerializer_serialize cls v).
Proof.
  pose proof same_paths_refl as Hr. pose proof same_paths_trans as Ht.
  apply preserves_bind; auto using preserves_iterate. intros xs.
  apply preserves_bind; auto using preserves_ret.
  apply preserves_for_each; auto. intros x _.
  apply preserves_bind; auto using preserves_getattr. intros d.
  apply preserves_bind; auto using preserves_getattr, same_paths_new_dict.
Qed.

Lemma same_paths_serialize cls v : preserves same_paths (serialize cls v).
Proof.
  pose proof same_paths_refl as Hr. pose proof same_paths_trans as Ht.
  assert (H : forall c, preserves same_paths (PatientSerializer_serialize c v)).
  { intros c. apply preserves_bind; auto using preserves_iterate. intros xs.
    apply preserves_bind; auto using preserves_ret.
    apply preserves_for_each; auto. intros x _.
    apply preserves_bind; auto using preserves_getattr. intros n.
    apply preserves_bind; auto using preserves_getattr. intros obs.
    apply preserves_bind;
      auto using same_paths_ObservationSerializer_serialize,
        same_paths_new_dict. }
  destruct cls; unfold serialize; simpl; auto using preserves_raise.
  apply same_paths_ObservationSerializer_serialize.
Qed.

Lemma same_paths_deserialize cls v : preserves same_paths (deserialize cls v).
Proof.
  pose proof same_paths_refl as Hr. pose proof same_paths_trans as Ht.
  assert (H : forall c, preserves same_paths (PatientSerializer_deserialize c v)).
  { intros c. apply preserves_bind; auto using preserves_iterate. intros xs.
    apply preserves_bind; auto using preserves_ret.
    apply preserves_for_each; auto. intros item _.
    apply preserves_bind.
    - assumption.
    - destruct item; simpl; auto using preserves_raise.
      apply preserves_bind; auto using preserves_read_dict. intros d.
      destruct (dict_pop "observations" d) as [[x d']|];
        auto using preserves_raise.
    - intros popped. apply preserves_bind;
        auto using preserves_ObservationSerializer_deserialize.
      intros obs. apply preserves_bind; auto using preserves_build.
      destruct item; simpl; auto using preserves_raise. }
  destruct cls; unfold deserialize; simpl; auto using preserves_raise.
  now apply preserves_ObservationSerializer_deserialize.
Qed.

Lemma same_paths_open_w path : preserves same_paths (open_w path).
Proof.
  intros w. unfold open_w. destruct (locate w for_writing path); reflexivity.
Qed.

Lemma same_paths_json_dump obj file : preserves same_paths (json_dump obj file).
Proof.
  intros w. unfold json_dump.
  destruct (encode recursion_limit (heap w) [] obj) as [s [e|]]; reflexivity.
Qed.

Lemma same_paths_reify j : preserves same_paths (reify j).
Proof.
  pose proof same_paths_refl as Hr. pose proof same_paths_trans as Ht.
  induction j as [| b | z | s | xs IH | kvs IH | x] using json_ind';
    cbn [reify]; auto using preserves_ret.
  - apply preserves_bind; auto using preserves_ret.
    apply preserves_for_each; auto. intros x Hx.
    rewrite Forall_forall in IH. apply IH. now apply list_elem_of_In.
  - apply preserves_bind; auto using same_paths_new_dict.
    apply preserves_for_each; auto. intros kv Hkv.
    apply preserves_bind; auto using preserves_ret.
    rewrite Forall_forall in IH. apply IH. now apply list_elem_of_In.
Qed.

Lemma same_paths_json_load path : preserves same_paths (json_load path).
Proof.
  pose proof same_paths_refl as Hr. pose proof same_paths_trans as Ht.
  apply preserves_bind; auto.
  { intros w. unfold read. destruct (locate w for_reading path) as [f|e];
      [destruct (files w !! f)|]; reflexivity. }
  intros s. apply preserves_bind; auto using preserves_lift, same_paths_reify.
Qed.

Lemma same_paths_save cls v path : preserves same_paths (save cls v path).
Proof.
  pose proof same_paths_refl as Hr. pose proof same_paths_trans as Ht.
  destruct cls; unfold save; simpl; auto using preserves_raise.
  apply preserves_bind; auto using same_paths_open_w. intros f.
  apply preserves_bind; auto using same_paths_serialize. intros data.
  apply preserves_bind; auto using same_paths_json_dump, preserves_ret.
Qed.

Lemma same_paths_load cls path : preserves same_paths (load cls path).
Proof.
  pose proof same_paths_refl as Hr. pose proof same_paths_trans as Ht.
  destruct cls; unfold load; simpl; auto using preserves_raise.
  apply preserves_bind;
    auto using same_paths_json_load, same_paths_deserialize.
Qed.

(** *** Opening and reading *)

Lemma open_w_ok path file w :
  locate w for_writing path = Ok file ->
  open_w path w = (Ok file, set_files (<[file := EmptyString]> (files w)) w).
Proof. intros H. unfold open_w. now rewrite H. Qed.

Lemma open_w_raise path e w :
  locate w for_writing path = Raise e -> open_w path w = (Raise e, w).
Proof. intros H. unfold open_w. now rewrite H. Qed.

Lemma read_ok path file text w :
  locate w for_reading path = Ok file ->
  files w !! file = Some text ->
  read path w = (Ok (list_ascii_of_string text), w).
Proof. intros H1 H2. unfold read. now rewrite H1, H2. Qed.

Lemma json_dump_document refs ps file w :
  Forall2 (patient_cell (heap w)) refs ps ->
  files w !! file = Some EmptyString ->
  json_dump (VList refs) file w
  = (Ok tt,
     set_files (<[file := string_of_list_ascii (print (document ps))]>
                  (files w)) w).
Proof.
  intros Hc Hp. unfold json_dump.
  change recursion_limit with (S (S (S (S (S 995))))).
  rewrite (encode_document 995 _ _ _ Hc). unfold write. now rewrite Hp.
Qed.

Lemma save_patients ps path file w :
  locate w for_writing path = Ok file ->
  exists w',
    save PatientJSONSerializer (VList (map patient_obj ps)) path w
    = (Ok VNone, w')
    /\ files w'
       = <[file := string_of_list_ascii (print (document ps))]> (files w)
    /\ locate w' = locate w.
Proof.
  intros Hw.
  assert (H : exists w',
             save PatientJSONSerializer (VList (map patient_obj ps)) path w
             = (Ok VNone, w')
             /\ files w'
                = <[file := string_of_list_ascii (print (document ps))]>
                    (files w)).
  { unfold save. cbn [resolve mro defines List.find].
    unfold PatientJSONSerializer_save.
    erewrite bind_ok by (apply open_w_ok; exact Hw).
    rewrite serialize_patient_class by (now right).
    destruct (PatientSerializer_serialize_cells PatientJSONSerializer ps
                (set_files (<[file := EmptyString]> (files w)) w))
      as (refs & w1 & E & [F _] & C & _).
    erewrite bind_ok by exact E.
    erewrite bind_ok; cycle 1.
    { apply json_dump_document; [exact C|].
      rewrite F. simpl. apply lookup_insert_eq. }
    eexists. split; [reflexivity|]. simpl. rewrite F. simpl.
    apply insert_insert_eq. }
  destruct H as (w' & E & F). exists w'. split; [exact E|].
  split; [exact F|].
  pose proof (same_paths_save PatientJSONSerializer
                (VList (map patient_obj ps)) path w) as Hl.
  now rewrite E in Hl.
Qed.

Lemma load_patients ps path file w :
  locate w for_reading path = Ok file ->
  files w !! file = Some (string_of_list_ascii (print (document ps))) ->
  exists w',
    load PatientJSONSerializer path w = (Ok (VList (map patient_obj ps)), w')
    /\ files w' = files w.
Proof.
  intros Hr Hp. unfold load. cbn [resolve mro defines List.find].
  unfold PatientJSONSerializer_load, json_load.
  destruct (PatientSerializer_serialize_cells PatientJSONSerializer ps w)
    as (refs & w1 & E & [F _] & C & N).
  destruct (PatientSerializer_deserialize_cells PatientJSONSerializer
              refs ps w1) as (w2 & E2 & F2); [now right | assumption..|].
  exists w2. split; [|congruence].
  erewrite bind_ok; cycle 1.
  { erewrite bind_ok; cycle 1.
    { erewrite read_ok by eassumption.
      rewrite list_ascii_of_string_of_list_ascii. reflexivity. }
    rewrite json_loads_print by apply nesting_document.
    erewrite bind_ok by reflexivity.
    rewrite (reify_document PatientJSONSerializer). exact E. }
  rewrite deserialize_patient_class by (now right). exact E2.
Qed.

(** * The serializers against their specification *)


(** C6.  Abstract contract.  Each of the four operations [serialize],
    [deserialize], [save] and [load], called on the base class
    [Serializer], raises [NotImplementedError] on every input and leaves
    the heap and the files as they were. *)
Theorem Serializer_not_implemented (v : pyval) (path : string) (w : world) :
  serialize Serializer v w = (Raise NotImplementedError, w)
  /\ deserialize Serializer v w = (Raise NotImplementedError, w)
  /\ save Serializer v path w = (Raise NotImplementedError, w)
  /\ load Serializer path w = (Raise NotImplementedError, w).
Proof. repeat split. Qed.

(** C9.  [ObservationSerializer] defines [serialize] and [deserialize]
    only: [save] and [load] called on it resolve to the methods of
    [Serializer] and raise [NotImplementedError] on every input. *)
Theorem ObservationSerializer_save_load (v : pyval) (path : string)
  (w : world) :
  resolve ObservationSerializer a_save = Some Serializer
  /\ resolve ObservationSerializer a_load = Some Serializer
  /\ save ObservationSerializer v path w = (Raise NotImplementedError, w)
  /\ load ObservationSerializer path w = (Raise NotImplementedError, w).
Proof. repeat split. Qed.

(** C10.  The empty batch.  On the empty list both concrete serializers
    return the empty list from [serialize] and from [deserialize], raise
    nothing and change nothing. *)
Theorem empty_batch (w : world) :
  serialize PatientSerializer (VList []) w = (Ok (VList []), w)
  /\ serialize ObservationSerializer (VList []) w = (Ok (VList []), w)
  /\ deserialize PatientSerializer (VList []) w = (Ok (VList []), w)
  /\ deserialize ObservationSerializer (VList []) w = (Ok (VList []), w).
Proof. repeat split. Qed.

(** C7.  Shape of the output of [serialize].  [PatientSerializer.serialize]
    returns one new dictionary per patient, in the order of the input; each
    holds exactly the keys [name] and [observations], the name being the
    patient's and the observations a list of one dictionary per observation,
    in order, each holding exactly the keys [day] and [value] with the
    observation's day and value.  [ObservationSerializer.serialize] returns
    such observation dictionaries for a list of observations.  Neither
    changes a dictionary that existed before, nor a file. *)
Theorem serialize_shape (ps : list patient) (os : list observation)
  (w : world) :
  (exists refs w',
     serialize PatientSerializer (VList (map patient_obj ps)) w
     = (Ok (VList refs), w')
     /\ Forall2 (patient_cell (heap w')) refs ps
     /\ grows w w')
  /\ (exists refs w',
        serialize ObservationSerializer (VList (map observation_obj os)) w
        = (Ok (VList refs), w')
        /\ Forall2 (observation_cell (heap w')) refs os
        /\ grows w w').
Proof.
  split.
  - destruct (PatientSerializer_serialize_cells PatientSerializer ps w)
      as (refs & w' & E & G & C & _).
    exists refs, w'. auto.
  - eexists _, _. split; [|split].
    + unfold serialize. cbn [resolve mro defines List.find].
      unfold ObservationSerializer_serialize. simpl iterate.
      erewrite bind_ok by reflexivity.
      erewrite bind_ok by apply for_each_observation_record. reflexivity.
    + simpl. rewrite <- (app_nil_r (map observation_dict os)) at 1.
      apply observation_cells_alloc.
    + split; simpl; eauto.
Qed.



(** ** [save] is not atomic *)

Lemma save_steps instances path w :
  save PatientJSONSerializer instances path w
  = match locate w for_writing path with
    | Raise e => (Raise e, w)
    | Ok file =>
        match serialize PatientJSONSerializer instances
                (set_files (<[file := EmptyString]> (files w)) w) with
        | (Raise e, w1) => (Raise e, w1)
        | (Ok data, w1) =>
            match encode recursion_limit (heap w1) [] data with
            | (s, None) => (Ok VNone, snd (write file s w1))
            | (s, Some e) => (Raise e, snd (write file s w1))
            end
        end
    end.
Proof.
  unfold save. cbn [resolve mro defines List.find].
  unfold PatientJSONSerializer_save. unfold bind at 1, open_w.
  destruct (locate w for_writing path) as [file|e]; [|reflexivity].
  unfold bind at 1.
  destruct (serialize _ _ _) as [[data|e] w1]; [|reflexivity].
  unfold bind, json_dump.
  destruct (encode _ _ _ _) as [s [e|]]; reflexivity.
Qed.



(** ** [deserialize] rewrites the dictionaries it is given *)




(** ** The exceptions of [deserialize] *)

Section RaisesOnly.
Variable P : exc -> Prop.

Lemma raises_only_ret {A} (a : A) : raises_only P (ret a).
Proof. intros w e w' E. discriminate. Qed.

Lemma raises_only_raise {A} e : P e -> raises_only P (@raise A e).
Proof. intros H w e' w' E. inversion E. now subst. Qed.

Lemma raises_only_bind {A B} (m : M A) (k : A -> M B) :
  raises_only P m -> (forall a, raises_only P (k a)) ->
  raises_only P (bind m k).
Proof.
  intros Hm Hk w e w' E.
  apply bind_inv in E as [(e' & E & H)|(a & w1 & _ & E)].
  - inversion H. subst. eapply Hm; eassumption.
  - eapply Hk; eassumption.
Qed.

Lemma raises_only_for_each {A B} (f : A -> M B) xs :
  (forall x, raises_only P (f x)) -> raises_only P (for_each f xs).
Proof.
  intros Hf. induction xs as [|x xs IH]; simpl.
  - apply raises_only_ret.
  - apply raises_only_bind; [apply Hf|]. intros a.
    apply raises_only_bind; [apply IH|]. intros r. apply raises_only_ret.
Qed.

Lemma raises_only_read_dict l : raises_only P (read_dict l).
Proof. intros w e w' E. discriminate. Qed.
End RaisesOnly.

Lemma raises_only_impl {A} (P Q : exc -> Prop) (m : M A) :
  (forall e, P e -> Q e) -> raises_only P m -> raises_only Q m.
Proof. intros H Hm w e w' E. eapply H, Hm, E. Qed.

Lemma raises_iterate v : raises_only (eq TypeError) (iterate v).
Proof.
  destruct v; simpl; try (now apply raises_only_raise);
    try apply raises_only_ret.
  apply raises_only_bind; [apply raises_only_read_dict|].
  intros d. apply raises_only_ret.
Qed.

Lemma raises_bind_args c kw e : bind_args c kw = Raise e -> e = TypeError.
Proof.
  unfold bind_args. destruct (forallb _ _); [|intros E; now inversion E].
  generalize (models.params c). intros ps. revert e.
  induction ps as [|p ps IH]; intros e E; [discriminate|].
  simpl in E. destruct (dict_get p kw); [|now inversion E].
  destruct (take_args kw ps); [discriminate | now inversion E].
Qed.

Lemma raises_build cls d :
  cls <> Serializer -> raises_only (eq TypeError) (build cls d).
Proof.
  intros Hcls. apply raises_only_bind.
  - destruct cls; try congruence; apply raises_only_ret.
  - intros m. apply raises_only_bind.
    + destruct d; simpl; try (now apply raises_only_raise).
      apply raises_only_read_dict.
    + intros kw. apply raises_only_bind; [|intros; apply raises_only_ret].
      destruct (bind_args m kw) as [a|e] eqn:E; [apply raises_only_ret|].
      apply raises_only_raise. symmetry. eapply raises_bind_args, E.
Qed.

Lemma raises_ObservationSerializer_deserialize data :
  raises_only (eq TypeError)
    (ObservationSerializer_deserialize ObservationSerializer data).
Proof.
  apply raises_only_bind; [apply raises_iterate|]. intros xs.
  apply raises_only_bind; [|intros; apply raises_only_ret].
  apply raises_only_for_each. intros d. now apply raises_build.
Qed.

Lemma raises_deserialize_item cls item :
  patient_class cls ->
  raises_only
    (fun e => deserialize_error e /\ (is_dict item = true -> e <> AttributeError))
    (deserialize_item cls item).
Proof.
  intros Hcls. unfold deserialize_error.
  apply raises_only_bind; [|intros popped; apply raises_only_bind;
                            [|intros obs; apply raises_only_bind]].
  - destruct item; simpl;
      try (apply raises_only_raise; split; [tauto | discriminate]).
    + apply raises_only_bind; [apply raises_only_read_dict|]. intros d.
      destruct (dict_pop _ d) as [[x d']|];
        [|apply raises_only_raise; split; [tauto | discriminate]].
      apply raises_only_bind; [|intros; apply raises_only_ret].
      intros w e w' E. discriminate.
  - eapply raises_only_impl;
      [|apply raises_ObservationSerializer_deserialize].
    intros e <-. split; [tauto | discriminate].
  - destruct item; simpl;
      try (apply raises_only_raise; split; [tauto | discriminate]).
    apply raises_only_bind; [apply raises_only_read_dict|]. intros d.
    intros w e w' E. discriminate.
  - intros _. eapply raises_only_impl; [|apply raises_build].
    + intros e <-. split; [tauto | discriminate].
    + destruct Hcls; subst; discriminate.
Qed.

(** ** What [json.load] hands to [deserialize] *)


Lemma dict_set_nonempty k v d : dict_set k v d <> [].
Proof. destruct d as [|[k' v'] d]; simpl; [|destruct (String.eqb k k')]; discriminate. Qed.



Lemma for_each_raises {A B} (f : A -> M B) xs :
  Exists (fun x => forall w, exists e w', f x w = (Raise e, w')) xs ->
  forall w, exists e w', for_each f xs w = (Raise e, w').
Proof.
  induction 1 as [x xs Hx|x xs _ IH]; intros w; simpl.
  - destruct (Hx w) as (e & w' & E). exists e, w'. now apply bind_raise.
  - unfold bind at 1. destruct (f x w) as [[b|e] w1]; [|eauto].
    destruct (IH w1) as (e & w' & E). exists e, w'.
    now erewrite bind_raise by exact E.
Qed.

Lemma deserialize_item_not_dict_raises cls item :
  is_dict item = false ->
  forall w, exists e w', deserialize_item cls item w = (Raise e, w').
Proof.
  intros H w. destruct item; try discriminate; simpl; eauto.
Qed.

(** ** [load] on texts that are not an array of objects *)





(** ** Records that do not fit the schema *)

Lemma dict_get_keys k d : dict_get k d <> None <-> In k (dict_keys d).
Proof.
  induction d as [|[k' v] d IH]; simpl; [tauto|].
  destruct (String.eqb_spec k k') as [->|Hne].
  - split; [auto | discriminate].
  - rewrite IH. split; [auto | intros [H|H]; congruence].
Qed.

Lemma forallb_false_ex {A} (f : A -> bool) xs :
  forallb f xs = false -> exists x, In x xs /\ f x = false.
Proof.
  induction xs as [|x xs IH]; simpl; [discriminate|].
  destruct (f x) eqn:E; simpl.
  - intros H. destruct (IH H) as (y & Hy & Hf). eauto.
  - eauto.
Qed.

Lemma take_args_ok d ps a p :
  take_args d ps = Ok a -> In p ps -> dict_get p d <> None.
Proof.
  revert a. induction ps as [|q ps IH]; intros a E Hp; [contradiction|].
  simpl in E. destruct (dict_get q d) eqn:Eq; [|discriminate].
  destruct (take_args d ps) as [r|e]; [|discriminate].
  destruct Hp as [->|Hp]; [congruence | eauto].
Qed.

Lemma take_args_raise d ps e :
  take_args d ps = Raise e ->
  e = TypeError /\ exists p, In p ps /\ dict_get p d = None.
Proof.
  revert e. induction ps as [|q ps IH]; intros e E; [discriminate|].
  simpl in E. destruct (dict_get q d) eqn:Eq.
  - destruct (take_args d ps) as [r|e']; [discriminate|].
    destruct (IH e' eq_refl) as (_ & p' & Hp & Hg).
    split; [now inversion E|]. exists p'. split; [now right | assumption].
  - split; [now inversion E|]. exists q. split; [now left | assumption].
Qed.

Lemma bind_args_ok c d a :
  bind_args c d = Ok a -> ~ missing_or_extra c d.
Proof.
  unfold bind_args. destruct (forallb _ _) eqn:Ef; [|discriminate].
  intros E [(p & Hp & Hg)|(k & Hk & Hn)].
  - now apply (take_args_ok _ _ _ p E Hp).
  - rewrite forallb_forall in Ef. specialize (Ef k Hk).
    apply existsb_exists in Ef as (q & Hq & Heq).
    apply String.eqb_eq in Heq. now subst.
Qed.

Lemma bind_args_raise c d e :
  bind_args c d = Raise e -> e = TypeError /\ missing_or_extra c d.
Proof.
  unfold bind_args. destruct (forallb _ _) eqn:Ef.
  - intros E. apply take_args_raise in E as (-> & p & Hp & Hg).
    split; [reflexivity|]. left. eauto.
  - intros E. split; [now inversion E|]. right.
    apply forallb_false_ex in Ef as (k & Hk & Hn).
    exists k. split; [assumption|]. intros Hin.
    apply not_true_iff_false in Hn. apply Hn.
    apply existsb_exists. exists k. split; [assumption|].
    apply String.eqb_refl.
Qed.

Lemma build_observation w x :
  match build ObservationSerializer x w with
  | (Ok _, w') => valid_observation_record (heap w) x /\ w' = w
  | (Raise e, w') =>
      ~ valid_observation_record (heap w) x /\ e = TypeError /\ w' = w
  end.
Proof.
  unfold build. erewrite bind_ok by reflexivity.
  destruct x; simpl;
    try (split; [intros (l' & E & _); discriminate | auto]).
  unfold bind, read_dict, call, bind, lift.
  destruct (bind_args models.Observation (cell (heap w) l)) as [a|e] eqn:E;
    simpl.
  - split; [|reflexivity]. exists l. split; [reflexivity|].
    eapply bind_args_ok, E.
  - apply bind_args_raise in E as [-> Hm]. split; [|auto].
    intros (l' & El & Hv). inversion El; subst. contradiction.
Qed.

Lemma for_each_build w xs :
  match for_each (build ObservationSerializer) xs w with
  | (Ok _, w') => Forall (valid_observation_record (heap w)) xs /\ w' = w
  | (Raise e, w') =>
      Exists (fun x => ~ valid_observation_record (heap w) x) xs
      /\ e = TypeError /\ w' = w
  end.
Proof.
  induction xs as [|x xs IH]; simpl; [split; [constructor | reflexivity]|].
  unfold bind at 1. pose proof (build_observation w x) as Hx.
  destruct (build ObservationSerializer x w) as [[v|e] w1].
  - destruct Hx as [Hv ->]. unfold bind.
    destruct (for_each (build ObservationSerializer) xs w) as [[vs|e] w2];
      simpl.
    + destruct IH as [Hvs ->]. split; [now constructor | reflexivity].
    + destruct IH as (Hex & -> & ->). split; [now right | auto].
  - destruct Hx as (Hn & -> & ->). split; [now left | auto].
Qed.

Lemma ObservationSerializer_deserialize_accepts ov w :
  match ObservationSerializer_deserialize ObservationSerializer ov w with
  | (Ok _, w') => accepted_observations (heap w) ov /\ w' = w
  | (Raise e, w') =>
      ~ accepted_observations (heap w) ov /\ e = TypeError /\ w' = w
  end.
Proof.
  unfold ObservationSerializer_deserialize, accepted_observations.
  destruct ov as [| b | z | s | xs | l | c attrs | x]; simpl iterate;
    try (split; [intros [(? & ? & _)|[?|(? & ? & _)]]; discriminate | auto]).
  - (* a string *)
    destruct s as [|c s]; [split; auto|].
    split; [|auto]. intros [(? & ? & _)|[?|(? & ? & _)]]; discriminate.
  - (* a list *)
    erewrite bind_ok by reflexivity. unfold bind.
    pose proof (for_each_build w xs) as H.
    destruct (for_each (build ObservationSerializer) xs w) as [[vs|e] w1];
      simpl.
    + destruct H as [Hv ->]. split; [|reflexivity]. left. eauto.
    + destruct H as (Hex & -> & ->). split; [|auto].
      intros [(ovs & E & Hf)|[?|(? & ? & _)]]; try discriminate.
      inversion E; subst ovs. apply Exists_exists in Hex as (x & Hin & Hn).
      rewrite Forall_forall in Hf. now apply Hn, Hf.
  - (* a dictionary *)
    rewrite (bind_ok (iterate (VDict l)) _ w
               (map VStr (dict_keys (cell (heap w) l))) w) by reflexivity.
    destruct (cell (heap w) l) as [|[k v] d] eqn:Ec; cbn.
    + split; [|reflexivity]. right. right. eauto.
    + split; [|auto].
      intros [(? & ? & _)|[?|(l' & E & Hc)]]; try discriminate.
      inversion E; subst l'. congruence.
Qed.

Lemma deserialize_item_inv cls l w v w' :
  patient_class cls ->
  deserialize_item cls (VDict l) w = (Ok v, w') ->
  exists ov d' objs,
    dict_pop "observations" (cell (heap w) l) = Some (ov, d')
    /\ l < length (heap w)
    /\ fst (ObservationSerializer_deserialize ObservationSerializer ov
              (set_heap (<[l := d']> (heap w)) w)) = Ok objs
    /\ w' = set_heap (<[l := dict_set "observations" objs d']> (heap w)) w
    /\ exists attrs,
         bind_args models.Patient (dict_set "observations" objs d') = Ok attrs.
Proof.
  intros Hcls E. unfold deserialize_item in E.
  apply bind_inv in E as [(? & _ & ?)|(ov & w1 & Epop & E)]; [discriminate|].
  unfold pop, bind, read_dict in Epop.
  destruct (dict_pop "observations" (cell (heap w) l)) as [[ov' d']|] eqn:Ep;
    [|discriminate].
  simpl in Epop. inversion Epop; subst ov' w1; clear Epop.
  assert (Hlt : l < length (heap w)).
  { apply cell_nonempty. intros Hc. rewrite Hc in Ep. discriminate. }
  apply bind_inv in E as [(? & _ & ?)|(objs & w2 & Eobs & E)]; [discriminate|].
  pose proof (ObservationSerializer_deserialize_world
                ObservationSerializer ov
                (set_heap (<[l := d']> (heap w)) w)) as Hw.
  rewrite Eobs in Hw. simpl in Hw. subst w2.
  apply bind_inv in E as [(? & _ & ?)|([] & w3 & Eset & E)]; [discriminate|].
  unfold setitem, bind, read_dict, write_dict in Eset. simpl in Eset.
  rewrite cell_insert_eq, list_insert_insert_eq in Eset by assumption.
  inversion Eset; subst w3; clear Eset.
  unfold build in E.
  replace (model cls) with (@ret models.class models.Patient) in E
    by (destruct Hcls; subst; reflexivity).
  unfold bind, ret, unpack, read_dict, call, bind, lift in E. simpl in E.
  rewrite cell_insert_eq in E by assumption.
  destruct (bind_args models.Patient _) as [attrs|e] eqn:Eb;
    [|discriminate].
  inversion E; subst. exists ov, d', objs.
  split; [reflexivity|]. split; [assumption|].
  split; [now rewrite Eobs|]. split; [reflexivity | eauto].
Qed.

Lemma name_not_observation_key d :
  ~ missing_or_extra models.Observation d -> dict_get "name" d = None.
Proof.
  intros H. destruct (dict_get "name" d) eqn:E; [|reflexivity].
  exfalso. apply H. right. exists "name". split.
  - apply dict_get_keys. congruence.
  - simpl. intros [?|[?|[]]]; discriminate.
Qed.

Lemma observations_not_observation_key x d :
  missing_or_extra models.Observation (dict_set "observations" x d).
Proof.
  right. exists "observations". split.
  - apply dict_get_keys. now rewrite dict_get_set_eq.
  - simpl. intros [?|[?|[]]]; discriminate.
Qed.

Lemma name_is_patient_parameter d a :
  bind_args models.Patient d = Ok a -> dict_get "name" d <> None.
Proof.
  intros E Hn. apply bind_args_ok in E. apply E. left.
  exists "name". split; [now left | assumption].
Qed.

(** A record in error is not deserialized, even when its own dictionary
    is among its observations. *)
Lemma record_error_not_ok cls l w v w' :
  patient_class cls ->
  record_error (heap w) (VDict l) ->
  deserialize_item cls (VDict l) w <> (Ok v, w').
Proof.
  intros Hcls (l' & El & Herr) Eok. inversion El; subst l'; clear El.
  apply deserialize_item_inv in Eok
    as (ov & d' & objs & Ep & Hlt & Eobs & -> & attrs & Eb); [|assumption].
  pose proof (dict_pop_get _ _ _ _ Ep) as Hov.
  assert (Hname : dict_get "name" d' <> None).
  { apply name_is_patient_parameter in Eb.
    now rewrite dict_get_set_ne in Eb by discriminate. }
  destruct Herr as [Hn|[Ho|(ov' & Ho & Hna)]].
  - rewrite <- (dict_get_pop_ne "name" _ _ _ _ Ep) in Hn by discriminate.
    contradiction.
  - congruence.
  - assert (ov' = ov) by congruence. subst ov'. apply Hna.
    pose proof (ObservationSerializer_deserialize_accepts ov
                  (set_heap (<[l := d']> (heap w)) w)) as Hacc.
    destruct (ObservationSerializer_deserialize _ _ _) as [[r|e] w1];
      [|discriminate].
    destruct Hacc as [[(ovs & -> & Hf)|[->|(lo & -> & Hc)]] _]; simpl in *.
    + left. exists ovs. split; [reflexivity|].
      eapply Forall_impl; [exact Hf|]. intros o (lo & -> & Hv).
      exists lo. split; [reflexivity|].
      destruct (Nat.eq_dec l lo) as [<-|Hne].
      * rewrite cell_insert_eq in Hv by assumption.
        now apply name_not_observation_key in Hv.
      * now rewrite cell_insert_ne in Hv.
    + right. now left.
    + right. right. exists lo. split; [reflexivity|].
      destruct (Nat.eq_dec l lo) as [<-|Hne].
      * rewrite cell_insert_eq in Hc by assumption. now subst d'.
      * now rewrite cell_insert_ne in Hc.
Qed.

(** A record in error stays in error while another record is
    deserialized. *)
Lemma record_error_persists cls l0 w v w1 y :
  patient_class cls ->
  deserialize_item cls (VDict l0) w = (Ok v, w1) ->
  record_error (heap w) y -> y <> VDict l0 ->
  record_error (heap w1) y.
Proof.
  intros Hcls Eok (l & -> & Herr) Hne.
  assert (Hl : l0 <> l) by congruence.
  apply deserialize_item_inv in Eok
    as (ov0 & d' & objs & Ep & Hlt & _ & -> & _); [|assumption].
  exists l. split; [reflexivity|]. simpl.
  rewrite cell_insert_ne by assumption.
  destruct Herr as [Hn|[Ho|(ov & Ho & Hna)]]; [now left | now right; left|].
  right. right. exists ov. split; [assumption|]. intros Hacc. apply Hna.
  destruct Hacc as [(ovs & -> & Hf)|[->|(lo & -> & Hc)]].
  - left. exists ovs. split; [reflexivity|].
    eapply Forall_impl; [exact Hf|]. intros o (lo & -> & Hv).
    exists lo. split; [reflexivity|].
    destruct (Nat.eq_dec l0 lo) as [<-|Hne'].
    + rewrite cell_insert_eq in Hv by assumption.
      now destruct (Hv (observations_not_observation_key _ _)).
    + now rewrite cell_insert_ne in Hv.
  - right. now left.
  - right. right. exists lo. split; [reflexivity|].
    destruct (Nat.eq_dec l0 lo) as [<-|Hne'].
    + rewrite cell_insert_eq in Hc by assumption.
      now apply dict_set_nonempty in Hc.
    + now rewrite cell_insert_ne in Hc.
Qed.

Lemma for_each_record_error cls xs :
  patient_class cls ->
  Forall (fun x => is_dict x = true) xs ->
  forall w, Exists (record_error (heap w)) xs ->
  exists e w',
    for_each (deserialize_item cls) xs w = (Raise e, w')
    /\ (e = KeyError \/ e = TypeError).
Proof.
  intros Hcls. induction 1 as [|x xs Hx Hxs IH]; intros w Hex;
    [inversion Hex|].
  simpl. destruct (deserialize_item cls x w) as [[v|e] w1] eqn:E.
  - destruct x as [| | | | |l0| |]; try discriminate.
    assert (Hn : ~ record_error (heap w) (VDict l0))
      by (intros He; eapply record_error_not_ok; eassumption).
    destruct (IH w1) as (e & w' & E' & He).
    { apply Exists_cons in Hex as [?|Hex]; [contradiction|].
      apply Exists_exists in Hex as (y & Hy & Hye).
      apply Exists_exists. exists y. split; [assumption|].
      eapply record_error_persists; try eassumption. now intros ->. }
    exists e, w'. split; [|exact He].
    erewrite bind_ok by exact E. now erewrite bind_raise by exact E'.
  - exists e, w1. split; [now erewrite bind_raise by exact E|].
    destruct (raises_deserialize_item cls x Hcls w e w1 E)
      as [[?|[?|?]] Hna]; auto.
    now destruct (Hna Hx).
Qed.




(** * Further properties of the serializers *)

(** ** [ObservationSerializer] on its own *)

(** X1.  Round trip of observations.  For every sequence of observations,
    [ObservationSerializer.serialize] makes one new dictionary
    [{'day': ..., 'value': ...}] per observation, in order, and touches
    nothing else; [ObservationSerializer.deserialize] on its result returns
    instances equal to the input and changes nothing at all. *)
Theorem observation_round_trip (os : list observation) (w : world) :
  exists data w1,
    serialize ObservationSerializer (VList (map observation_obj os)) w
    = (Ok data, w1)
    /\ heap w1 = heap w ++ map observation_dict os
    /\ files w1 = files w
    /\ deserialize ObservationSerializer data w1
       = (Ok (VList (map observation_obj os)), w1).
Proof.
  exists (VList (map VDict (seq (length (heap w)) (length os)))),
    (set_heap (heap w ++ map observation_dict os) w).
  split; [|split; [reflexivity | split; [reflexivity|]]].
  - unfold serialize. cbn [resolve mro defines List.find].
    unfold ObservationSerializer_serialize. simpl iterate.
    erewrite bind_ok by reflexivity.
    erewrite bind_ok by apply for_each_observation_record.
    reflexivity.
  - unfold deserialize. cbn [resolve mro defines List.find].
    apply ObservationSerializer_deserialize_cells. simpl.
    pose proof (observation_cells_alloc (heap w) os []) as H.
    now rewrite app_nil_r in H.
Qed.

(** X2.  [ObservationSerializer.deserialize] is free of effects on every
    input: whether it returns or raises, the heap and the files are those
    it started with; and the only exception it lets out is [TypeError]. *)
Theorem ObservationSerializer_deserialize_pure (data : pyval) (w : world) :
  snd (deserialize ObservationSerializer data w) = w
  /\ forall e, fst (deserialize ObservationSerializer data w) = Raise e ->
       e = TypeError.
Proof.
  unfold deserialize. cbn [resolve mro defines List.find]. split.
  - apply ObservationSerializer_deserialize_world.
  - intros e E.
    destruct (ObservationSerializer_deserialize ObservationSerializer data w)
      as [r w'] eqn:Er.
    simpl in E. subst r. symmetry.
    eapply raises_ObservationSerializer_deserialize, Er.
Qed.

(** ** Files *)

(** X3.  [load] on a path at which there is no file raises
    [FileNotFoundError] and changes nothing. *)
Theorem load_missing_file (path file : string) (w : world) :
  locate w for_reading path = Ok file ->
  files w !! file = None ->
  load PatientJSONSerializer path w = (Raise FileNotFoundError, w).
Proof.
  intros Hl Hp. unfold load. cbn [resolve mro defines List.find].
  unfold PatientJSONSerializer_load, json_load.
  erewrite bind_raise; [reflexivity|].
  erewrite bind_raise; [reflexivity|].
  unfold read. now rewrite Hl, Hp.
Qed.

Lemma load_missing_file_witness :
  locate empty_world for_reading "patients.json" = Ok "patients.json"
  /\ files empty_world !! "patients.json" = None
  /\ load PatientJSONSerializer "patients.json" empty_world
     = (Raise FileNotFoundError, empty_world).
Proof.
  split; [reflexivity|]. split; [reflexivity|].
  apply (load_missing_file "patients.json" "patients.json" empty_world);
    reflexivity.
Defined.

(** X4.  The last [save] to a file wins, and a [save] to one file leaves
    what was saved in another file readable.  The files are what the paths
    lead to: after saving [ps1] at [path1] and then [ps2] at [path2], both
    of which can be opened, [load] at [path1] returns [ps2] if the two
    paths lead to the same file, also when the paths differ as [a.json]
    and [./a.json] do, and [ps1] if they lead to different files. *)
Theorem save_then_save (ps1 ps2 : list patient)
  (path1 path2 file1 file2 : string) (w : world) :
  locate w for_writing path1 = Ok file1 ->
  locate w for_writing path2 = Ok file2 ->
  locate w for_reading path1 = Ok file1 ->
  exists w1 w2 w3,
    save PatientJSONSerializer (VList (map patient_obj ps1)) path1 w
    = (Ok VNone, w1)
    /\ save PatientJSONSerializer (VList (map patient_obj ps2)) path2 w1
       = (Ok VNone, w2)
    /\ load PatientJSONSerializer path1 w2
       = (Ok (VList (map patient_obj
                       (if String.eqb file1 file2 then ps2 else ps1))), w3).
Proof.
  intros H1 H2 H3.
  destruct (save_patients ps1 path1 file1 w H1) as (w1 & E1 & F1 & L1).
  destruct (save_patients ps2 path2 file2 w1) as (w2 & E2 & F2 & L2);
    [now rewrite L1|].
  destruct (load_patients (if String.eqb file1 file2 then ps2 else ps1)
              path1 file1 w2) as (w3 & E3 & _).
  - now rewrite L2, L1.
  - rewrite F2, F1. destruct (String.eqb_spec file1 file2) as [->|Hne].
    + apply lookup_insert_eq.
    + rewrite lookup_insert_ne by congruence. apply lookup_insert_eq.
  - now exists w1, w2, w3.
Qed.

(** The theorem at two paths that lead to one file. *)
Lemma save_then_save_witness :
  locate empty_world for_writing "a.json" = Ok "a.json"
  /\ locate empty_world for_writing "./a.json" = Ok "a.json"
  /\ locate empty_world for_reading "a.json" = Ok "a.json"
  /\ exists w1 w2 w3,
       save PatientJSONSerializer (VList (map patient_obj [alice]))
         "a.json" empty_world = (Ok VNone, w1)
       /\ save PatientJSONSerializer (VList (map patient_obj [bob]))
            "./a.json" w1 = (Ok VNone, w2)
       /\ load PatientJSONSerializer "a.json" w2
          = (Ok (VList (map patient_obj [bob])), w3).
Proof.
  split; [reflexivity|]. split; [reflexivity|]. split; [reflexivity|].
  apply (save_then_save [alice] [bob] "a.json" "./a.json" "a.json" "a.json"
           empty_world); reflexivity.
Defined.

(** ** Which dictionaries [deserialize] and [load] write to *)

Lemma touches_only_refl xs w : touches_only xs w w.
Proof. split; auto. Qed.

Lemma touches_only_trans xs w1 w2 w3 :
  touches_only xs w1 w2 -> touches_only xs w2 w3 -> touches_only xs w1 w3.
Proof.
  intros [F1 H1] [F2 H2]. split; [congruence|].
  intros l Hl. now rewrite H2, H1.
Qed.

Lemma touches_write_dict xs l d :
  In (VDict l) xs -> preserves (touches_only xs) (write_dict l d).
Proof.
  intros Hin w. split; [reflexivity|]. intros l' Hl'. simpl.
  apply list_lookup_insert_ne. congruence.
Qed.

Lemma touches_pop xs item k :
  In item xs -> preserves (touches_only xs) (pop item k).
Proof.
  intros Hin.
  pose proof (touches_only_refl xs) as Hr.
  pose proof (touches_only_trans xs) as Ht.
  destruct item; simpl; auto using preserves_raise.
  apply preserves_bind; auto using preserves_read_dict. intros d.
  destruct (dict_pop k d) as [[x d']|]; auto using preserves_raise.
  apply preserves_bind; auto using touches_write_dict, preserves_ret.
Qed.

Lemma touches_setitem xs item k x :
  In item xs -> preserves (touches_only xs) (setitem item k x).
Proof.
  intros Hin.
  pose proof (touches_only_refl xs) as Hr.
  pose proof (touches_only_trans xs) as Ht.
  destruct item; simpl; auto using preserves_raise.
  apply preserves_bind; auto using preserves_read_dict, touches_write_dict.
Qed.

Lemma touches_deserialize_item xs cls item :
  In item xs -> preserves (touches_only xs) (deserialize_item cls item).
Proof.
  intros Hin.
  pose proof (touches_only_refl xs) as Hr.
  pose proof (touches_only_trans xs) as Ht.
  apply preserves_bind; auto using touches_pop. intros popped.
  apply preserves_bind;
    auto using preserves_ObservationSerializer_deserialize. intros obs.
  apply preserves_bind; auto using touches_setitem. intros _.
  now apply preserves_build.
Qed.

Lemma touches_for_each xs cls ys :
  (forall y, In y ys -> In y xs) ->
  preserves (touches_only xs) (for_each (deserialize_item cls) ys).
Proof.
  intros Hsub.
  apply (preserves_for_each _ (touches_only_refl xs) (touches_only_trans xs)).
  intros y Hy. apply touches_deserialize_item. now apply Hsub.
Qed.

Lemma touches_PatientSerializer_deserialize cls data :
  preserves (touches_only (elements data))
    (PatientSerializer_deserialize cls data).
Proof.
  pose proof (touches_only_refl (elements data)) as Hr.
  pose proof (touches_only_trans (elements data)) as Ht.
  apply preserves_bind_ok; auto using preserves_iterate.
  intros xs w w' E.
  apply preserves_bind; auto using preserves_ret.
  apply iterate_inv in E as [->|[ss ->]].
  - now apply touches_for_each.
  - apply preserves_for_each; auto.
    intros x Hx w0. apply in_map_iff in Hx as (s & <- & _).
    rewrite deserialize_item_not_dict by reflexivity. apply Hr.
Qed.

Lemma touches_deserialize cls data :
  preserves (touches_only (elements data)) (deserialize cls data).
Proof.
  destruct cls; unfold deserialize; simpl.
  - apply preserves_raise, touches_only_refl.
  - apply preserves_ObservationSerializer_deserialize;
      auto using touches_only_refl.
    apply touches_only_trans.
  - apply touches_PatientSerializer_deserialize.
  - apply touches_PatientSerializer_deserialize.
Qed.

(** What [json.load] builds is new: every dictionary in its result was made
    by the call. *)
Lemma made_since_le n m xs : n <= m -> made_since m xs -> made_since n xs.
Proof. intros Hle H l Hl. specialize (H l Hl). lia. Qed.

Lemma grows_length w w' : grows w w' -> length (heap w) <= length (heap w').
Proof. intros [_ [new ->]]. rewrite length_app. lia. Qed.

Lemma reify_new j :
  forall w, exists v w',
    reify j w = (Ok v, w')
    /\ grows w w'
    /\ made_since (length (heap w)) (v :: elements v).
Proof.
  induction j as [| b | z | s | xs IH | kvs IH | x] using json_ind'; intros w;
    try (eexists _, w; split; [reflexivity|]; split; [apply grows_refl|];
         intros l [Hl|[]]; discriminate).
  - assert (H : exists vs w', for_each reify xs w = (Ok vs, w')
               /\ grows w w' /\ made_since (length (heap w)) vs).
    { clear -IH. revert w.
      induction IH as [|x xs Hx _ IHxs]; intros w.
      - exists [], w. split; [reflexivity|].
        split; [apply grows_refl | intros l []].
      - destruct (Hx w) as (v & w1 & E1 & G1 & N1).
        destruct (IHxs w1) as (vs & w2 & E2 & G2 & N2).
        exists (v :: vs), w2. cbn [for_each].
        erewrite bind_ok by exact E1. erewrite bind_ok by exact E2.
        split; [reflexivity|].
        split; [eapply grows_trans; eassumption|].
        intros l [Hl|Hl].
        + apply N1. now left.
        + apply grows_length in G1. specialize (N2 l Hl). lia. }
    destruct H as (vs & w' & E & G & N).
    exists (VList vs), w'. cbn [reify]. erewrite bind_ok by exact E.
    split; [reflexivity|]. split; [assumption|].
    intros l [Hl|Hl]; [discriminate | now apply N].
  - assert (H : exists d w',
               for_each (fun kv => v <~ reify (snd kv) ;; ret (fst kv, v))
                 kvs w = (Ok d, w')
               /\ grows w w').
    { clear -IH. revert w.
      induction IH as [|kv kvs Hx _ IHxs]; intros w.
      - exists [], w. split; [reflexivity | apply grows_refl].
      - destruct (Hx w) as (v & w1 & E1 & G1 & _).
        destruct (IHxs w1) as (d & w2 & E2 & G2).
        exists ((fst kv, v) :: d), w2. cbn [for_each].
        erewrite bind_ok by (erewrite bind_ok by exact E1; reflexivity).
        erewrite bind_ok by exact E2.
        split; [reflexivity | eapply grows_trans; eassumption]. }
    destruct H as (d & w' & E & G).
    eexists _, _. cbn [reify]. erewrite bind_ok by exact E.
    split; [reflexivity|]. split.
    + eapply grows_trans; [exact G | apply preserves_new_dict].
    + intros l [Hl|[]]. inversion Hl; subst.
      now apply grows_length.
Qed.

(** X5.  [load] reads only.  On every path and in every world, whether it
    returns or raises, [load] leaves every file as it was and every
    dictionary that existed before the call as it was: the dictionaries
    [deserialize] pops from are those [json.load] has just made. *)
Theorem load_keeps_the_world (cls : class) (path : string) (w : world) :
  files (snd (load cls path w)) = files w
  /\ forall l, l < length (heap w) ->
       heap (snd (load cls path w)) !! l = heap w !! l.
Proof.
  destruct cls; try (split; reflexivity).
  unfold load. cbn [resolve mro defines List.find].
  unfold PatientJSONSerializer_load, json_load, read, bind.
  destruct (locate w for_reading path) as [file|e]; [|split; reflexivity].
  destruct (files w !! file) as [text|]; [|split; reflexivity].
  destruct (json_loads (list_ascii_of_string text)) as [j|e];
    [|split; reflexivity].
  cbn [lift ret].
  destruct (reify_new j w) as (v & w1 & -> & [F1 [new H1]] & N).
  pose proof (touches_deserialize PatientJSONSerializer v w1) as [F2 H2].
  split; [congruence|].
  intros l Hl. rewrite H2.
  - rewrite H1. now apply lookup_app_l.
  - intros Hin. assert (length (heap w) <= l); [|lia].
    apply N. now right.
Qed.

(** ** Which dictionaries [save] writes to *)

Lemma extends_refl w : extends w w.
Proof. exists []. now rewrite app_nil_r. Qed.

Lemma extends_trans w1 w2 w3 : extends w1 w2 -> extends w2 w3 -> extends w1 w3.
Proof.
  intros [n1 H1] [n2 H2]. exists (n1 ++ n2). now rewrite H2, H1, app_assoc.
Qed.

Lemma extends_write path s : preserves extends (write path s).
Proof. intros w. exists []. simpl. now rewrite app_nil_r. Qed.

Lemma extends_json_dump obj path : preserves extends (json_dump obj path).
Proof.
  intros w. unfold json_dump.
  destruct (encode recursion_limit (heap w) [] obj) as [s [e|]];
    [|apply extends_write].
  apply (preserves_bind _ extends_trans); [apply extends_write|].
  intros _. apply preserves_raise, extends_refl.
Qed.

Lemma extends_serialize cls instances : preserves extends (serialize cls instances).
Proof. intros w. now destruct (grows_serialize cls instances w) as [_ H]. Qed.

(** X6.  [save] writes to no dictionary.  On every class, argument, path
    and world, whether it returns or raises, the heap after [save] is the
    heap before it followed by the dictionaries [serialize] has made. *)
Theorem save_keeps_the_heap (cls : class) (instances : pyval) (path : string)
  (w : world) :
  exists new, heap (snd (save cls instances path w)) = heap w ++ new.
Proof.
  change (extends w (snd (save cls instances path w))).
  destruct cls; try apply extends_refl.
  unfold save. cbn [resolve mro defines List.find].
  revert w. change (preserves extends
                      (PatientJSONSerializer_save PatientJSONSerializer
                         instances path)).
  apply (preserves_bind _ extends_trans).
  { intros w. exists []. unfold open_w.
    destruct (locate w for_writing path); simpl; now rewrite app_nil_r. }
  intros file. apply (preserves_bind _ extends_trans);
    [apply extends_serialize|].
  intros data. apply (preserves_bind _ extends_trans);
    [apply extends_json_dump|].
  intros _. apply preserves_ret, extends_refl.
Qed.

(** ** Deserializing the same dictionaries again *)

Lemma patient_cells_insert h l d p refs ps :
  patient_cell h (VDict l) p ->
  Forall2 (patient_cell h) refs ps -> ~ In (VDict l) refs ->
  Forall2 (patient_cell (<[l := d]> h)) refs ps.
Proof.
  intros Hp. induction 1 as [|v p' refs ps Hv _ IH]; intros Hni;
    constructor.
  - eapply patient_cell_insert; [eassumption..|].
    intros ->. apply Hni. now left.
  - apply IH. intros Hin. apply Hni. now right.
Qed.

Lemma for_each_deserialize_spent cls refs ps :
  patient_class cls ->
  forall w,
  Forall2 (patient_cell (heap w)) refs ps -> NoDup refs ->
  exists w',
    for_each (deserialize_item cls) refs w = (Ok (map patient_obj ps), w')
    /\ Forall2 (spent_cell (heap w')) refs ps.
Proof.
  intros Hcls w H. revert w H.
  induction refs as [|v refs IH] in ps |- *; intros w H Hnd;
    inversion H as [|? p ? ps' Hv Hrest]; subst; simpl.
  - exists w. split; [reflexivity | constructor].
  - pose proof Hv as (l & ovs & -> & Hl & _).
    apply NoDup_cons in Hnd as [Hni Hnd].
    assert (Hni' : ~ In (VDict l) refs).
    { intros Hin. apply Hni. now apply list_elem_of_In. }
    set (d := [("name", VStr (name p));
               ("observations",
                VList (map observation_obj (observations p)))]) in *.
    destruct (IH ps' (set_heap (<[l := d]> (heap w)) w)) as (w' & E & S);
      [|assumption|].
    { simpl. eapply patient_cells_insert; eassumption. }
    exists w'. split.
    + erewrite bind_ok by (apply deserialize_item_cell; eassumption).
      erewrite bind_ok by eassumption. reflexivity.
    + constructor; [|assumption].
      exists l. split; [reflexivity|].
      pose proof (touches_for_each refs cls refs (fun y Hy => Hy)
                    (set_heap (<[l := d]> (heap w)) w)) as [_ Ht].
      rewrite E in Ht. simpl in Ht. rewrite Ht by assumption.
      apply list_lookup_insert_eq. eapply lookup_lt_Some, Hl.
Qed.

Lemma deserialize_item_spent cls w l p :
  patient_class cls ->
  spent_cell (heap w) (VDict l) p ->
  if no_observations p
  then deserialize_item cls (VDict l) w = (Ok (patient_obj p), w)
  else fst (deserialize_item cls (VDict l) w) = Raise TypeError.
Proof.
  intros Hcls (l' & E & Hl). inversion E; subst l'; clear E.
  assert (Hlt : l < length (heap w)) by (eapply lookup_lt_Some; eassumption).
  unfold deserialize_item.
  erewrite bind_ok; cycle 1.
  { unfold pop. erewrite bind_ok by (apply read_dict_ok; eassumption).
    simpl. reflexivity. }
  unfold no_observations, patient_obj.
  destruct (observations p) as [|o os]; cbn [map].
  - erewrite bind_ok by reflexivity.
    erewrite bind_ok; cycle 1.
    { unfold setitem. erewrite bind_ok; cycle 1.
      { apply read_dict_ok. simpl. now apply list_lookup_insert_eq. }
      simpl. unfold write_dict, set_heap. simpl.
      rewrite list_insert_insert_eq, list_insert_id by assumption.
      reflexivity. }
    unfold build. replace (model cls) with (@ret models.class models.Patient)
      by (destruct Hcls; subst; reflexivity).
    erewrite bind_ok by reflexivity.
    erewrite bind_ok by (unfold unpack; apply read_dict_ok; exact Hl).
    destruct w. reflexivity.
  - erewrite bind_raise; reflexivity.
Qed.

Lemma for_each_spent cls refs ps :
  patient_class cls ->
  forall w, Forall2 (spent_cell (heap w)) refs ps ->
  if forallb no_observations ps
  then for_each (deserialize_item cls) refs w = (Ok (map patient_obj ps), w)
  else fst (for_each (deserialize_item cls) refs w) = Raise TypeError.
Proof.
  intros Hcls w. induction 1 as [|v p refs ps Hv _ IH]; [reflexivity|].
  pose proof Hv as (l & -> & _).
  apply (deserialize_item_spent cls) in Hv; [|assumption].
  cbn [forallb for_each map].
  destruct (no_observations p); cbn [andb].
  - erewrite bind_ok by exact Hv.
    destruct (forallb no_observations ps).
    + erewrite bind_ok by exact IH. reflexivity.
    + unfold bind.
      destruct (for_each (deserialize_item cls) refs w) as [[r|e] w'];
        [discriminate | exact IH].
  - unfold bind.
    destruct (deserialize_item cls (VDict l) w) as [[r|e] w'];
      [discriminate|].
    simpl in *. congruence.
Qed.

(** X7.  [PatientSerializer.deserialize] cannot be run twice on the same
    data.  Take what [serialize] makes of any sequence of patients and
    deserialize it: the first call returns the patients.  A second call on
    the same data raises [TypeError] as soon as one patient has an
    observation, because the first call has put the instances where the
    dictionaries were; it returns the patients again, and changes nothing,
    only when no patient has any observation. *)
Theorem deserialize_twice (ps : list patient) (w : world) :
  exists data w1 w2,
    serialize PatientSerializer (VList (map patient_obj ps)) w = (Ok data, w1)
    /\ deserialize PatientSerializer data w1
       = (Ok (VList (map patient_obj ps)), w2)
    /\ if forallb no_observations ps
       then deserialize PatientSerializer data w2
            = (Ok (VList (map patient_obj ps)), w2)
       else fst (deserialize PatientSerializer data w2) = Raise TypeError.
Proof.
  assert (Hcls : patient_class PatientSerializer) by now left.
  destruct (PatientSerializer_serialize_cells PatientSerializer ps w)
    as (refs & w1 & E1 & _ & C & N).
  destruct (for_each_deserialize_spent PatientSerializer refs ps Hcls w1 C N)
    as (w2 & E2 & S).
  pose proof (for_each_spent PatientSerializer refs ps Hcls w2 S) as E3.
  exists (VList refs), w1, w2. split; [exact E1|].
  unfold deserialize. cbn [resolve mro defines List.find].
  unfold PatientSerializer_deserialize. simpl iterate. split.
  - erewrite bind_ok by reflexivity. erewrite bind_ok by exact E2.
    reflexivity.
  - destruct (forallb no_observations ps).
    + erewrite bind_ok by reflexivity. erewrite bind_ok by exact E3.
      reflexivity.
    + erewrite bind_ok by reflexivity. unfold bind.
      destruct (for_each (deserialize_item PatientSerializer) refs w2)
        as [[r|e] w3]; [discriminate|].
      simpl in *. congruence.
Qed.

(** ** Records with a field the constructor does not take *)

Lemma unknown_field_not_observations k :
  ~ In k (models.params models.Patient) -> k <> "observations".
Proof. intros Hnp ->. apply Hnp. simpl. tauto. Qed.

Lemma unknown_field_not_ok cls l w v w' :
  patient_class cls ->
  unknown_field (heap w) (VDict l) ->
  deserialize_item cls (VDict l) w <> (Ok v, w').
Proof.
  intros Hcls (l' & k & El & Hk & Hnp) Eok. inversion El; subst l'; clear El.
  apply deserialize_item_inv in Eok
    as (ov & d' & objs & Ep & _ & _ & _ & attrs & Eb); [|assumption].
  pose proof (unknown_field_not_observations k Hnp) as Hne.
  apply bind_args_ok in Eb. apply Eb. right. exists k. split; [|assumption].
  apply dict_get_keys.
  rewrite dict_get_set_ne, (dict_get_pop_ne k _ _ _ _ Ep) by assumption.
  now apply dict_get_keys.
Qed.

(** The field stays where it is while another record, or the same
    dictionary met earlier in the list, is deserialized. *)
Lemma unknown_field_persists cls x w y :
  unknown_field (heap w) y ->
  unknown_field (heap (snd (deserialize_item cls x w))) y.
Proof.
  intros (l & k & -> & Hk & Hnp). exists l, k.
  split; [reflexivity|]. split; [|assumption].
  pose proof (unknown_field_not_observations k Hnp) as Hne.
  destruct (rewrites_deserialize_item [x] cls x (or_introl eq_refl) w)
    as (_ & _ & H).
  specialize (H l k (or_introl Hne)). unfold entry in H.
  apply dict_get_keys. rewrite H. now apply dict_get_keys.
Qed.

(** X8.  A patient record with an unknown field is rejected.  On a list of
    dictionaries one of which has a key other than [name] and
    [observations], [PatientSerializer.deserialize] raises [KeyError] or
    [TypeError]: the call of the constructor on the unpacked dictionary
    does not take the key, unless an earlier step has failed already. *)
Theorem unknown_field_rejected (cls : class) (xs : list pyval) (w : world) :
  patient_class cls ->
  Forall (fun x => is_dict x = true) xs ->
  Exists (unknown_field (heap w)) xs ->
  exists e w',
    deserialize cls (VList xs) w = (Raise e, w')
    /\ (e = KeyError \/ e = TypeError).
Proof.
  intros Hcls Hd Hex.
  rewrite deserialize_patient_class by assumption.
  unfold PatientSerializer_deserialize. simpl iterate.
  erewrite bind_ok by reflexivity.
  assert (H : exists e w',
             for_each (deserialize_item cls) xs w = (Raise e, w')
             /\ (e = KeyError \/ e = TypeError)).
  { revert w Hex. induction Hd as [|x xs Hx Hxs IH]; intros w Hex;
      [inversion Hex|].
    simpl. destruct (deserialize_item cls x w) as [[v|e] w1] eqn:E.
    - destruct x as [| | | | |l0| |]; try discriminate.
      destruct (IH w1) as (e & w' & E' & He).
      { apply Exists_cons in Hex as [Hex|Hex].
        - now destruct (unknown_field_not_ok cls l0 w v w1).
        - apply Exists_exists in Hex as (y & Hy & Hye).
          apply Exists_exists. exists y. split; [assumption|].
          apply (unknown_field_persists cls (VDict l0) w) in Hye.
          now rewrite E in Hye. }
      exists e, w'. split; [|exact He].
      erewrite bind_ok by exact E. now erewrite bind_raise by exact E'.
    - exists e, w1. split; [now erewrite bind_raise by exact E|].
      destruct (raises_deserialize_item cls x Hcls w e w1 E)
        as [[?|[?|?]] Hna]; auto.
      now destruct (Hna Hx). }
  destruct H as (e & w' & E & He). exists e, w'.
  split; [now erewrite bind_raise by exact E | exact He].
Qed.

(** The theorem at the record
    [{'name': 'Alice', 'observations': [], 'age': 30}]. *)
Lemma unknown_field_rejected_witness :
  unknown_field (heap aged_world) (VDict 0)
  /\ exists e w',
       deserialize PatientSerializer (VList [VDict 0]) aged_world
       = (Raise e, w')
       /\ (e = KeyError \/ e = TypeError).
Proof.
  assert (H : unknown_field (heap aged_world) (VDict 0)).
  { exists 0, "age". split; [reflexivity|]. split.
    - simpl. tauto.
    - simpl. intros [?|[?|[]]]; discriminate. }
  split; [exact H|].
  apply (unknown_field_rejected PatientSerializer [VDict 0] aged_world).
  - now left.
  - repeat constructor.
  - now constructor.
Defined.

(** ** The exceptions of [serialize] *)

Lemma raises_getattr v a : raises_only (eq AttributeError) (getattr v a).
Proof.
  destruct v; simpl; try now apply raises_only_raise.
  destruct (dict_get a attrs);
    [apply raises_only_ret | now apply raises_only_raise].
Qed.

Lemma raises_new_dict P d : raises_only P (new_dict d).
Proof. intros w e w' E. discriminate. Qed.

Lemma raises_getattr_serialize v a : raises_only serialize_error (getattr v a).
Proof.
  eapply raises_only_impl; [|apply raises_getattr]. intros e <-. now left.
Qed.

Lemma raises_iterate_serialize v : raises_only serialize_error (iterate v).
Proof.
  eapply raises_only_impl; [|apply raises_iterate]. intros e <-. now right.
Qed.

Lemma raises_ObservationSerializer_serialize cls v :
  raises_only serialize_error (ObservationSerializer_serialize cls v).
Proof.
  apply raises_only_bind; [apply raises_iterate_serialize|]. intros xs.
  apply raises_only_bind; [|intros; apply raises_only_ret].
  apply raises_only_for_each. intros x.
  apply raises_only_bind; [apply raises_getattr_serialize|]. intros d.
  apply raises_only_bind; [apply raises_getattr_serialize|]. intros y.
  apply raises_new_dict.
Qed.

Lemma raises_PatientSerializer_serialize cls v :
  raises_only serialize_error (PatientSerializer_serialize cls v).
Proof.
  apply raises_only_bind; [apply raises_iterate_serialize|]. intros xs.
  apply raises_only_bind; [|intros; apply raises_only_ret].
  apply raises_only_for_each. intros x.
  apply raises_only_bind; [apply raises_getattr_serialize|]. intros n.
  apply raises_only_bind; [apply raises_getattr_serialize|]. intros obs.
  apply raises_only_bind; [apply raises_ObservationSerializer_serialize|].
  intros o. apply raises_new_dict.
Qed.

Lemma getattr_not_instance v a w :
  is_instance v = false -> getattr v a w = (Raise AttributeError, w).
Proof. destruct v; simpl; intros H; try reflexivity; discriminate. Qed.

(** X9.  The exceptions of [serialize].  On the three concrete
    serializers: [serialize] lets out no exception other than
    [AttributeError] and [TypeError]; an argument that cannot be iterated
    ([None], a number, a single instance) raises [TypeError] and changes
    nothing; and a list one of whose elements is not an instance is never
    serialized: the call raises one of the two exceptions. *)
Theorem serialize_errors :
  (forall cls v w e w',
     cls <> Serializer -> serialize cls v w = (Raise e, w') ->
     e = AttributeError \/ e = TypeError)
  /\ (forall cls v w,
        cls <> Serializer -> is_iterable v = false ->
        serialize cls v w = (Raise TypeError, w))
  /\ (forall cls xs w,
        cls <> Serializer -> Exists (fun x => is_instance x = false) xs ->
        exists e w',
          serialize cls (VList xs) w = (Raise e, w')
          /\ (e = AttributeError \/ e = TypeError)).
Proof.
  assert (H1 : forall cls v, cls <> Serializer ->
                 raises_only serialize_error (serialize cls v)).
  { intros cls v Hcls. destruct cls; [contradiction|..];
      unfold serialize; cbn [resolve mro defines List.find].
    - apply raises_ObservationSerializer_serialize.
    - apply raises_PatientSerializer_serialize.
    - apply raises_PatientSerializer_serialize. }
  split; [|split].
  - intros cls v w e w' Hcls E. exact (H1 cls v Hcls w e w' E).
  - intros cls v w Hcls Hv.
    destruct cls; [contradiction|..]; destruct v; try discriminate;
      reflexivity.
  - intros cls xs w Hcls Hex.
    assert (H : exists e w', serialize cls (VList xs) w = (Raise e, w')).
    { destruct cls; [contradiction|..];
        unfold serialize; cbn [resolve mro defines List.find];
        unfold ObservationSerializer_serialize, PatientSerializer_serialize;
        simpl iterate; erewrite bind_ok by reflexivity.
      - destruct (for_each_raises observation_record xs) with (w := w)
          as (e & w' & E).
        { eapply Exists_impl; [exact Hex|]. intros x Hx w0.
          exists AttributeError, w0. unfold observation_record.
          erewrite bind_raise; [reflexivity|].
          now apply getattr_not_instance. }
        exists e, w'. now erewrite bind_raise by exact E.
      - destruct (for_each_raises patient_record xs) with (w := w)
          as (e & w' & E).
        { eapply Exists_impl; [exact Hex|]. intros x Hx w0.
          exists AttributeError, w0. unfold patient_record.
          erewrite bind_raise; [reflexivity|].
          now apply getattr_not_instance. }
        exists e, w'. now erewrite bind_raise by exact E.
      - destruct (for_each_raises patient_record xs) with (w := w)
          as (e & w' & E).
        { eapply Exists_impl; [exact Hex|]. intros x Hx w0.
          exists AttributeError, w0. unfold patient_record.
          erewrite bind_raise; [reflexivity|].
          now apply getattr_not_instance. }
        exists e, w'. now erewrite bind_raise by exact E. }
    destruct H as (e & w' & E). exists e, w'. split; [exact E|].
    exact (H1 cls (VList xs) Hcls w e w' E).
Qed.

(** * The first version of the serializers *)

Lemma draft_for_each_patient_record fs w :
  for_each draft.patient_record (map patient_instance fs) w
  = (Ok (map VDict (seq (length (heap w)) (length fs))),
     set_heap (heap w ++ map patient_fields fs) w).
Proof.
  revert w. induction fs as [|f fs IH]; intros w; simpl.
  - unfold ret, set_heap. rewrite app_nil_r. now destruct w.
  - erewrite bind_ok by reflexivity.
    erewrite bind_ok by apply IH.
    unfold ret, set_heap. simpl. rewrite length_app. simpl.
    rewrite Nat.add_1_r, <- app_assoc. reflexivity.
Qed.

Lemma patient_fields_alloc h fs rest :
  Forall2 (fun v f => exists l, v = VDict l
             /\ (h ++ map patient_fields fs ++ rest) !! l
                = Some (patient_fields f))
    (map VDict (seq (length h) (length fs))) fs.
Proof.
  revert h. induction fs as [|f fs IH]; intros h; simpl; constructor.
  - exists (length h). split; [reflexivity|]. apply list_lookup_middle.
    reflexivity.
  - specialize (IH (h ++ [patient_fields f])).
    rewrite <- app_assoc, length_app, Nat.add_1_r in IH. exact IH.
Qed.

Lemma draft_build_fields cls w l f :
  heap w !! l = Some (patient_fields f) ->
  draft.build cls (VDict l) w = (Ok (patient_instance f), w).
Proof.
  intros Hl. unfold draft.build.
  replace (draft.model cls) with (@ret models.class models.Patient)
    by (destruct cls; reflexivity).
  erewrite bind_ok by reflexivity.
  erewrite bind_ok by (unfold unpack; apply read_dict_ok; exact Hl).
  reflexivity.
Qed.

Lemma draft_for_each_build cls w refs fs :
  Forall2 (fun v f => exists l, v = VDict l
             /\ heap w !! l = Some (patient_fields f)) refs fs ->
  for_each (draft.build cls) refs w = (Ok (map patient_instance fs), w).
Proof.
  induction 1 as [|v f refs fs (l & -> & Hl) _ IH]; simpl; [reflexivity|].
  erewrite bind_ok by (apply draft_build_fields; exact Hl).
  erewrite bind_ok by exact IH. reflexivity.
Qed.

Lemma draft_serialize_fields cls fs w :
  draft.PatientSerializer_serialize cls (VList (map patient_instance fs)) w
  = (Ok (VList (map VDict (seq (length (heap w)) (length fs)))),
     set_heap (heap w ++ map patient_fields fs) w).
Proof.
  unfold draft.PatientSerializer_serialize. simpl iterate.
  erewrite bind_ok by reflexivity.
  erewrite bind_ok by apply draft_for_each_patient_record. reflexivity.
Qed.

(** X10.  The first version in memory.  For instances of [Patient] with
    any values whatever as name and observations, [serialize] of the first
    version makes one new dictionary per instance and touches nothing
    else, and [deserialize] on its result returns the instances and
    changes nothing: unlike the final version it leaves the dictionaries
    it is given as they are. *)
Theorem draft_round_trip (fs : list (pyval * pyval)) (w : world) :
  exists data w1,
    draft.serialize draft.PatientSerializer
      (VList (map patient_instance fs)) w = (Ok data, w1)
    /\ heap w1 = heap w ++ map patient_fields fs
    /\ files w1 = files w
    /\ draft.deserialize draft.PatientSerializer data w1
       = (Ok (VList (map patient_instance fs)), w1).
Proof.
  eexists _, _. split; [|split; [|split]].
  - unfold draft.serialize. cbn [draft.resolve draft.mro draft.defines List.find].
    apply draft_serialize_fields.
  - reflexivity.
  - reflexivity.
  - unfold draft.deserialize.
    cbn [draft.resolve draft.mro draft.defines List.find].
    unfold draft.PatientSerializer_deserialize. simpl iterate.
    erewrite bind_ok by reflexivity.
    erewrite bind_ok; [reflexivity|].
    apply draft_for_each_build. simpl.
    pose proof (patient_fields_alloc (heap w) fs []) as H.
    now rewrite app_nil_r in H.
Qed.

Lemma patient_obj_fields ps :
  map patient_obj ps = map patient_instance (map fields_of ps).
Proof. now rewrite map_map. Qed.

Lemma draft_serialize_spent cls ps w :
  exists refs w1,
    draft.PatientSerializer_serialize cls (VList (map patient_obj ps)) w
    = (Ok (VList refs), w1)
    /\ files w1 = files w
    /\ Forall2 (spent_cell (heap w1)) refs ps.
Proof.
  eexists _, _. split; [|split].
  - rewrite patient_obj_fields. apply draft_serialize_fields.
  - reflexivity.
  - simpl. rewrite length_map.
    pose proof (patient_fields_alloc (heap w) (map fields_of ps) []) as H.
    rewrite app_nil_r, length_map in H.
    apply Forall2_fmap_r in H.
    eapply Forall2_impl; [exact H|]. intros v p (l & -> & Hl).
    exists l. split; [reflexivity | exact Hl].
Qed.

Lemma spent_patient_cell h v p :
  spent_cell h v p -> no_observations p = true -> patient_cell h v p.
Proof.
  intros (l & -> & Hl) Hn. unfold no_observations in Hn.
  destruct (observations p) as [|o os] eqn:Eo; [|discriminate].
  exists l, []. split; [reflexivity|]. split; [exact Hl|].
  rewrite Eo. constructor.
Qed.

Lemma encode_spent_cell f h v p :
  spent_cell h v p ->
  if no_observations p
  then encode (S (S (S (S f)))) h [] v = (print (patient_json p), None)
  else snd (encode (S (S (S (S f)))) h [] v) = Some TypeError.
Proof.
  intros Hs. destruct (no_observations p) eqn:Hn.
  - apply encode_patient_cell. now apply spent_patient_cell.
  - destruct Hs as (l & -> & Hl). unfold no_observations in Hn.
    destruct (observations p) as [|o os]; [discriminate|].
    erewrite encode_dict_S by (eassumption || reflexivity).
    cbn [encode_pairs map].
    change (encode (S (S (S f))) h [l] (VStr (name p)))
      with (encode_string (name p), @None exc).
    rewrite encode_list_S. cbn [encode_items].
    reflexivity.
Qed.

Lemma encode_items_spent f h refs ps :
  Forall2 (spent_cell h) refs ps ->
  forallb no_observations ps = false ->
  forall first,
    snd (encode_items (encode (S (S (S (S f)))) h []) first refs)
    = Some TypeError.
Proof.
  induction 1 as [|v p refs ps Hv _ IH]; [discriminate|].
  intros Hn first. cbn [forallb] in Hn. cbn [encode_items].
  apply (encode_spent_cell f) in Hv.
  destruct (no_observations p).
  - rewrite Hv. specialize (IH Hn false).
    destruct (encode_items _ false refs) as [s' r]. exact IH.
  - destruct (encode (S (S (S (S f)))) h [] v) as [s [e|]];
      [|discriminate].
    exact Hv.
Qed.

Lemma json_dump_spent refs ps path w :
  Forall2 (spent_cell (heap w)) refs ps ->
  forallb no_observations ps = false ->
  exists text,
    json_dump (VList refs) path w
    = (Raise TypeError, set_files (<[path := text]> (files w)) w).
Proof.
  intros Hs Hn. unfold json_dump.
  change recursion_limit with (S (S (S (S (S 995))))).
  destruct refs as [|v refs]; [inversion Hs; subst; discriminate|].
  rewrite encode_list_S.
  pose proof (encode_items_spent 995 _ _ _ Hs Hn true) as He.
  destruct (encode_items _ true (v :: refs)) as [s r].
  simpl in He. subst r. eexists. reflexivity.
Qed.

Lemma draft_save_spent cls ps path file w :
  locate w for_writing path = Ok file ->
  forallb no_observations ps = false ->
  exists w',
    draft.PatientJSONSerializer_save cls (VList (map patient_obj ps)) path w
    = (Raise TypeError, w')
    /\ exists text, files w' !! file = Some text.
Proof.
  intros Hw Hn.
  unfold draft.PatientJSONSerializer_save, draft.serialize.
  replace (draft.resolve cls a_serialize) with (Some draft.PatientSerializer)
    by (destruct cls; reflexivity).
  cbn [draft.resolve draft.mro draft.defines List.find].
  erewrite bind_ok by (apply open_w_ok; exact Hw).
  destruct (draft_serialize_spent cls ps
              (set_files (<[file := EmptyString]> (files w)) w))
    as (refs & w1 & E & F & S).
  erewrite bind_ok by exact E.
  destruct (json_dump_spent refs ps file w1 S Hn) as (text & Ed).
  erewrite bind_raise by exact Ed.
  eexists. split; [reflexivity|].
  exists text. simpl. apply lookup_insert_eq.
Qed.

(** X11.  The failure the lesson reports for its first version.  When at
    least one patient has an observation, [save] of the first version, on
    a path that can be opened, raises [TypeError]: [serialize] has left
    the [Observation] instances in the dictionaries and [json.dump] cannot
    encode an instance.  The file has been opened by then, so it holds
    some text afterwards. *)
Theorem draft_save_raises (ps : list patient) (path file : string)
  (w : world) :
  locate w for_writing path = Ok file ->
  forallb no_observations ps = false ->
  exists w',
    draft.save draft.PatientJSONSerializer (VList (map patient_obj ps)) path w
    = (Raise TypeError, w')
    /\ exists text, files w' !! file = Some text.
Proof.
  intros Hw Hn. unfold draft.save.
  cbn [draft.resolve draft.mro draft.defines List.find].
  now apply draft_save_spent.
Qed.

(** The theorem at the patients of the lesson's test. *)
Lemma draft_save_raises_witness :
  locate empty_world for_writing "patients.json" = Ok "patients.json"
  /\ forallb no_observations test_serializers.patients = false
  /\ exists w',
       draft.save draft.PatientJSONSerializer
         (VList (map patient_obj test_serializers.patients))
         "patients.json" empty_world
       = (Raise TypeError, w')
       /\ exists text, files w' !! "patients.json" = Some text.
Proof.
  split; [reflexivity|]. split; [reflexivity|].
  apply (draft_save_raises test_serializers.patients "patients.json"
           "patients.json" empty_world); reflexivity.
Defined.

Lemma draft_build_patient_cell cls w v p :
  patient_cell (heap w) v p ->
  exists x, draft.build cls v w = (Ok x, w) /\ half_built (heap w) x p.
Proof.
  intros (l & ovs & -> & Hl & Hos).
  exists (patient_instance (VStr (name p), VList ovs)). split.
  - now apply draft_build_fields.
  - exists ovs. split; [reflexivity | exact Hos].
Qed.

Lemma draft_for_each_build_cells cls w refs ps :
  Forall2 (patient_cell (heap w)) refs ps ->
  exists vs,
    for_each (draft.build cls) refs w = (Ok vs, w)
    /\ Forall2 (half_built (heap w)) vs ps.
Proof.
  induction 1 as [|v p refs ps Hv _ (vs & E & Hh)].
  - exists []. split; [reflexivity | constructor].
  - destruct (draft_build_patient_cell cls w v p Hv) as (x & Ex & Hx).
    exists (x :: vs). split; [|now constructor].
    simpl. erewrite bind_ok by exact Ex. erewrite bind_ok by exact E.
    reflexivity.
Qed.

Lemma draft_load_document ps path file w :
  locate w for_reading path = Ok file ->
  files w !! file = Some (string_of_list_ascii (print (document ps))) ->
  exists vs w',
    draft.PatientJSONSerializer_load draft.PatientJSONSerializer path w
    = (Ok (VList vs), w')
    /\ Forall2 (half_built (heap w')) vs ps
    /\ grows w w'.
Proof.
  intros Hl Hp.
  unfold draft.PatientJSONSerializer_load, json_load.
  destruct (PatientSerializer_serialize_cells PatientJSONSerializer ps w)
    as (refs & w1 & E & G & C & _).
  destruct (draft_for_each_build_cells draft.PatientJSONSerializer w1 refs ps C)
    as (vs & Eb & Hh).
  exists vs, w1. split; [|split; assumption].
  erewrite bind_ok; cycle 1.
  { erewrite bind_ok; cycle 1.
    { erewrite read_ok by eassumption.
      rewrite list_ascii_of_string_of_list_ascii. reflexivity. }
    rewrite json_loads_print by apply nesting_document.
    erewrite bind_ok by reflexivity.
    rewrite (reify_document PatientJSONSerializer). exact E. }
  unfold draft.deserialize.
  cbn [draft.resolve draft.mro draft.defines List.find].
  unfold draft.PatientSerializer_deserialize. simpl iterate.
  erewrite bind_ok by reflexivity. erewrite bind_ok by exact Eb.
  reflexivity.
Qed.

Lemma same_paths_draft_serialize cls v :
  preserves same_paths (draft.PatientSerializer_serialize cls v).
Proof.
  pose proof same_paths_refl as Hr. pose proof same_paths_trans as Ht.
  apply preserves_bind; auto using preserves_iterate. intros xs.
  apply preserves_bind; auto using preserves_ret.
  apply preserves_for_each; auto. intros x _.
  apply preserves_bind; auto using preserves_getattr. intros n.
  apply preserves_bind; auto using preserves_getattr, same_paths_new_dict.
Qed.

Lemma half_built_without_observations h vs ps :
  Forall2 (half_built h) vs ps ->
  forallb no_observations ps = true ->
  vs = map patient_obj ps.
Proof.
  induction 1 as [|v p vs ps (ovs & -> & Hos) _ IH]; [reflexivity|].
  cbn [forallb]. intros [Hn Hrest]%andb_prop. cbn [map].
  rewrite <- IH by assumption. f_equal.
  unfold no_observations in Hn. unfold patient_obj.
  destruct (observations p); [|discriminate]. now inversion Hos.
Qed.

(** X12.  What the first version loads.  From a file in the on-disk format
    (the document of any sequence of patients), [load] of the first
    version returns one [Patient] instance per record, in order and with
    the right name, but the observations of each instance are the
    dictionaries [json.load] built, one per observation with its [day] and
    [value], not [Observation] instances.  No file changes and no existing
    dictionary changes. *)
Theorem draft_load_keeps_dictionaries (ps : list patient)
  (path file : string) (w : world) :
  locate w for_reading path = Ok file ->
  files w !! file = Some (string_of_list_ascii (print (document ps))) ->
  exists vs w',
    draft.load draft.PatientJSONSerializer path w = (Ok (VList vs), w')
    /\ Forall2 (half_built (heap w')) vs ps
    /\ grows w w'.
Proof.
  intros Hl Hp. unfold draft.load.
  cbn [draft.resolve draft.mro draft.defines List.find].
  now apply (draft_load_document ps path file).
Qed.

(** The theorem at the file the final version writes for the spec's
    example. *)
Lemma draft_load_keeps_dictionaries_witness :
  locate example_world for_reading "p.json" = Ok "p.json"
  /\ files example_world !! "p.json"
     = Some (string_of_list_ascii (print (document [alice; bob])))
  /\ exists vs w',
       draft.load draft.PatientJSONSerializer "p.json" example_world
       = (Ok (VList vs), w')
       /\ Forall2 (half_built (heap w')) vs [alice; bob]
       /\ grows example_world w'.
Proof.
  split; [reflexivity|]. split; [reflexivity|].
  apply (draft_load_keeps_dictionaries [alice; bob] "p.json" "p.json"
           example_world); reflexivity.
Defined.

(** X13.  When the first version works.  For patients none of whom has an
    observation, on a path that can be opened for writing and for reading,
    [save] of the first version writes the document of the on-disk format
    and [load] of the first version on that file returns instances equal
    to the input. *)
Theorem draft_round_trip_without_observations (ps : list patient)
  (path file : string) (w : world) :
  locate w for_writing path = Ok file ->
  locate w for_reading path = Ok file ->
  forallb no_observations ps = true ->
  exists w1 w2,
    draft.save draft.PatientJSONSerializer (VList (map patient_obj ps)) path w
    = (Ok VNone, w1)
    /\ files w1 !! file = Some (string_of_list_ascii (print (document ps)))
    /\ draft.load draft.PatientJSONSerializer path w1
       = (Ok (VList (map patient_obj ps)), w2).
Proof.
  intros Hw Hr Hn.
  destruct (draft_serialize_spent draft.PatientJSONSerializer ps
              (set_files (<[file := EmptyString]> (files w)) w))
    as (refs & w0 & E & F & S).
  pose proof (same_paths_draft_serialize draft.PatientJSONSerializer
                (VList (map patient_obj ps))
                (set_files (<[file := EmptyString]> (files w)) w)) as L.
  rewrite E in L. unfold same_paths in L. cbn [snd locate set_files] in L.
  assert (C : Forall2 (patient_cell (heap w0)) refs ps).
  { clear E. induction S as [|v p refs ps Hv _ IH]; constructor.
    - apply spent_patient_cell; [exact Hv|].
      cbn [forallb] in Hn. now apply andb_prop in Hn as [? _].
    - apply IH. cbn [forallb] in Hn. now apply andb_prop in Hn as [_ ?]. }
  assert (Es : exists w1,
             draft.save draft.PatientJSONSerializer
               (VList (map patient_obj ps)) path w = (Ok VNone, w1)
             /\ files w1 !! file
                = Some (string_of_list_ascii (print (document ps)))
             /\ locate w1 = locate w).
  { unfold draft.save.
    cbn [draft.resolve draft.mro draft.defines List.find].
    unfold draft.PatientJSONSerializer_save, draft.serialize.
    cbn [draft.resolve draft.mro draft.defines List.find].
    erewrite bind_ok by (apply open_w_ok; exact Hw).
    erewrite bind_ok by exact E.
    erewrite bind_ok; cycle 1.
    { apply json_dump_document; [exact C|].
      rewrite F. simpl. apply lookup_insert_eq. }
    eexists. split; [reflexivity|]. split; [|exact L].
    simpl. apply lookup_insert_eq. }
  destruct Es as (w1 & Es & Hf & L1).
  destruct (draft_load_document ps path file w1) as (vs & w2 & El & Hh & _);
    [now rewrite L1 | exact Hf |].
  exists w1, w2. split; [exact Es|]. split; [exact Hf|].
  unfold draft.load. cbn [draft.resolve draft.mro draft.defines List.find].
  rewrite El. now rewrite (half_built_without_observations _ _ _ Hh Hn).
Qed.

Lemma draft_round_trip_without_observations_witness :
  locate empty_world for_writing "patients.json" = Ok "patients.json"
  /\ locate empty_world for_reading "patients.json" = Ok "patients.json"
  /\ forallb no_observations [Patient "Alice" []; Patient "Bob" []] = true
  /\ exists w1 w2,
       draft.save draft.PatientJSONSerializer
         (VList (map patient_obj [Patient "Alice" []; Patient "Bob" []]))
         "patients.json" empty_world
       = (Ok VNone, w1)
       /\ files w1 !! "patients.json"
          = Some (string_of_list_ascii
                    (print (document [Patient "Alice" []; Patient "Bob" []])))
       /\ draft.load draft.PatientJSONSerializer "patients.json" w1
          = (Ok (VList (map patient_obj
                          [Patient "Alice" []; Patient "Bob" []])), w2).
Proof.
  split; [reflexivity|]. split; [reflexivity|]. split; [reflexivity|].
  apply (draft_round_trip_without_observations
           [Patient "Alice" []; Patient "Bob" []] "patients.json"
           "patients.json" empty_world); reflexivity.
Defined.

(** * The test of the lesson *)

Lemma check_observation_same o w :
  test_serializers.check_observation (observation_obj o, observation_obj o) w
  = (Ok true, w).
Proof.
  unfold test_serializers.check_observation, observation_obj.
  cbv beta iota.
  erewrite bind_ok by reflexivity. erewrite bind_ok by reflexivity.
  erewrite bind_ok by (simpl; rewrite Z.eqb_refl; reflexivity).
  cbv beta iota.
  erewrite bind_ok by reflexivity. erewrite bind_ok by reflexivity.
  simpl. now rewrite Z.eqb_refl.
Qed.

Lemma for_all_observations os rest w :
  test_serializers.for_all test_serializers.check_observation
    (combine (map observation_obj os) (map observation_obj (os ++ rest))) w
  = (Ok true, w).
Proof.
  induction os as [|o os IH]; [reflexivity|].
  cbn [map app combine test_serializers.for_all].
  erewrite bind_ok by apply check_observation_same. exact IH.
Qed.

Lemma check_patient_agrees p' p w :
  agrees p' p ->
  test_serializers.check_patient (patient_obj p', patient_obj p) w
  = (Ok true, w).
Proof.
  intros [Hn [rest Ho]].
  unfold test_serializers.check_patient, patient_obj.
  cbv beta iota.
  erewrite bind_ok by reflexivity. erewrite bind_ok by reflexivity.
  erewrite bind_ok by (simpl; rewrite Hn, String.eqb_refl; reflexivity).
  cbv beta iota.
  erewrite bind_ok by reflexivity. erewrite bind_ok by reflexivity.
  erewrite bind_ok by reflexivity.
  rewrite Ho. apply for_all_observations.
Qed.

Lemma for_all_patients ps' ps rest w :
  Forall2 agrees ps' ps ->
  test_serializers.for_all test_serializers.check_patient
    (combine (map patient_obj ps') (map patient_obj (ps ++ rest))) w
  = (Ok true, w).
Proof.
  induction 1 as [|p' p ps' ps Hp _ IH]; [reflexivity|].
  cbn [map app combine test_serializers.for_all].
  erewrite bind_ok by (apply check_patient_agrees; exact Hp). exact IH.
Qed.

Lemma check_agrees ps' ps rest w :
  Forall2 agrees ps' ps ->
  test_serializers.check (VList (map patient_obj ps'))
    (VList (map patient_obj (ps ++ rest))) w
  = (Ok true, w).
Proof.
  intros H. unfold test_serializers.check, test_serializers.zip.
  simpl iterate.
  erewrite bind_ok by reflexivity. now apply for_all_patients.
Qed.

Lemma agrees_refl ps : Forall2 agrees ps ps.
Proof.
  induction ps as [|p ps IH]; constructor; [|exact IH].
  split; [reflexivity|]. exists []. now rewrite app_nil_r.
Qed.

Lemma agrees_truncate m ps : Forall2 agrees (map (truncate m) ps) ps.
Proof.
  induction ps as [|p ps IH]; constructor; [|exact IH].
  split; [reflexivity|]. exists (drop m (observations p)).
  simpl. now rewrite take_drop.
Qed.

(** X14.  The lesson's test passes on the final serializers.  In every
    world in which [patients.json] can be opened for writing and for
    reading, [save], [load] and the comparison loops of the test run
    without a failed assertion and without an exception: for the test as
    written, and for every sequence of patients whose names are strings
    and whose days and values are integers in place of the two patients
    the test builds. *)
Theorem test_passes (ps : list patient) (file : string) (w : world) :
  locate w for_writing "patients.json" = Ok file ->
  locate w for_reading "patients.json" = Ok file ->
  test_serializers.report
    (test_serializers.save_load_check (save PatientJSONSerializer)
       (load PatientJSONSerializer) (VList (map patient_obj ps))) w
  = test_serializers.passed
  /\ test_serializers.test_patients_json_serializer w
     = test_serializers.passed.
Proof.
  intros Hw Hr.
  assert (H : forall qs,
             test_serializers.report
               (test_serializers.save_load_check (save PatientJSONSerializer)
                  (load PatientJSONSerializer) (VList (map patient_obj qs))) w
             = test_serializers.passed).
  { intros qs. unfold test_serializers.report, test_serializers.save_load_check.
    destruct (save_patients qs "patients.json" file w Hw)
      as (w1 & E1 & F1 & L1).
    destruct (load_patients qs "patients.json" file w1) as (w2 & E2 & _).
    { now rewrite L1. }
    { rewrite F1. apply lookup_insert_eq. }
    erewrite bind_ok by exact E1. erewrite bind_ok by exact E2.
    pose proof (check_agrees qs qs [] w2 (agrees_refl qs)) as Hc.
    rewrite app_nil_r in Hc. now rewrite Hc. }
  split; [apply H|]. apply (H test_serializers.patients).
Qed.

(** The theorem at Alice and Bob in the directory of the examples. *)
Lemma test_passes_witness :
  locate empty_world for_writing "patients.json" = Ok "patients.json"
  /\ locate empty_world for_reading "patients.json" = Ok "patients.json"
  /\ test_serializers.report
       (test_serializers.save_load_check (save PatientJSONSerializer)
          (load PatientJSONSerializer) (VList (map patient_obj [alice; bob])))
       empty_world
     = test_serializers.passed
  /\ test_serializers.test_patients_json_serializer empty_world
     = test_serializers.passed.
Proof.
  split; [reflexivity|]. split; [reflexivity|].
  apply (test_passes [alice; bob] "patients.json" empty_world); reflexivity.
Defined.

(** X15.  The lesson's test fails on the first version, as the lesson
    reports: in every world in which [patients.json] can be opened for
    writing it ends with
    [TypeError: Object of type Observation is not JSON serializable],
    raised by [save] before anything is loaded or compared. *)
Theorem test_fails_on_first_version (file : string) (w : world) :
  locate w for_writing "patients.json" = Ok file ->
  test_serializers.test_patients_json_serializer_draft w
  = test_serializers.failed_with TypeError.
Proof.
  intros Hw.
  unfold test_serializers.test_patients_json_serializer_draft,
    test_serializers.report, test_serializers.save_load_check.
  destruct (draft_save_spent draft.PatientJSONSerializer
              test_serializers.patients "patients.json" file w Hw)
    as (w' & E & _); [reflexivity|].
  unfold draft.save. cbn [draft.resolve draft.mro draft.defines List.find].
  now erewrite bind_raise by exact E.
Qed.

Lemma test_fails_on_first_version_witness :
  locate empty_world for_writing "patients.json" = Ok "patients.json"
  /\ test_serializers.test_patients_json_serializer_draft empty_world
     = test_serializers.failed_with TypeError.
Proof.
  split; [reflexivity|].
  apply (test_fails_on_first_version "patients.json" empty_world).
  reflexivity.
Defined.

(** X16.  What the test's comparison does not see.  The two loops go over
    [zip], which stops at the end of its shorter argument: the comparison
    holds for a loaded list that has only the first [n] patients of the
    saved one, each with only its first [m] observations.  With [n = 0]:
    a [load] that returned the empty list would pass the test. *)
Theorem check_accepts_truncated_data (ps : list patient) (n m : nat)
  (w : world) :
  test_serializers.check
    (VList (map patient_obj (map (truncate m) (take n ps))))
    (VList (map patient_obj ps)) w
  = (Ok true, w).
Proof.
  rewrite <- (take_drop n ps) at 2.
  apply check_agrees, agrees_truncate.
Qed.

Lemma check_observation_value o' o w :
  test_serializers.check_observation (observation_obj o', observation_obj o) w
  = (Ok (same_observation (o', o)), w).
Proof.
  unfold test_serializers.check_observation, observation_obj, same_observation.
  cbv beta iota.
  erewrite bind_ok by reflexivity. erewrite bind_ok by reflexivity.
  erewrite bind_ok by reflexivity.
  cbn [fst snd]. destruct (Z.eqb (day o') (day o)); reflexivity.
Qed.

Lemma for_all_observations_value os' os w :
  test_serializers.for_all test_serializers.check_observation
    (combine (map observation_obj os') (map observation_obj os)) w
  = (Ok (forallb same_observation (combine os' os)), w).
Proof.
  revert os. induction os' as [|o' os' IH]; intros [|o os]; try reflexivity.
  cbn [map combine test_serializers.for_all forallb].
  erewrite bind_ok by apply check_observation_value.
  destruct (same_observation (o', o)); [apply IH | reflexivity].
Qed.

Lemma check_patient_value p' p w :
  test_serializers.check_patient (patient_obj p', patient_obj p) w
  = (Ok (same_patient (p', p)), w).
Proof.
  unfold test_serializers.check_patient, patient_obj, same_patient.
  cbv beta iota.
  erewrite bind_ok by reflexivity. erewrite bind_ok by reflexivity.
  erewrite bind_ok by reflexivity.
  cbn [fst snd]. destruct (String.eqb (name p') (name p)); [|reflexivity].
  cbv beta iota.
  erewrite bind_ok by reflexivity. erewrite bind_ok by reflexivity.
  erewrite bind_ok by reflexivity.
  apply for_all_observations_value.
Qed.

(** X17.  What the test's comparison computes.  On two lists of patient
    instances the comparison never raises and changes nothing, and it
    holds exactly when, pair by pair up to the end of the shorter list,
    the names are equal and the observations, pair by pair up to the end
    of the shorter sequence, have equal days and equal values. *)
Theorem check_value (ps' ps : list patient) (w : world) :
  test_serializers.check (VList (map patient_obj ps'))
    (VList (map patient_obj ps)) w
  = (Ok (forallb same_patient (combine ps' ps)), w).
Proof.
  unfold test_serializers.check, test_serializers.zip. simpl iterate.
  erewrite bind_ok by reflexivity.
  revert ps. induction ps' as [|p' ps' IH]; intros [|p ps]; try reflexivity.
  cbn [map combine test_serializers.for_all forallb].
  erewrite bind_ok by apply check_patient_value.
  destruct (same_patient (p', p)); [apply IH | reflexivity].
Qed.

(** * The order of the keys of a record *)

Lemma bind_args_only_keys c d :
  only_keys (models.params c) d -> bind_args c d = take_args d (models.params c).
Proof.
  intros H. unfold bind_args.
  replace (forallb _ (dict_keys d)) with true; [reflexivity|].
  symmetry. apply forallb_forall. intros k Hk.
  apply existsb_exists. exists k. split; [now apply H|].
  apply String.eqb_refl.
Qed.

Lemma dict_pop_of_get k d x :
  dict_get k d = Some x ->
  exists d', dict_pop k d = Some (x, d')
    /\ forall k', In k' (dict_keys d') -> In k' (dict_keys d).
Proof.
  induction d as [|[k0 v0] d IH]; simpl; [discriminate|].
  destruct (String.eqb k k0).
  - intros E. inversion E; subst. exists d. split; [reflexivity|]. auto.
  - intros E. destruct (IH E) as (d' & -> & Hk).
    exists ((k0, v0) :: d'). split; [reflexivity|].
    simpl. intros k' [?|?]; auto.
Qed.

Lemma dict_keys_set k k0 x d :
  In k (dict_keys (dict_set k0 x d)) -> k = k0 \/ In k (dict_keys d).
Proof.
  induction d as [|[k1 v1] d IH]; simpl.
  - intros [?|[]]. now left.
  - destruct (String.eqb k0 k1); simpl; intros [?|?]; auto.
    destruct IH; auto.
Qed.

Lemma build_observation_mapping w v o :
  observation_mapping (heap w) v o ->
  build ObservationSerializer v w = (Ok (observation_obj o), w).
Proof.
  intros (l & -> & Hd & Hv & Hk). unfold build.
  erewrite bind_ok by reflexivity.
  erewrite bind_ok by reflexivity.
  unfold call. rewrite bind_args_only_keys by assumption.
  simpl. now rewrite Hd, Hv.
Qed.

Lemma ObservationSerializer_deserialize_mapping w ovs os :
  Forall2 (observation_mapping (heap w)) ovs os ->
  ObservationSerializer_deserialize ObservationSerializer (VList ovs) w
  = (Ok (VList (map observation_obj os)), w).
Proof.
  intros H. unfold ObservationSerializer_deserialize. simpl iterate.
  erewrite bind_ok by reflexivity.
  erewrite bind_ok; [reflexivity|].
  induction H as [|v o ovs os Hv _ IH]; simpl; [reflexivity|].
  erewrite bind_ok by (apply build_observation_mapping; eassumption).
  erewrite bind_ok by eassumption. reflexivity.
Qed.

Lemma patient_mapping_not_observation h l p o :
  patient_mapping h (VDict l) p -> observation_mapping h (VDict l) o -> False.
Proof.
  intros (l1 & ovs & E1 & Hn & _) (l2 & E2 & _ & _ & Hk).
  inversion E1; inversion E2; subst l1 l2.
  assert (Hin : In "name" (dict_keys (cell h l)))
    by (apply dict_get_keys; congruence).
  apply Hk in Hin. simpl in Hin. destruct Hin as [?|[?|[]]]; discriminate.
Qed.

Lemma observation_mappings_insert h l d p ovs os :
  patient_mapping h (VDict l) p ->
  Forall2 (observation_mapping h) ovs os ->
  Forall2 (observation_mapping (<[l := d]> h)) ovs os.
Proof.
  intros Hp. induction 1 as [|v o ovs os Hv _ IH]; constructor; [|assumption].
  pose proof Hv as (lo & -> & Hd & Hx & Hk).
  assert (Hne : l <> lo).
  { intros ->. eapply patient_mapping_not_observation; eassumption. }
  exists lo. rewrite cell_insert_ne by assumption. auto.
Qed.

Lemma patient_mappings_insert h l d p refs ps :
  patient_mapping h (VDict l) p ->
  Forall2 (patient_mapping h) refs ps -> ~ In (VDict l) refs ->
  Forall2 (patient_mapping (<[l := d]> h)) refs ps.
Proof.
  intros Hp. induction 1 as [|v p' refs ps Hv _ IH]; intros Hni;
    constructor.
  - destruct Hv as (l' & ovs & -> & Hn & Ho & Hk & Hos).
    assert (Hne : l <> l') by (intros ->; apply Hni; now left).
    exists l', ovs. rewrite cell_insert_ne by assumption.
    repeat split; try assumption.
    eapply observation_mappings_insert; eassumption.
  - apply IH. intros Hin. apply Hni. now right.
Qed.

Lemma deserialize_item_mapping cls w l p :
  patient_class cls ->
  patient_mapping (heap w) (VDict l) p ->
  exists d,
    deserialize_item cls (VDict l) w
    = (Ok (patient_obj p), set_heap (<[l := d]> (heap w)) w).
Proof.
  intros Hcls Hp. pose proof Hp as (l' & ovs & E & Hn & Ho & Hk & Hos).
  inversion E; subst l'; clear E.
  assert (Hlt : l < length (heap w)).
  { apply cell_nonempty. intros Hc. rewrite Hc in Hn. discriminate. }
  destruct (dict_pop_of_get _ _ _ Ho) as (d' & Epop & Hsub).
  set (objs := VList (map observation_obj (observations p))).
  exists (dict_set "observations" objs d').
  unfold deserialize_item.
  erewrite bind_ok; cycle 1.
  { unfold pop. erewrite bind_ok by reflexivity.
    rewrite Epop. reflexivity. }
  erewrite bind_ok; cycle 1.
  { apply ObservationSerializer_deserialize_mapping. simpl.
    eapply observation_mappings_insert; eassumption. }
  erewrite bind_ok; cycle 1.
  { unfold setitem. erewrite bind_ok by reflexivity.
    simpl. unfold write_dict, set_heap. simpl.
    rewrite cell_insert_eq, list_insert_insert_eq by assumption.
    reflexivity. }
  unfold build. replace (model cls) with (@ret models.class models.Patient)
    by (destruct Hcls; subst; reflexivity).
  erewrite bind_ok by reflexivity.
  erewrite bind_ok by reflexivity.
  simpl. rewrite cell_insert_eq by assumption.
  unfold call. rewrite bind_args_only_keys.
  - simpl take_args.
    rewrite dict_get_set_ne, (dict_get_pop_ne "name" _ _ _ _ Epop), Hn
      by discriminate.
    rewrite dict_get_set_eq. reflexivity.
  - intros k Hin. apply dict_keys_set in Hin as [->|Hin].
    + simpl. tauto.
    + apply Hk, Hsub, Hin.
Qed.

Lemma for_each_deserialize_mapping cls refs ps :
  patient_class cls ->
  forall w,
  Forall2 (patient_mapping (heap w)) refs ps -> NoDup refs ->
  exists w',
    for_each (deserialize_item cls) refs w = (Ok (map patient_obj ps), w').
Proof.
  intros Hcls w H. revert w H.
  induction refs as [|v refs IH] in ps |- *; intros w H Hnd;
    inversion H as [|? p ? ps' Hv Hrest]; subst; simpl.
  - eauto.
  - pose proof Hv as (l & ovs & -> & _).
    apply NoDup_cons in Hnd as [Hni Hnd].
    assert (Hni' : ~ In (VDict l) refs).
    { intros Hin. apply Hni. now apply list_elem_of_In. }
    destruct (deserialize_item_mapping cls w l p Hcls Hv) as (d & E).
    destruct (IH ps' (set_heap (<[l := d]> (heap w)) w)) as (w' & E');
      [|assumption|].
    { simpl. eapply patient_mappings_insert; eassumption. }
    exists w'. erewrite bind_ok by exact E.
    erewrite bind_ok by exact E'. reflexivity.
Qed.

(** X18.  The order of the keys does not matter.  A dictionary that holds
    an observation under the keys [day] and [value], or a patient under the
    keys [name] and [observations], is deserialized to the same instance in
    whatever order its keys come: the constructor is called with keyword
    arguments. *)
Theorem deserialize_ignores_key_order :
  (forall xs os w,
     Forall2 (observation_mapping (heap w)) xs os ->
     deserialize ObservationSerializer (VList xs) w
     = (Ok (VList (map observation_obj os)), w))
  /\ (forall cls xs ps w,
        patient_class cls ->
        Forall2 (patient_mapping (heap w)) xs ps -> NoDup xs ->
        exists w',
          deserialize cls (VList xs) w = (Ok (VList (map patient_obj ps)), w')).
Proof.
  split.
  - intros xs os w H. unfold deserialize.
    cbn [resolve mro defines List.find].
    now apply ObservationSerializer_deserialize_mapping.
  - intros cls xs ps w Hcls H Hnd.
    destruct (for_each_deserialize_mapping cls xs ps Hcls w H Hnd) as (w' & E).
    exists w'. rewrite deserialize_patient_class by assumption.
    unfold PatientSerializer_deserialize. simpl iterate.
    erewrite bind_ok by reflexivity. erewrite bind_ok by exact E.
    reflexivity.
Qed.

(** The theorem at Alice with one observation, both dictionaries with
    their keys the other way round. *)
Lemma deserialize_ignores_key_order_witness :
  Forall2 (patient_mapping (heap reversed_world)) [VDict 1]
    [Patient "Alice" [Observation 0 3]]
  /\ exists w',
       deserialize PatientSerializer (VList [VDict 1]) reversed_world
       = (Ok (VList [patient_obj (Patient "Alice" [Observation 0 3])]), w').
Proof.
  assert (H : Forall2 (patient_mapping (heap reversed_world)) [VDict 1]
                [Patient "Alice" [Observation 0 3]]).
  { constructor; [|constructor].
    exists 1, [VDict 0]. split; [reflexivity|].
    split; [reflexivity|]. split; [reflexivity|]. split.
    - intros k. simpl. tauto.
    - constructor; [|constructor].
      exists 0. split; [reflexivity|].
      split; [reflexivity|]. split; [reflexivity|].
      intros k. simpl. tauto. }
  split; [exact H|].
  apply (proj2 deserialize_ignores_key_order PatientSerializer [VDict 1]
           [Patient "Alice" [Observation 0 3]] reversed_world).
  - now left.
  - exact H.
  - repeat constructor. intros Hin. inversion Hin.
Defined.

(** A file whose objects list their members in another order than [save]
    writes them loads to the same patient. *)
Example load_reversed_keys :
  fst (load PatientJSONSerializer "p.json"
         (World [] {["p.json" := string_of_list_ascii reversed_text]}
            one_directory))
  = Ok (VList [patient_obj (Patient "Alice" [Observation 0 3])]).
Proof. reflexivity. Qed.

(** The document the lesson shows as its example, with its line breaks and
    indentation, is the document of Alice and Bob, and [load] returns the
    two patients from it. *)
Example load_lesson_text :
  json_loads lesson_text = Ok (document [alice; bob])
  /\ fst (load PatientJSONSerializer "p.json"
            (World [] {["p.json" := string_of_list_ascii lesson_text]}
               one_directory))
     = Ok (VList [patient_obj alice; patient_obj bob]).
Proof. split; vm_compute; reflexivity. Qed.

(** * Round trip and on-disk format *)








(** * [save] is not atomic *)

(** C5, counterexample.  [p.json] holds the text [old].  Saving Alice and
    a patient with an observation that cannot be encoded raises
    [TypeError], and the file is left holding the beginning of the
    encoding: neither what it held before nor a whole document. *)
Lemma save_leaves_truncated_file :
  fst (save PatientJSONSerializer (VList [patient_obj alice; carol])
         "p.json" old_world) = Raise TypeError
  /\ files old_world !! "p.json" = Some "old"
  /\ files (snd (save PatientJSONSerializer
                   (VList [patient_obj alice; carol]) "p.json" old_world))
       !! "p.json"
     = Some (string_of_list_ascii truncated_text)
  /\ json_loads truncated_text = Raise JSONDecodeError.
Proof. repeat split; vm_compute; reflexivity. Qed.

(** C5, amended.  [save] opens the file before it serializes, and the
    encoder writes as it goes.  When the path cannot be opened for writing,
    [save] raises the exception of [open] and nothing is created or
    written.  Otherwise opening creates or empties the file the path leads
    to, and: no other file is touched; when [serialize] raises, [save]
    raises the same exception and the file is left empty; when the encoder
    raises, [save] raises the same exception and the file holds what was
    written until then; when neither raises, [save] returns [None] and the
    file holds the whole encoding.  For patients with string names and
    integer days and values neither raises: the file holds their
    document. *)
Theorem save_outcome (instances : pyval) (path : string) (w : world) :
  let r := fst (save PatientJSONSerializer instances path w) in
  let w' := snd (save PatientJSONSerializer instances path w) in
  match locate w for_writing path with
  | Raise e => r = Raise e /\ w' = w
  | Ok file =>
      (forall other, other <> file -> files w' !! other = files w !! other)
      /\ match serialize PatientJSONSerializer instances
                 (set_files (<[file := EmptyString]> (files w)) w) with
         | (Raise e, _) => r = Raise e /\ files w' !! file = Some EmptyString
         | (Ok data, w1) =>
             match encode recursion_limit (heap w1) [] data with
             | (s, None) =>
                 r = Ok VNone
                 /\ files w' !! file = Some (string_of_list_ascii s)
             | (s, Some e) =>
                 r = Raise e
                 /\ files w' !! file = Some (string_of_list_ascii s)
             end
         end
      /\ (forall ps, instances = VList (map patient_obj ps) ->
            r = Ok VNone
            /\ files w' !! file
               = Some (string_of_list_ascii (print (document ps))))
  end.
Proof.
  cbv zeta. destruct (locate w for_writing path) as [file|e] eqn:Hl.
  2:{ rewrite save_steps, Hl. split; reflexivity. }
  pose proof (grows_serialize PatientJSONSerializer instances
                (set_files (<[file := EmptyString]> (files w)) w)) as [F _].
  split; [|split].
  - intros other Hne. rewrite save_steps, Hl.
    destruct (serialize _ _ _) as [[data|e] w1];
      cbn [snd fst files set_files] in F |- *.
    + destruct (encode recursion_limit (heap w1) [] data) as [s [e|]];
        cbn [snd fst write set_files files];
        rewrite lookup_insert_ne, F, lookup_insert_ne; congruence.
    + rewrite F, lookup_insert_ne; congruence.
  - rewrite save_steps, Hl.
    destruct (serialize _ _ _) as [[data|e] w1];
      cbn [snd fst files set_files] in F |- *.
    + assert (Hp : files w1 !! file = Some EmptyString)
        by (rewrite F; apply lookup_insert_eq).
      destruct (encode recursion_limit (heap w1) [] data) as [s [e|]];
        cbn [snd fst write set_files files];
        (split; [reflexivity|]); rewrite lookup_insert_eq, Hp; reflexivity.
    + split; [reflexivity|]. rewrite F. apply lookup_insert_eq.
  - intros ps ->. destruct (save_patients ps path file w Hl) as (w' & E & F' & _).
    rewrite E. cbn [fst snd]. split; [reflexivity|]. rewrite F'.
    apply lookup_insert_eq.
Qed.

(** The empty path cannot be opened: [save] raises [FileNotFoundError] and
    the files are as they were. *)
Example save_to_the_empty_path :
  save PatientJSONSerializer (VList [patient_obj alice]) "" old_world
  = (Raise FileNotFoundError, old_world).
Proof. vm_compute. reflexivity. Qed.

(** * What [deserialize] leaves in the dictionaries it is given *)

Lemma build_is_observation x w v w' :
  build ObservationSerializer x w = (Ok v, w') -> is_observation v.
Proof.
  unfold build. erewrite bind_ok by reflexivity. intros E.
  apply bind_inv in E as [(? & _ & ?)|(kwargs & w1 & _ & E)]; [discriminate|].
  unfold call in E.
  apply bind_inv in E as [(? & _ & ?)|(attrs & w2 & _ & E)]; [discriminate|].
  inversion E. now exists attrs.
Qed.

Lemma for_each_build_instances xs :
  forall w vs w',
    for_each (build ObservationSerializer) xs w = (Ok vs, w') ->
    Forall is_observation vs.
Proof.
  induction xs as [|x xs IH]; intros w vs w' E; simpl in E.
  - inversion E. constructor.
  - apply bind_inv in E as [(? & _ & ?)|(v & w1 & Ev & E)]; [discriminate|].
    apply bind_inv in E as [(? & _ & ?)|(vs' & w2 & Evs & E)]; [discriminate|].
    inversion E; subst. constructor; eauto using build_is_observation.
Qed.

Lemma ObservationSerializer_deserialize_instances ov w r w' :
  ObservationSerializer_deserialize ObservationSerializer ov w = (Ok r, w') ->
  exists objs, r = VList objs /\ Forall is_observation objs.
Proof.
  unfold ObservationSerializer_deserialize. intros E.
  apply bind_inv in E as [(? & _ & ?)|(xs & w1 & _ & E)]; [discriminate|].
  apply bind_inv in E as [(? & _ & ?)|(vs & w2 & Evs & E)]; [discriminate|].
  inversion E; subst. exists vs. split; [reflexivity|].
  eauto using for_each_build_instances.
Qed.

Lemma deserialize_item_holds cls l w v w' :
  patient_class cls ->
  deserialize_item cls (VDict l) w = (Ok v, w') ->
  holds_instances w' l.
Proof.
  intros Hcls E.
  apply deserialize_item_inv in E
    as (ov & d' & r & _ & Hlt & Eobs & -> & _); [|assumption].
  destruct (ObservationSerializer_deserialize ObservationSerializer ov
              (set_heap (<[l := d']> (heap w)) w)) as [[r'|e] w1] eqn:E;
    simpl in Eobs; [|discriminate].
  inversion Eobs; subst r'.
  apply ObservationSerializer_deserialize_instances in E as (objs & -> & Hf).
  exists objs. split; [|assumption]. unfold entry. cbn [heap set_heap].
  rewrite cell_insert_eq by assumption. apply dict_get_set_eq.
Qed.

Lemma deserialize_item_keeps cls x w v w' l :
  patient_class cls ->
  deserialize_item cls x w = (Ok v, w') ->
  holds_instances w l -> holds_instances w' l.
Proof.
  intros Hcls E Hl. destruct (is_dict x) eqn:Hd.
  - destruct x; try discriminate. rename l0 into l0.
    destruct (Nat.eq_dec l0 l) as [->|Hne];
      [eauto using deserialize_item_holds|].
    apply deserialize_item_inv in E
      as (ov & d' & r & _ & _ & _ & -> & _); [|assumption].
    destruct Hl as (objs & He & Hf). exists objs. split; [|assumption].
    unfold entry in *. cbn [heap set_heap].
    now rewrite cell_insert_ne by assumption.
  - destruct (deserialize_item_not_dict_raises cls x Hd w) as (e & w1 & E').
    congruence.
Qed.

Lemma for_each_deserialize_holds cls xs :
  patient_class cls ->
  forall w vs w' l,
    for_each (deserialize_item cls) xs w = (Ok vs, w') ->
    In (VDict l) xs \/ holds_instances w l ->
    holds_instances w' l.
Proof.
  intros Hcls. induction xs as [|x xs IH]; intros w vs w' l E H; simpl in E.
  - inversion E; subst. destruct H as [[]|H]. exact H.
  - apply bind_inv in E as [(? & _ & ?)|(v & w1 & Ev & E)]; [discriminate|].
    apply bind_inv in E as [(? & _ & ?)|(vs' & w2 & Evs & E)]; [discriminate|].
    inversion E; subst. apply (IH w1 vs' w' l Evs).
    destruct H as [[->|H]|H].
    + right. eauto using deserialize_item_holds.
    + now left.
    + right. eauto using deserialize_item_keeps.
Qed.

Lemma PatientSerializer_deserialize_holds cls data w r w' l :
  patient_class cls ->
  PatientSerializer_deserialize cls data w = (Ok r, w') ->
  In (VDict l) (elements data) ->
  holds_instances w' l.
Proof.
  intros Hcls E Hin. destruct data; try contradiction. simpl in Hin.
  unfold PatientSerializer_deserialize in E.
  erewrite bind_ok in E by reflexivity.
  apply bind_inv in E as [(? & _ & ?)|(vs & w2 & Evs & E)]; [discriminate|].
  inversion E; subst. eauto using for_each_deserialize_holds.
Qed.

(** C3, counterexample.  [data] is what [serialize] returns for Alice.
    [deserialize(data)] returns Alice, and afterwards the dictionary in
    [data] holds a list of [Observation] instances under [observations]
    where it held a list of dictionaries; deserializing the same [data]
    again raises [TypeError]. *)
Lemma deserialize_mutates_data :
  serialize PatientSerializer (VList [patient_obj alice]) empty_world
  = (Ok (VList [VDict 2]), alice_world)
  /\ fst (deserialize PatientSerializer (VList [VDict 2]) alice_world)
     = Ok (VList [patient_obj alice])
  /\ entry alice_world 2 "observations" = Some (VList [VDict 0; VDict 1])
  /\ entry (snd (deserialize PatientSerializer (VList [VDict 2]) alice_world))
       2 "observations"
     = Some (VList [observation_obj (Observation 0 3);
                    observation_obj (Observation 1 4)])
  /\ fst (deserialize PatientSerializer (VList [VDict 2])
            (snd (deserialize PatientSerializer (VList [VDict 2])
                    alice_world)))
     = Raise TypeError.
Proof. repeat split. Qed.

(** The same dictionary twice in [data]: the second turn of the loop finds
    the instances the first turn left under [observations]. *)
Example deserialize_same_dictionary_twice :
  fst (deserialize PatientSerializer (VList [VDict 2; VDict 2]) alice_world)
  = Raise TypeError.
Proof. reflexivity. Qed.

(** C3, amended.  Neither [serialize] nor [deserialize] touches a file,
    whatever class they are called on and whatever they are given, and
    whether they return or raise.  [serialize] leaves every dictionary as
    it was: it only makes new ones.  [deserialize] makes no dictionary and
    leaves every entry as it was except the entries under [observations]
    of the dictionaries that are elements of [data], which it pops and
    assigns again: when [PatientSerializer.deserialize] returns, every
    dictionary that is an element of [data] holds a list of [Observation]
    instances under [observations].  For [data] that [serialize] made of
    patients, each dictionary held a list of dictionaries there before the
    call and holds the patient's observations as instances after it. *)
Theorem effects_of_serialize_and_deserialize (cls : class) (v : pyval)
  (w : world) :
  (files (snd (serialize cls v w)) = files w
   /\ exists new, heap (snd (serialize cls v w)) = heap w ++ new)
  /\ (files (snd (deserialize cls v w)) = files w
      /\ length (heap (snd (deserialize cls v w))) = length (heap w)
      /\ forall l k,
           k <> "observations" \/ ~ In (VDict l) (elements v) ->
           entry (snd (deserialize cls v w)) l k = entry w l k)
  /\ (patient_class cls ->
      forall r w', deserialize cls v w = (Ok r, w') ->
      forall l, In (VDict l) (elements v) ->
      exists objs,
        entry w' l "observations" = Some (VList objs)
        /\ Forall is_observation objs)
  /\ (patient_class cls ->
      forall ps, v = VList (map patient_obj ps) ->
      exists refs w1 w2,
        serialize cls v w = (Ok (VList refs), w1)
        /\ Forall2 (patient_cell (heap w1)) refs ps
        /\ deserialize cls (VList refs) w1 = (Ok v, w2)
        /\ Forall2 (spent_cell (heap w2)) refs ps).
Proof.
  split; [|split; [|split]].
  - apply (grows_serialize cls v w).
  - apply (rewrites_deserialize cls v w).
  - intros Hcls r w' E l Hin.
    apply (PatientSerializer_deserialize_holds cls v w r w' l Hcls);
      [|assumption].
    destruct Hcls; subst; exact E.
  - intros Hcls ps ->.
    destruct (PatientSerializer_serialize_cells cls ps w)
      as (refs & w1 & E & _ & C & N).
    destruct (for_each_deserialize_spent cls refs ps Hcls w1 C N)
      as (w2 & E2 & S).
    assert (E3 : PatientSerializer_deserialize cls (VList refs) w1
                 = (Ok (VList (map patient_obj ps)), w2)).
    { unfold PatientSerializer_deserialize. simpl iterate.
      erewrite bind_ok by reflexivity. erewrite bind_ok by exact E2.
      reflexivity. }
    exists refs, w1, w2.
    assert (Es : serialize cls (VList (map patient_obj ps))
                 = PatientSerializer_serialize cls
                     (VList (map patient_obj ps)))
      by (destruct Hcls; subst; reflexivity).
    assert (Ed : deserialize cls (VList refs)
                 = PatientSerializer_deserialize cls (VList refs))
      by (destruct Hcls; subst; reflexivity).
    rewrite Es, Ed. auto.
Qed.

(** * The exceptions of [load] *)

Ltac split_matches H :=
  repeat match type of H with
         | context [match ?x with _ => _ end] => destruct x eqn:?
         end.








(** A text of 1001 opening brackets: the scanner gives up before it reaches
    the end of the text. *)
Example load_deep_text :
  json_loads deep_text = Raise RecursionError
  /\ load PatientJSONSerializer "p.json" deep_world
     = (Raise RecursionError, deep_world).
Proof. split; vm_compute; reflexivity. Qed.

(** [NaN] alone in the file is decoded, and is not iterable. *)
Example load_nan :
  json_loads (lit "NaN") = Ok (JFloat NaN)
  /\ load PatientJSONSerializer "p.json"
       (World [] {["p.json" := "NaN"]} one_directory)
     = (Raise TypeError, World [] {["p.json" := "NaN"]} one_directory).
Proof. split; vm_compute; reflexivity. Qed.

(** * The fuel of the scanner *)

Lemma skip_ws_length s : length (skip_ws s) <= length s.
Proof.
  induction s as [|c s IH]; simpl; [lia|].
  destruct (is_ws c); simpl; lia.
Qed.

Lemma scan_string_length n :
  forall s r t, length s <= n -> scan_string s = Ok (r, t) ->
  length t < length s.
Proof.
  induction n as [|n IH]; intros s r t Hn H.
  - destruct s; [discriminate | simpl in Hn; lia].
  - destruct s as [|c s]; [discriminate|]. simpl in Hn.
    cbn [scan_string] in H. split_matches H; try discriminate;
      inversion H; subst; simpl; try lia;
      match goal with
      | E : scan_string ?u = Ok _ |- _ =>
          apply (IH u) in E; simpl in *; lia
      end.
Qed.

Lemma strip_prefix_length p :
  forall s r, strip_prefix p s = Some r -> length r + length p = length s.
Proof.
  induction p as [|c p IH]; intros s r H; simpl in H.
  - inversion H. simpl. lia.
  - destruct s as [|c' s]; [discriminate|].
    destruct (Ascii.eqb c c'); [|discriminate].
    apply IH in H. simpl. lia.
Qed.

Lemma scan_digits_length s :
  forall d r, scan_digits s = (d, r) -> length r <= length s.
Proof.
  induction s as [|c s IH]; intros d r H; simpl in H.
  - inversion H. simpl. lia.
  - destruct (digit c).
    + destruct (scan_digits s) as [d' r'] eqn:E. inversion H; subst.
      specialize (IH _ _ eq_refl). simpl. lia.
    + inversion H. simpl. lia.
Qed.

Lemma scan_int_length s d r :
  scan_int s = Some (d, r) -> length r < length s.
Proof.
  unfold scan_int. destruct s as [|c s]; [discriminate|].
  destruct (Ascii.eqb c "0").
  - intros H. inversion H. simpl. lia.
  - destruct (digit c); [|discriminate].
    destruct (scan_digits s) as [d' r'] eqn:E. intros H. inversion H; subst.
    apply scan_digits_length in E. simpl. lia.
Qed.

Lemma parse_number_length s j r :
  parse_number s = Ok (j, r) -> length r < length s.
Proof.
  unfold parse_number, keyword. intros H.
  destruct s as [|c s]; [discriminate|].
  destruct (Ascii.eqb c "-");
    split_matches H; try discriminate; inversion H; subst;
    repeat match goal with
      | E : scan_int _ = Some _ |- _ => apply scan_int_length in E
      | E : strip_prefix _ _ = Some _ |- _ => apply strip_prefix_length in E
      end; simpl in *; lia.
Qed.

(** What the scanner leaves is shorter than what it was given. *)
Lemma parse_length fuel :
  (forall depth s j r,
     parse_value fuel depth s = Ok (j, r) -> length r < length s)
  /\ (forall depth s xs r,
        parse_elements fuel depth s = Ok (xs, r) -> length r < length s)
  /\ (forall depth s kvs r,
        parse_members fuel depth s = Ok (kvs, r) -> length r < length s).
Proof.
  induction fuel as [|f (IHv & IHe & IHm)].
  - repeat split; intros; discriminate.
  - repeat split; intros depth s j r H.
    + cbn [parse_value] in H.
      destruct s as [|c s1]; [discriminate|].
      destruct (Ascii.eqb c dq).
      { destruct (scan_string s1) as [[r' s2]|x] eqn:E; [|discriminate].
        inversion H; subst.
        apply (scan_string_length _ _ _ _ (le_n _)) in E. simpl. lia. }
      destruct (Ascii.eqb c "{").
      { destruct depth as [|d]; [discriminate|].
        pose proof (skip_ws_length s1) as Hw.
        destruct (skip_ws s1) as [|c' s2]; [discriminate|].
        destruct (Ascii.eqb c' "}").
        { inversion H; subst. simpl in *. lia. }
        destruct (parse_members f d (c' :: s2)) as [[kvs s3]|x] eqn:E;
          [|discriminate].
        inversion H; subst. apply IHm in E. simpl in *. lia. }
      destruct (Ascii.eqb c "[").
      { destruct depth as [|d]; [discriminate|].
        pose proof (skip_ws_length s1) as Hw.
        destruct (skip_ws s1) as [|c' s2]; [discriminate|].
        destruct (Ascii.eqb c' "]").
        { inversion H; subst. simpl in *. lia. }
        destruct (parse_elements f d (c' :: s2)) as [[xs s3]|x] eqn:E;
          [|discriminate].
        inversion H; subst. apply IHe in E. simpl in *. lia. }
      unfold keyword in H.
      destruct (strip_prefix (lit "null") (c :: s1)) eqn:E1.
      { inversion H; subst. apply strip_prefix_length in E1. simpl in *. lia. }
      destruct (strip_prefix (lit "true") (c :: s1)) eqn:E2.
      { inversion H; subst. apply strip_prefix_length in E2. simpl in *. lia. }
      destruct (strip_prefix (lit "false") (c :: s1)) eqn:E3.
      { inversion H; subst. apply strip_prefix_length in E3. simpl in *. lia. }
      eapply parse_number_length, H.
    + cbn [parse_elements] in H.
      destruct (parse_value f depth s) as [[x s1]|x] eqn:E; [|discriminate].
      apply IHv in E. pose proof (skip_ws_length s1) as Hw.
      destruct (skip_ws s1) as [|c s2]; [discriminate|].
      destruct (Ascii.eqb c "]").
      { inversion H; subst. simpl in *. lia. }
      destruct (Ascii.eqb c ","); [|discriminate].
      destruct (parse_elements f depth (skip_ws s2)) as [[xs s3]|x'] eqn:E';
        [|discriminate].
      inversion H; subst. apply IHe in E'.
      pose proof (skip_ws_length s2). simpl in *. lia.
    + cbn [parse_members] in H.
      destruct s as [|q s1]; [discriminate|].
      destruct (Ascii.eqb q dq); [|discriminate].
      destruct (scan_string s1) as [[k s2]|x] eqn:Ek; [|discriminate].
      apply (scan_string_length _ _ _ _ (le_n _)) in Ek.
      pose proof (skip_ws_length s2) as Hw2.
      destruct (skip_ws s2) as [|c s3]; [discriminate|].
      destruct (Ascii.eqb c ":"); [|discriminate].
      destruct (parse_value f depth (skip_ws s3)) as [[x s4]|x] eqn:E;
        [|discriminate].
      apply IHv in E. pose proof (skip_ws_length s3) as Hw3.
      pose proof (skip_ws_length s4) as Hw4.
      destruct (skip_ws s4) as [|c' s5]; [discriminate|].
      destruct (Ascii.eqb c' "}").
      { inversion H; subst. simpl in *. lia. }
      destruct (Ascii.eqb c' ","); [|discriminate].
      destruct (parse_members f depth (skip_ws s5)) as [[kvs s6]|x'] eqn:E';
        [|discriminate].
      inversion H; subst. apply IHm in E'.
      pose proof (skip_ws_length s5). simpl in *. lia.
Qed.

(** The scanner never runs out of [fuel] when it is given two units for
    each character of the text: with any two such amounts it gives the same
    answer. *)
Lemma parse_fuel fuel :
  (forall fuel' depth s,
     2 * length s < fuel -> 2 * length s < fuel' ->
     parse_value fuel depth s = parse_value fuel' depth s)
  /\ (forall fuel' depth s,
        2 * length s + 1 < fuel -> 2 * length s + 1 < fuel' ->
        parse_elements fuel depth s = parse_elements fuel' depth s)
  /\ (forall fuel' depth s,
        2 * length s + 1 < fuel -> 2 * length s + 1 < fuel' ->
        parse_members fuel depth s = parse_members fuel' depth s).
Proof.
  induction fuel as [|f (IHv & IHe & IHm)].
  - repeat split; intros; lia.
  - repeat split; intros [|f'] depth s Hf Hf'; try lia.
    + cbn [parse_value].
      destruct s as [|c s1]; [reflexivity|].
      destruct (Ascii.eqb c dq); [reflexivity|].
      destruct (Ascii.eqb c "{").
      { destruct depth as [|d]; [reflexivity|].
        pose proof (skip_ws_length s1) as Hw.
        destruct (skip_ws s1) as [|c' s2]; [reflexivity|].
        destruct (Ascii.eqb c' "}"); [reflexivity|].
        rewrite (IHm f') by (simpl in *; lia). reflexivity. }
      destruct (Ascii.eqb c "[").
      { destruct depth as [|d]; [reflexivity|].
        pose proof (skip_ws_length s1) as Hw.
        destruct (skip_ws s1) as [|c' s2]; [reflexivity|].
        destruct (Ascii.eqb c' "]"); [reflexivity|].
        rewrite (IHe f') by (simpl in *; lia). reflexivity. }
      reflexivity.
    + cbn [parse_elements].
      rewrite (IHv f') by (simpl in *; lia).
      destruct (parse_value f' depth s) as [[x s1]|x] eqn:E; [|reflexivity].
      apply (proj1 (parse_length f')) in E.
      pose proof (skip_ws_length s1) as Hw.
      destruct (skip_ws s1) as [|c s2]; [reflexivity|].
      destruct (Ascii.eqb c "]"); [reflexivity|].
      destruct (Ascii.eqb c ","); [|reflexivity].
      pose proof (skip_ws_length s2).
      rewrite (IHe f') by (simpl in *; lia). reflexivity.
    + cbn [parse_members].
      destruct s as [|q s1]; [reflexivity|].
      destruct (Ascii.eqb q dq); [|reflexivity].
      destruct (scan_string s1) as [[k s2]|x] eqn:Ek; [|reflexivity].
      apply (scan_string_length _ _ _ _ (le_n _)) in Ek.
      pose proof (skip_ws_length s2) as Hw2.
      destruct (skip_ws s2) as [|c s3]; [reflexivity|].
      destruct (Ascii.eqb c ":"); [|reflexivity].
      pose proof (skip_ws_length s3) as Hw3.
      rewrite (IHv f') by (simpl in *; lia).
      destruct (parse_value f' depth (skip_ws s3)) as [[x s4]|x] eqn:E;
        [|reflexivity].
      apply (proj1 (parse_length f')) in E.
      pose proof (skip_ws_length s4) as Hw4.
      destruct (skip_ws s4) as [|c' s5]; [reflexivity|].
      destruct (Ascii.eqb c' "}"); [reflexivity|].
      destruct (Ascii.eqb c' ","); [|reflexivity].
      pose proof (skip_ws_length s5).
      rewrite (IHm f') by (simpl in *; lia). reflexivity.
Qed.

(** [json_loads] with more fuel gives the same answer. *)
Lemma json_loads_fuel s fuel :
  2 * length s < fuel ->
  parse_value fuel recursion_limit (skip_ws s)
  = parse_value (S (2 * length s)) recursion_limit (skip_ws s).
Proof.
  intros H. pose proof (skip_ws_length s).
  apply (proj1 (parse_fuel fuel)); lia.
Qed.

(** * Records that do not fit the schema *)

Lemma ObservationSerializer_deserialize_empty w ov :
  ov = VStr "" \/ (exists lo, ov = VDict lo /\ cell (heap w) lo = []) ->
  ObservationSerializer_deserialize ObservationSerializer ov w
  = (Ok (VList []), w).
Proof.
  unfold ObservationSerializer_deserialize.
  intros [->|(lo & -> & Hc)]; [reflexivity|].
  rewrite (bind_ok (iterate (VDict lo)) _ w
             (map VStr (dict_keys (cell (heap w) lo))) w) by reflexivity.
  rewrite Hc. reflexivity.
Qed.

(** A patient record whose [observations] is an empty string or an empty
    dictionary is built into a patient without observations. *)
Lemma deserialize_item_empty_observations cls w l n ov :
  patient_class cls ->
  dict_get "name" (cell (heap w) l) = Some n ->
  dict_get "observations" (cell (heap w) l) = Some ov ->
  only_keys (models.params models.Patient) (cell (heap w) l) ->
  ov = VStr "" \/ (exists lo, ov = VDict lo /\ cell (heap w) lo = []) ->
  exists d,
    deserialize_item cls (VDict l) w
    = (Ok (VObject models.Patient
             [("name", n); ("observations", VList [])]),
       set_heap (<[l := d]> (heap w)) w).
Proof.
  intros Hcls Hn Ho Hk Hov.
  assert (Hlt : l < length (heap w)).
  { apply cell_nonempty. intros Hc. rewrite Hc in Hn. discriminate. }
  destruct (dict_pop_of_get _ _ _ Ho) as (d' & Epop & Hsub).
  exists (dict_set "observations" (VList []) d').
  unfold deserialize_item.
  erewrite bind_ok; cycle 1.
  { unfold pop. erewrite bind_ok by reflexivity.
    rewrite Epop. reflexivity. }
  erewrite bind_ok; cycle 1.
  { apply ObservationSerializer_deserialize_empty.
    destruct Hov as [->|(lo & -> & Hc)]; [now left|].
    right. exists lo. split; [reflexivity|]. simpl.
    rewrite cell_insert_ne; [assumption|].
    intros ->. rewrite Hc in Hn. discriminate. }
  erewrite bind_ok; cycle 1.
  { unfold setitem. erewrite bind_ok by reflexivity.
    simpl. unfold write_dict, set_heap. simpl.
    rewrite cell_insert_eq, list_insert_insert_eq by assumption.
    reflexivity. }
  unfold build. replace (model cls) with (@ret models.class models.Patient)
    by (destruct Hcls; subst; reflexivity).
  erewrite bind_ok by reflexivity.
  erewrite bind_ok by reflexivity.
  simpl. rewrite cell_insert_eq by assumption.
  unfold call. rewrite bind_args_only_keys.
  - simpl take_args.
    rewrite dict_get_set_ne, (dict_get_pop_ne "name" _ _ _ _ Epop), Hn
      by discriminate.
    rewrite dict_get_set_eq. reflexivity.
  - intros k Hin. apply dict_keys_set in Hin as [->|Hin].
    + simpl. tauto.
    + apply Hk, Hsub, Hin.
Qed.

Lemma raises_PatientSerializer_deserialize cls data :
  patient_class cls ->
  raises_only deserialize_error (PatientSerializer_deserialize cls data).
Proof.
  intros Hcls. apply raises_only_bind.
  - eapply raises_only_impl; [|apply raises_iterate].
    intros e <-. right. now left.
  - intros xs. apply raises_only_bind; [|intros; apply raises_only_ret].
    apply raises_only_for_each. intros x.
    eapply raises_only_impl; [|apply raises_deserialize_item; assumption].
    now intros e [H _].
Qed.

(** C2, counterexample.  The record [{name: "Alice", observations: {}}]
    has an [observations] that is a mapping, not a sequence of observation
    records.  [PatientSerializer.deserialize] raises nothing: it returns
    Alice without observations.  [json.load] builds this record from the
    text [[{"name": "Alice", "observations": {}}]], and [load] returns the
    same. *)
Lemma deserialize_accepts_empty_mapping :
  entry empty_mapping_world 1 "observations" = Some (VDict 0)
  /\ cell (heap empty_mapping_world) 0 = []
  /\ fst (deserialize PatientSerializer (VList [VDict 1]) empty_mapping_world)
     = Ok (VList [patient_obj (Patient "Alice" [])])
  /\ fst (load PatientJSONSerializer "p.json"
            (World [] {["p.json" := string_of_list_ascii empty_mapping_text]}
               one_directory))
     = Ok (VList [patient_obj (Patient "Alice" [])]).
Proof. repeat split. Qed.

(** The same with the empty string under [observations]. *)
Example deserialize_accepts_empty_string :
  entry empty_string_world 0 "observations" = Some (VStr "")
  /\ fst (deserialize PatientSerializer (VList [VDict 0]) empty_string_world)
     = Ok (VList [patient_obj (Patient "Alice" [])]).
Proof. repeat split. Qed.

(** C2, amended.  [deserialize] raises no [SchemaError]; the exceptions
    are those of the operations it uses: [ObservationSerializer.deserialize]
    raises nothing but [TypeError], and [PatientSerializer.deserialize]
    nothing but [KeyError], [TypeError] and [AttributeError].
    [ObservationSerializer.deserialize] raises [TypeError], and changes
    nothing, whenever a record of its input misses one of the keys [day]
    and [value] or has another key.  [PatientSerializer.deserialize], on
    a list of dictionaries, raises [KeyError] or [TypeError] whenever a
    record has no [name], has no [observations], or its [observations] is
    neither a list of dictionaries with exactly the keys [day] and
    [value] nor an empty string nor an empty dictionary; it raises
    [KeyError] when the first record has no [observations].  A record with
    the keys [name] and [observations] and no other, whose [observations]
    is an empty string or an empty dictionary, is accepted: it gives the
    patient of that name without observations. *)
Theorem schema_errors :
  (forall xs w,
     Exists (fun x => exists l, x = VDict l
               /\ missing_or_extra models.Observation (cell (heap w) l)) xs ->
     deserialize ObservationSerializer (VList xs) w = (Raise TypeError, w))
  /\ (forall cls xs w,
        patient_class cls ->
        Forall (fun x => is_dict x = true) xs ->
        Exists (record_error (heap w)) xs ->
        exists e w',
          deserialize cls (VList xs) w = (Raise e, w')
          /\ (e = KeyError \/ e = TypeError))
  /\ (forall cls l xs w,
        patient_class cls ->
        dict_get "observations" (cell (heap w) l) = None ->
        deserialize cls (VList (VDict l :: xs)) w = (Raise KeyError, w))
  /\ (forall cls l n ov w,
        patient_class cls ->
        dict_get "name" (cell (heap w) l) = Some n ->
        dict_get "observations" (cell (heap w) l) = Some ov ->
        only_keys (models.params models.Patient) (cell (heap w) l) ->
        ov = VStr "" \/ (exists lo, ov = VDict lo /\ cell (heap w) lo = []) ->
        fst (deserialize cls (VList [VDict l]) w)
        = Ok (VList [VObject models.Patient
                       [("name", n); ("observations", VList [])]]))
  /\ (forall data w e w',
        deserialize ObservationSerializer data w = (Raise e, w') ->
        e = TypeError)
  /\ (forall cls data w e w',
        patient_class cls ->
        deserialize cls data w = (Raise e, w') ->
        e = KeyError \/ e = TypeError \/ e = AttributeError).
Proof.
  split; [|split; [|split; [|split; [|split]]]].
  - intros xs w Hex. unfold deserialize. cbn [resolve mro defines List.find].
    unfold ObservationSerializer_deserialize. simpl iterate.
    erewrite bind_ok by reflexivity. unfold bind.
    pose proof (for_each_build w xs) as H.
    destruct (for_each (build ObservationSerializer) xs w) as [[vs|e] w1].
    + destruct H as [Hf _]. exfalso.
      apply Exists_exists in Hex as (x & Hin & l & -> & Hm).
      rewrite Forall_forall in Hf.
      destruct (Hf (VDict l)) as (l' & E & Hv); [assumption|].
      inversion E; subst. contradiction.
    + destruct H as (_ & -> & ->). reflexivity.
  - intros cls xs w Hcls Hd Hex.
    destruct (for_each_record_error cls xs Hcls Hd w Hex) as (e & w' & E & He).
    exists e, w'. split; [|exact He].
    rewrite deserialize_patient_class by assumption.
    unfold PatientSerializer_deserialize. simpl iterate.
    erewrite bind_ok by reflexivity. now erewrite bind_raise by exact E.
  - intros cls l xs w Hcls Hn.
    rewrite deserialize_patient_class by assumption.
    unfold PatientSerializer_deserialize. simpl iterate.
    erewrite bind_ok by reflexivity. erewrite bind_raise; [reflexivity|].
    simpl. erewrite bind_raise; [reflexivity|].
    unfold deserialize_item. erewrite bind_raise; [reflexivity|].
    unfold pop, bind, read_dict.
    destruct (dict_pop "observations" (cell (heap w) l)) as [[x d']|] eqn:Ep;
      [|reflexivity].
    apply dict_pop_get in Ep. congruence.
  - intros cls l n ov w Hcls Hn Ho Hk Hov.
    destruct (deserialize_item_empty_observations cls w l n ov
                Hcls Hn Ho Hk Hov) as (d & E).
    rewrite deserialize_patient_class by assumption.
    unfold PatientSerializer_deserialize. simpl iterate.
    erewrite bind_ok by reflexivity.
    erewrite bind_ok; [reflexivity|].
    simpl. erewrite bind_ok by exact E. reflexivity.
  - intros data w e w' E. symmetry.
    eapply (raises_ObservationSerializer_deserialize data), E.
  - intros cls data w e w' Hcls E.
    rewrite deserialize_patient_class in E by assumption.
    eapply raises_PatientSerializer_deserialize; eassumption.
Qed.

(** The theorem at a record without [observations], and at the records of
    the counterexample. *)
Lemma schema_errors_witness :
  (dict_get "observations" (cell (heap no_observations_world) 0) = None
   /\ deserialize PatientSerializer (VList [VDict 0]) no_observations_world
      = (Raise KeyError, no_observations_world))
  /\ fst (deserialize PatientSerializer (VList [VDict 1]) empty_mapping_world)
     = Ok (VList [VObject models.Patient
                    [("name", VStr "Alice"); ("observations", VList [])]])
  /\ fst (deserialize PatientSerializer (VList [VDict 0]) empty_string_world)
     = Ok (VList [VObject models.Patient
                    [("name", VStr "Alice"); ("observations", VList [])]]).
Proof.
  split; [split; [reflexivity|]|split].
  - apply (proj1 (proj2 (proj2 schema_errors))
             PatientSerializer 0 [] no_observations_world).
    + now left.
    + reflexivity.
  - apply (proj1 (proj2 (proj2 (proj2 schema_errors)))
             PatientSerializer 1 (VStr "Alice") (VDict 0) empty_mapping_world).
    + now left.
    + reflexivity.
    + reflexivity.
    + intros k Hk. simpl in Hk |- *. tauto.
    + right. exists 0. split; reflexivity.
  - apply (proj1 (proj2 (proj2 (proj2 schema_errors)))
             PatientSerializer 0 (VStr "Alice") (VStr "") empty_string_world).
    + now left.
    + reflexivity.
    + reflexivity.
    + intros k Hk. simpl in Hk |- *. tauto.
    + now left.
Defined.

(** With a value that is no number in place of the test's patients the
    assertion on the values fails, although [save] and [load] return. *)
Example test_fails_on_nan :
  test_serializers.report
    (test_serializers.save_load_check (save PatientJSONSerializer)
       (load PatientJSONSerializer) (VList [nan_patient])) empty_world
  = test_serializers.failed_assertion.
Proof. vm_compute. reflexivity. Qed.
